(** * shadPKG: the PKG / PFS extraction pipeline

    A shallow embedding of [core/file_format/pkg.cpp] ([GetPFSCOffset],
    [PKG::Open], [PKG::Extract], [PKG::ExtractFiles],
    [PKG::ExtractAllFilesWithProgress]) and of the sequential driver of
    [main.cpp], followed by the properties of the pipeline.

    Conventions.
    - A C++ integer of width [w] is a [Z]; every conversion the source
      performs is written out with [u32], [s32], [u64], [s64]. Arithmetic on
      [int] wraps like the conversions do, as on the two's-complement
      targets the project is built for.
    - A buffer ([std::array], [std::vector], a struct read with [memcpy]) is a
      [list byte]; a read that delivers fewer bytes than the buffer holds
      leaves the tail of the buffer as it was ([store_into]).
    - Behaviour the C++ standard leaves undefined (an access outside a buffer,
      a division by zero) is the outcome [Undefined], an exception that
      leaves the function is [Throws]; loops whose stride comes from the data
      take fuel and may end in [OutOfFuel]. *)

From Stdlib Require Import ZArith List String Ascii Lia Bool.
From Stdlib.Strings Require Import Byte.
From Stdlib Require DecimalString HexadecimalString.
From stdpp Require Import gmap strings.
Import ListNotations.
Local Open Scope Z_scope.

(** ** Machine integers *)

Definition u16 (z : Z) : Z := z mod 2 ^ 16.
Definition u32 (z : Z) : Z := z mod 2 ^ 32.
Definition u64 (z : Z) : Z := z mod 2 ^ 64.
Definition s32 (z : Z) : Z := (z + 2 ^ 31) mod 2 ^ 32 - 2 ^ 31.
Definition s64 (z : Z) : Z := (z + 2 ^ 63) mod 2 ^ 64 - 2 ^ 63.

(** ** Bytes and buffers *)

Definition byte_to_Z (b : byte) : Z := Z.of_N (Byte.to_N b).

Definition byte_of_Z (z : Z) : byte :=
  match Byte.of_N (Z.to_N (z mod 256)) with
  | Some b => b
  | None => x00
  end.

Fixpoint le_decode (l : list byte) : Z :=
  match l with
  | [] => 0
  | b :: r => byte_to_Z b + 256 * le_decode r
  end.

Definition be_decode (l : list byte) : Z := le_decode (rev l).

Fixpoint le_encode (n : nat) (z : Z) : list byte :=
  match n with
  | O => []
  | S k => byte_of_Z z :: le_encode k (z / 256)
  end.

Definition be_encode (n : nat) (z : Z) : list byte := rev (le_encode n z).

Definition zeros (n : Z) : list byte := repeat x00 (Z.to_nat n).

(** [slice off n l]: the [n] bytes of [l] from offset [off] on (fewer when
    [l] ends before). *)
Definition slice (off n : Z) (l : list byte) : list byte :=
  firstn (Z.to_nat n) (skipn (Z.to_nat off) l).

(** Writing [src] at the start of a buffer of [n] bytes whose content was
    [dest]: the buffer keeps its size, and what [src] does not cover keeps
    its old content. *)
Definition store_into (n : Z) (dest src : list byte) : list byte :=
  firstn (Z.to_nat n) (src ++ skipn (length src) (dest ++ zeros n)).

(** [v.resize(n)] on a vector of bytes: new elements are zero. *)
Definition resize (n : Z) (v : list byte) : list byte :=
  firstn (Z.to_nat n) (v ++ zeros n).

(** [memcpy] of [n] bytes out of [buf] at [off]: defined only inside [buf]. *)
Definition in_bounds (off n : Z) (buf : list byte) : bool :=
  (0 <=? off) && (0 <=? n) && (off + n <=? Z.of_nat (length buf)).

(** The little-endian integer of [n] bytes at [off]. *)
Definition le_at (off n : Z) (buf : list byte) : Z := le_decode (slice off n buf).
Definition be_at (off n : Z) (buf : list byte) : Z := be_decode (slice off n buf).

(** ** Outcomes *)

Inductive outcome (A : Type) : Type :=
| Normal (a : A)
| Undefined (what : string)
| Throws (what : string)
| OutOfFuel.
Arguments Normal {A} a.
Arguments Undefined {A} what.
Arguments Throws {A} what.
Arguments OutOfFuel {A}.

Definition bind {A B : Type} (o : outcome A) (k : A -> outcome B) : outcome B :=
  match o with
  | Normal a => k a
  | Undefined w => Undefined w
  | Throws w => Throws w
  | OutOfFuel => OutOfFuel
  end.

(** ** The binary reader *)

Module IO.

  (** Modelled from the spec: common/io_file.cpp ([Common::FS::IOFile]) is not
      among the sources. Section 4.1: positioned reads over the PKG file; a
      seek that exceeds the file size fails. A read delivers the bytes that
      are there and advances by as many; [pkg.cpp] never looks at the result
      of a read. *)
Record IOFile := mkFile { bytes : list byte; pos : Z }.

Definition GetSize (f : IOFile) : Z := Z.of_nat (length (bytes f)).
Definition Tell (f : IOFile) : Z := pos f.

Definition Seek (f : IOFile) (offset : Z) : bool * IOFile :=
    if (0 <=? offset) && (offset <=? GetSize f)
    then (true, mkFile (bytes f) offset)
    else (false, f).

  (** [Seek(n, SeekOrigin::CurrentPosition)] *)
Definition SeekCur (f : IOFile) (n : Z) : bool * IOFile :=
    Seek f (pos f + n).

Definition ReadRaw (f : IOFile) (n : Z) : list byte * IOFile :=
    let got := slice (pos f) n (bytes f) in
    (got, mkFile (bytes f) (pos f + Z.of_nat (length got))).

  (** [file.Read(obj)] for an object of [n] bytes whose content was [obj]:
      the object is overwritten by what was read. *)
Definition Read (f : IOFile) (n : Z) (obj : list byte) : list byte * IOFile :=
    let '(got, f') := ReadRaw f n in
    (store_into n obj got, f').

Definition open (content : list byte) : IOFile := mkFile content 0.

End IO.
Import IO.

(** ** Paths and the output directory *)

Module Path.

  (** Modelled from the C++ standard library: [std::filesystem::path] in its
      generic format, with "/" as the only separator. *)
Fixpoint split_last (p : string) : option (string * string) :=
    match p with
    | EmptyString => None
    | String c r =>
        match split_last r with
        | Some (b, a) => Some (String c b, a)
        | None => if Ascii.eqb c "/" then Some (EmptyString, r) else None
        end
    end.

Definition parent_path (p : string) : string :=
    match split_last p with
    | None => EmptyString
    | Some (b, _) => if String.eqb b "" then "/"%string else b
    end.

Definition filename (p : string) : string :=
    match split_last p with
    | None => p
    | Some (_, a) => a
    end.

Definition ends_with (p suffix : string) : bool :=
    let n := String.length p in
    let m := String.length suffix in
    (m <=? n)%nat && String.eqb (substring (n - m) m p) suffix.

Definition starts_with (p pre : string) : bool := String.prefix pre p.

  (** [p / q] *)
Definition append (p q : string) : string :=
    if starts_with q "/" then q
    else if String.eqb p "" then q
    else if ends_with p "/" then (p ++ q)%string
    else (p ++ "/" ++ q)%string.

End Path.

Infix "//" := Path.append (at level 40, left associativity).

(** What extraction leaves on disk: the content of every file written and
    the directories created. *)
Record World := mkWorld {
  files : gmap string (list byte);
  dirs : gset string
}.

Definition create_directories (p : string) (w : World) : World :=
  mkWorld (files w) ({[ p ]} ∪ dirs w).

(** An [IOFile] opened for writing on [p], written once and closed. Opening
    the empty path fails and nothing is written. *)
Definition write_file (p : string) (data : list byte) (w : World) : World :=
  if String.eqb p "" then w else mkWorld (<[ p := data ]> (files w)) (dirs w).

Definition to_string (z : Z) : string :=
  DecimalString.NilZero.string_of_uint (N.to_uint (Z.to_N z)).

(** [oss << std::hex << n] for an [int] [n]: the digits of its 32-bit
    two's-complement pattern. *)
Definition hex (n : Z) : string :=
  HexadecimalString.NilZero.string_of_uint (N.to_hex_uint (Z.to_N (u32 n))).

(** ** File formats *)

(** [pkg.h] and [pfs.h] are not among the sources: where a field lies inside
    its struct is a parameter of the model. The magic is the first field of
    [PKGHeader]; the header takes 0x1000 bytes, a [PKGEntry] 32, an [Inode]
    0xA8; the four [s32] fields of a [Dirent] (ino, type, namelen, entsize)
    come first and its name starts at 0x10, as the walker's probes of offsets
    0x10 and 0x28 show. *)
Record Layout := mkLayout {
  ofs_pkg_table_entry_count : Z;
  ofs_pkg_table_entry_offset : Z;
  ofs_pkg_content_offset : Z;
  ofs_pkg_content_size : Z;
  ofs_pfs_image_offset : Z;
  ofs_pkg_size : Z;
  ofs_pfs_cache_size : Z;
  sizeof_PFSCHdr : Z;
  ofs_block_sz2 : Z;
  ofs_block_offsets : Z;
  ofs_data_length : Z;
  ofs_Mode : Z;
  ofs_Size : Z;
  ofs_Blocks : Z;
  ofs_loc : Z
}.

Definition sizeof_PKGHeader : Z := 0x1000.
Definition sizeof_PKGEntry : Z := 32.
Definition sizeof_Inode : Z := 0xA8.

(** [u32_be]: four bytes of storage, read as a big-endian number. *)
Definition u32_be := list byte.
Definition value (x : u32_be) : Z := be_decode x.

Record PKGEntry := mkEntry {
  id : u32_be;
  filename_offset : u32_be;
  flags1 : u32_be;
  flags2 : u32_be;
  offset : u32_be;
  size : u32_be;
  padding : list byte
}.

(** [PKGEntry entry{}] *)
Definition PKGEntry_zero : PKGEntry :=
  mkEntry (zeros 4) (zeros 4) (zeros 4) (zeros 4) (zeros 4) (zeros 4) (zeros 8).

(** The object representation [memcpy(.., &entry, sizeof(entry))] copies. *)
Definition PKGEntry_bytes (e : PKGEntry) : list byte :=
  id e ++ filename_offset e ++ flags1 e ++ flags2 e ++ offset e ++ size e
     ++ padding e.

Record Inode := mkInode { Mode : Z; Size : Z; Blocks : Z; loc : Z }.

Record Dirent := mkDirent {
  ino : Z; type : Z; namelen : Z; entsize : Z
}.

Record FSTableEntry := mkFSTableEntry {
  name : string; inode : Z; type_ : Z
}.

(** [PFSFileType], as main.cpp's table of type names and HOWWORKS.md give it. *)
Definition PFS_FILE : Z := 2.
Definition PFS_DIR : Z := 3.
Definition PFS_CURRENT_DIR : Z := 4.

(** ** The crypto component *)

Inductive Keyset := PkgDerivedKey3Keyset | FakeKeyset.

(** The primitives are external (Crypto++, zlib). *)
Record Primitives := mkPrimitives {
  sha256 : list byte -> list byte;
  aes128_cbc_decrypt : list byte -> list byte -> list byte -> list byte;
  rsa2048_decrypt : Keyset -> list byte -> list byte;
  hmac_sha256 : list byte -> list byte -> list byte;
  aes128_xts_decrypt : list byte -> list byte -> Z -> list byte -> list byte;
  inflate : list byte -> list byte
}.

Module Crypto.
Section Crypto.
Variable P : Primitives.

  (** Modelled from the spec: core/crypto/crypto.cpp is not among the
      sources. Sections 4.2 and 4.5, with HOWWORKS.md sections 3 and 4.1: each
      routine stores the result of one primitive in its output buffer. *)
Definition RSA2048Decrypt (dec_key ciphertext : list byte) (is_dk3 : bool)
    : list byte :=
    store_into 32 dec_key
      (rsa2048_decrypt P
         (if is_dk3 then PkgDerivedKey3Keyset else FakeKeyset) ciphertext).

Definition ivKeyHASH256 (cipher_input ivkey_result : list byte) : list byte :=
    store_into 32 ivkey_result (sha256 P cipher_input).

  (** iv = ivKey[0..16], key = ivKey[16..32] *)
Definition aesCbcCfb128Decrypt (ivkey ciphertext decrypted : list byte)
    : list byte :=
    store_into 256 decrypted
      (aes128_cbc_decrypt P (slice 16 16 ivkey) (slice 0 16 ivkey) ciphertext).

Definition aesCbcCfb128DecryptEntry (ivkey ciphertext decrypted : list byte)
    : list byte :=
    store_into (Z.of_nat (length decrypted)) decrypted
      (aes128_cbc_decrypt P (slice 16 16 ivkey) (slice 0 16 ivkey) ciphertext).

  (** HMAC-SHA-256 over [u32_le(1) || seed] keyed with ekpfs: the first 16
      bytes are the tweak key, the next 16 the data key. *)
Definition PfsGenCryptoKey (ekpfs seed dataKey tweakKey : list byte)
    : list byte * list byte :=
    let d := hmac_sha256 P ekpfs (le_encode 4 1 ++ seed) in
    (store_into 16 dataKey (slice 16 16 d), store_into 16 tweakKey (slice 0 16 d)).

Definition decryptPFS (dataKey tweakKey src_image dst_image : list byte)
      (sector : Z) : list byte :=
    store_into (Z.of_nat (length dst_image)) dst_image (aes128_xts_decrypt P dataKey tweakKey sector src_image).

End Crypto.
End Crypto.

(** [DecompressPFSC] (pkg.cpp): zlib inflates into the caller's buffer, at
    most [decompressed_size] bytes of it. *)
Definition DecompressPFSC (P : Primitives) (compressed_data decompressed_data : list byte)
  : list byte :=
  store_into (Z.of_nat (length decompressed_data)) decompressed_data
    (inflate P compressed_data).

(** ** The PKG object *)

(** The data members of [class PKG] that the four functions touch.
    [pkgFlags], a string shown to the user, is left out. *)
Record PKG := mkPKG {
  pkgheader : list byte;
  pkgSize : Z;
  pkgTitleID : list byte;
  pkgEntries : list PKGEntry;
  sfo : list byte;
  extract_path : string;
  pkgpath : string;
  dk3_ : list byte;
  ivKey : list byte;
  imgKey : list byte;
  ekpfsKey : list byte;
  dataKey : list byte;
  tweakKey : list byte;
  decNp : list byte;
  pfsc_offset : Z;
  sectorMap : list Z;
  iNodeBuf : list Inode;
  fsTable : list FSTableEntry;
  extractPaths : gmap Z string;
  current_dir : string
}.

Definition set_pkgheader (self : PKG) (v : list byte) : PKG :=
  mkPKG v (pkgSize self) (pkgTitleID self) (pkgEntries self) (sfo self)
    (extract_path self) (pkgpath self) (dk3_ self) (ivKey self) (imgKey self)
    (ekpfsKey self) (dataKey self) (tweakKey self) (decNp self)
    (pfsc_offset self) (sectorMap self) (iNodeBuf self) (fsTable self)
    (extractPaths self) (current_dir self).
Definition set_pkgSize (self : PKG) (v : Z) : PKG :=
  mkPKG (pkgheader self) v (pkgTitleID self) (pkgEntries self) (sfo self)
    (extract_path self) (pkgpath self) (dk3_ self) (ivKey self) (imgKey self)
    (ekpfsKey self) (dataKey self) (tweakKey self) (decNp self)
    (pfsc_offset self) (sectorMap self) (iNodeBuf self) (fsTable self)
    (extractPaths self) (current_dir self).
Definition set_pkgTitleID (self : PKG) (v : list byte) : PKG :=
  mkPKG (pkgheader self) (pkgSize self) v (pkgEntries self) (sfo self)
    (extract_path self) (pkgpath self) (dk3_ self) (ivKey self) (imgKey self)
    (ekpfsKey self) (dataKey self) (tweakKey self) (decNp self)
    (pfsc_offset self) (sectorMap self) (iNodeBuf self) (fsTable self)
    (extractPaths self) (current_dir self).
Definition set_pkgEntries (self : PKG) (v : list PKGEntry) : PKG :=
  mkPKG (pkgheader self) (pkgSize self) (pkgTitleID self) v (sfo self)
    (extract_path self) (pkgpath self) (dk3_ self) (ivKey self) (imgKey self)
    (ekpfsKey self) (dataKey self) (tweakKey self) (decNp self)
    (pfsc_offset self) (sectorMap self) (iNodeBuf self) (fsTable self)
    (extractPaths self) (current_dir self).
Definition set_sfo (self : PKG) (v : list byte) : PKG :=
  mkPKG (pkgheader self) (pkgSize self) (pkgTitleID self) (pkgEntries self) v
    (extract_path self) (pkgpath self) (dk3_ self) (ivKey self) (imgKey self)
    (ekpfsKey self) (dataKey self) (tweakKey self) (decNp self)
    (pfsc_offset self) (sectorMap self) (iNodeBuf self) (fsTable self)
    (extractPaths self) (current_dir self).
Definition set_extract_path (self : PKG) (v : string) : PKG :=
  mkPKG (pkgheader self) (pkgSize self) (pkgTitleID self) (pkgEntries self)
    (sfo self) v (pkgpath self) (dk3_ self) (ivKey self) (imgKey self)
    (ekpfsKey self) (dataKey self) (tweakKey self) (decNp self)
    (pfsc_offset self) (sectorMap self) (iNodeBuf self) (fsTable self)
    (extractPaths self) (current_dir self).
Definition set_pkgpath (self : PKG) (v : string) : PKG :=
  mkPKG (pkgheader self) (pkgSize self) (pkgTitleID self) (pkgEntries self)
    (sfo self) (extract_path self) v (dk3_ self) (ivKey self) (imgKey self)
    (ekpfsKey self) (dataKey self) (tweakKey self) (decNp self)
    (pfsc_offset self) (sectorMap self) (iNodeBuf self) (fsTable self)
    (extractPaths self) (current_dir self).
Definition set_dk3_ (self : PKG) (v : list byte) : PKG :=
  mkPKG (pkgheader self) (pkgSize self) (pkgTitleID self) (pkgEntries self)
    (sfo self) (extract_path self) (pkgpath self) v (ivKey self) (imgKey self)
    (ekpfsKey self) (dataKey self) (tweakKey self) (decNp self)
    (pfsc_offset self) (sectorMap self) (iNodeBuf self) (fsTable self)
    (extractPaths self) (current_dir self).
Definition set_ivKey (self : PKG) (v : list byte) : PKG :=
  mkPKG (pkgheader self) (pkgSize self) (pkgTitleID self) (pkgEntries self)
    (sfo self) (extract_path self) (pkgpath self) (dk3_ self) v (imgKey self)
    (ekpfsKey self) (dataKey self) (tweakKey self) (decNp self)
    (pfsc_offset self) (sectorMap self) (iNodeBuf self) (fsTable self)
    (extractPaths self) (current_dir self).
Definition set_imgKey (self : PKG) (v : list byte) : PKG :=
  mkPKG (pkgheader self) (pkgSize self) (pkgTitleID self) (pkgEntries self)
    (sfo self) (extract_path self) (pkgpath self) (dk3_ self) (ivKey self) v
    (ekpfsKey self) (dataKey self) (tweakKey self) (decNp self)
    (pfsc_offset self) (sectorMap self) (iNodeBuf self) (fsTable self)
    (extractPaths self) (current_dir self).
Definition set_ekpfsKey (self : PKG) (v : list byte) : PKG :=
  mkPKG (pkgheader self) (pkgSize self) (pkgTitleID self) (pkgEntries self)
    (sfo self) (extract_path self) (pkgpath self) (dk3_ self) (ivKey self)
    (imgKey self) v (dataKey self) (tweakKey self) (decNp self)
    (pfsc_offset self) (sectorMap self) (iNodeBuf self) (fsTable self)
    (extractPaths self) (current_dir self).
Definition set_dataKey (self : PKG) (v : list byte) : PKG :=
  mkPKG (pkgheader self) (pkgSize self) (pkgTitleID self) (pkgEntries self)
    (sfo self) (extract_path self) (pkgpath self) (dk3_ self) (ivKey self)
    (imgKey self) (ekpfsKey self) v (tweakKey self) (decNp self)
    (pfsc_offset self) (sectorMap self) (iNodeBuf self) (fsTable self)
    (extractPaths self) (current_dir self).
Definition set_tweakKey (self : PKG) (v : list byte) : PKG :=
  mkPKG (pkgheader self) (pkgSize self) (pkgTitleID self) (pkgEntries self)
    (sfo self) (extract_path self) (pkgpath self) (dk3_ self) (ivKey self)
    (imgKey self) (ekpfsKey self) (dataKey self) v (decNp self)
    (pfsc_offset self) (sectorMap self) (iNodeBuf self) (fsTable self)
    (extractPaths self) (current_dir self).
Definition set_decNp (self : PKG) (v : list byte) : PKG :=
  mkPKG (pkgheader self) (pkgSize self) (pkgTitleID self) (pkgEntries self)
    (sfo self) (extract_path self) (pkgpath self) (dk3_ self) (ivKey self)
    (imgKey self) (ekpfsKey self) (dataKey self) (tweakKey self) v
    (pfsc_offset self) (sectorMap self) (iNodeBuf self) (fsTable self)
    (extractPaths self) (current_dir self).
Definition set_pfsc_offset (self : PKG) (v : Z) : PKG :=
  mkPKG (pkgheader self) (pkgSize self) (pkgTitleID self) (pkgEntries self)
    (sfo self) (extract_path self) (pkgpath self) (dk3_ self) (ivKey self)
    (imgKey self) (ekpfsKey self) (dataKey self) (tweakKey self)
    (decNp self) v (sectorMap self) (iNodeBuf self) (fsTable self)
    (extractPaths self) (current_dir self).
Definition set_sectorMap (self : PKG) (v : list Z) : PKG :=
  mkPKG (pkgheader self) (pkgSize self) (pkgTitleID self) (pkgEntries self)
    (sfo self) (extract_path self) (pkgpath self) (dk3_ self) (ivKey self)
    (imgKey self) (ekpfsKey self) (dataKey self) (tweakKey self) (decNp self)
    (pfsc_offset self) v (iNodeBuf self) (fsTable self) (extractPaths self)
    (current_dir self).
Definition set_iNodeBuf (self : PKG) (v : list Inode) : PKG :=
  mkPKG (pkgheader self) (pkgSize self) (pkgTitleID self) (pkgEntries self)
    (sfo self) (extract_path self) (pkgpath self) (dk3_ self) (ivKey self)
    (imgKey self) (ekpfsKey self) (dataKey self) (tweakKey self) (decNp self)
    (pfsc_offset self) (sectorMap self) v (fsTable self) (extractPaths self)
    (current_dir self).
Definition set_fsTable (self : PKG) (v : list FSTableEntry) : PKG :=
  mkPKG (pkgheader self) (pkgSize self) (pkgTitleID self) (pkgEntries self)
    (sfo self) (extract_path self) (pkgpath self) (dk3_ self) (ivKey self)
    (imgKey self) (ekpfsKey self) (dataKey self) (tweakKey self) (decNp self)
    (pfsc_offset self) (sectorMap self) (iNodeBuf self) v (extractPaths self)
    (current_dir self).
Definition set_extractPaths (self : PKG) (v : gmap Z string) : PKG :=
  mkPKG (pkgheader self) (pkgSize self) (pkgTitleID self) (pkgEntries self)
    (sfo self) (extract_path self) (pkgpath self) (dk3_ self) (ivKey self)
    (imgKey self) (ekpfsKey self) (dataKey self) (tweakKey self) (decNp self)
    (pfsc_offset self) (sectorMap self) (iNodeBuf self) (fsTable self) v
    (current_dir self).
Definition set_current_dir (self : PKG) (v : string) : PKG :=
  mkPKG (pkgheader self) (pkgSize self) (pkgTitleID self) (pkgEntries self)
    (sfo self) (extract_path self) (pkgpath self) (dk3_ self) (ivKey self)
    (imgKey self) (ekpfsKey self) (dataKey self) (tweakKey self) (decNp self)
    (pfsc_offset self) (sectorMap self) (iNodeBuf self) (fsTable self)
    (extractPaths self) v.

(** A [PKG] as its constructor leaves it; the arrays hold [init] bytes
    (C++ leaves them indeterminate). *)
Definition PKG_new (init : byte) : PKG :=
  let arr n := repeat init (Z.to_nat n) in
  mkPKG (arr 4096) 0 (arr 9) [] [] "" "" (arr 32) (arr 32) (arr 256) (arr 32)
    (arr 16) (arr 16) [] 0 [] [] [] ∅ "".

(** ** Header fields *)

Definition magic (h : list byte) : Z := be_at 0 4 h.

Section Header.
Variable L : Layout.
Variable h : list byte.
Definition pkg_table_entry_count : Z := be_at (ofs_pkg_table_entry_count L) 4 h.
Definition pkg_table_entry_offset : Z := be_at (ofs_pkg_table_entry_offset L) 4 h.
Definition pkg_content_offset : Z := be_at (ofs_pkg_content_offset L) 8 h.
Definition pkg_content_size : Z := be_at (ofs_pkg_content_size L) 8 h.
Definition pfs_image_offset : Z := be_at (ofs_pfs_image_offset L) 8 h.
Definition pkg_size : Z := be_at (ofs_pkg_size L) 8 h.
Definition pfs_cache_size : Z := be_at (ofs_pfs_cache_size L) 4 h.
End Header.

(** Modelled from the spec: [GetTitleID] is declared in pkg.h, which is not
    among the sources. Section 4.4: the title ID is the nine characters that
    [Open] read at offset 0x47. *)
Definition GetTitleID (self : PKG) : string :=
  string_of_list_byte (firstn 9 (pkgTitleID self)).

(** ** Reading one slot of the entry table *)

(** The six [file.Read(entry.<field>)] and the [file.Seek(8, CurrentPosition)]
    that open every iteration of the entry loops of [Open] and [Extract]: the
    eight bytes that end the slot are stepped over, and [entry.padding] stays
    as [PKGEntry entry{}] made it. *)
Definition read_entry (f : IOFile) : PKGEntry * IOFile :=
  let entry := PKGEntry_zero in
  let '(x_id, f) := Read f 4 (id entry) in
  let '(x_filename_offset, f) := Read f 4 (filename_offset entry) in
  let '(x_flags1, f) := Read f 4 (flags1 entry) in
  let '(x_flags2, f) := Read f 4 (flags2 entry) in
  let '(x_offset, f) := Read f 4 (offset entry) in
  let '(x_size, f) := Read f 4 (size entry) in
  let '(_, f) := SeekCur f 8 in
  (mkEntry x_id x_filename_offset x_flags1 x_flags2 x_offset x_size
     (padding entry), f).

(** ** [PKG::Open] *)

Section Open.
Variable L : Layout.
Variable GetEntryNameByType : Z -> string.
Variable disk : string -> option (list byte).

Fixpoint Open_entries (n : nat) (self : PKG) (file : IOFile)
      (failreason : string) : bool * PKG * string :=
    match n with
    | O => (true, self, failreason)
    | S k =>
        let '(entry, file) := read_entry file in
        let self := set_pkgEntries self (pkgEntries self ++ [entry]) in
        let name := GetEntryNameByType (value (id entry)) in
        if String.eqb name "param.sfo" then
          let self := set_sfo self [] in
          let '(ok, file) := Seek file (value (offset entry)) in
          if negb ok then (false, self, "Failed to seek to param.sfo offset"%string)
          else
            let '(got, file) := ReadRaw file (value (size entry)) in
            let self := set_sfo self (store_into (value (size entry)) [] got) in
            Open_entries k self file failreason
        else Open_entries k self file failreason
    end.

Definition Open (self : PKG) (filepath : string) (failreason : string)
    : bool * PKG * string :=
    match disk filepath with
    | None => (false, self, failreason)
    | Some content =>
        let file := IO.open content in
        let self := set_pkgSize self (GetSize file) in
        let '(hdr, file) := Read file sizeof_PKGHeader (pkgheader self) in
        let self := set_pkgheader self hdr in
        if negb (magic hdr =? 0x7F434E54) then (false, self, failreason)
        else
          let '(_, file) := Seek file 0x47 in
          let '(tid, file) := Read file 9 (pkgTitleID self) in
          let self := set_pkgTitleID self tid in
          let offset := pkg_table_entry_offset L hdr in
          let n_files := pkg_table_entry_count L hdr in
          let '(ok, file) := Seek file offset in
          if negb ok
          then (false, self, "Failed to seek to PKG table entry offset"%string)
          else
            let self := set_pkgEntries self [] in
            Open_entries (Z.to_nat n_files) self file failreason
    end.

End Open.

(** ** [PKG::Extract]: the entry table *)

(** How a piece of a C++ function ends: it falls through to what follows, or
    the function returns. *)
Inductive flow (A : Type) : Type :=
| Continue (a : A)
| Return (result : bool) (a : A).
Arguments Continue {A} a.
Arguments Return {A} result a.

Definition flow_frame {A : Type} (fl : flow A) : A :=
  match fl with
  | Continue a => a
  | Return _ a => a
  end.

(** What [Extract] works on: the object, the PKG file and its position, the
    output directory, the [failreason] out-parameter, and the local arrays
    that outlive an iteration of the entry loop. *)
Record Frame := mkFrame {
  obj : PKG;
  file : IOFile;
  world : World;
  failreason : string;
  seed_digest : list byte;
  digest1 : list (list byte);
  key1 : list (list byte);
  imgkeydata : list byte;
  seed : list byte
}.

Definition set_obj (fr : Frame) (v : PKG) : Frame :=
  mkFrame v (file fr) (world fr) (failreason fr) (seed_digest fr) (digest1 fr)
    (key1 fr) (imgkeydata fr) (seed fr).
Definition set_file (fr : Frame) (v : IOFile) : Frame :=
  mkFrame (obj fr) v (world fr) (failreason fr) (seed_digest fr) (digest1 fr)
    (key1 fr) (imgkeydata fr) (seed fr).
Definition set_world (fr : Frame) (v : World) : Frame :=
  mkFrame (obj fr) (file fr) v (failreason fr) (seed_digest fr) (digest1 fr)
    (key1 fr) (imgkeydata fr) (seed fr).
Definition set_failreason (fr : Frame) (v : string) : Frame :=
  mkFrame (obj fr) (file fr) (world fr) v (seed_digest fr) (digest1 fr)
    (key1 fr) (imgkeydata fr) (seed fr).
Definition set_seed_digest (fr : Frame) (v : list byte) : Frame :=
  mkFrame (obj fr) (file fr) (world fr) (failreason fr) v (digest1 fr)
    (key1 fr) (imgkeydata fr) (seed fr).
Definition set_digest1 (fr : Frame) (v : list (list byte)) : Frame :=
  mkFrame (obj fr) (file fr) (world fr) (failreason fr) (seed_digest fr) v
    (key1 fr) (imgkeydata fr) (seed fr).
Definition set_key1 (fr : Frame) (v : list (list byte)) : Frame :=
  mkFrame (obj fr) (file fr) (world fr) (failreason fr) (seed_digest fr)
    (digest1 fr) v (imgkeydata fr) (seed fr).
Definition set_imgkeydata (fr : Frame) (v : list byte) : Frame :=
  mkFrame (obj fr) (file fr) (world fr) (failreason fr) (seed_digest fr)
    (digest1 fr) (key1 fr) v (seed fr).
Definition set_seed (fr : Frame) (v : list byte) : Frame :=
  mkFrame (obj fr) (file fr) (world fr) (failreason fr) (seed_digest fr)
    (digest1 fr) (key1 fr) (imgkeydata fr) v.

(** The local arrays of [Extract] are declared without an initialiser: what
    they hold before the first read is the caller's [stack]. *)
Record Stack := mkStack {
  stack_seed_digest : list byte;
  stack_digest1 : list (list byte);
  stack_key1 : list (list byte);
  stack_imgkeydata : list byte;
  stack_seed : list byte
}.

Definition Stack_fill (b : byte) : Stack :=
  let arr n := repeat b (Z.to_nat n) in
  mkStack (arr 32) (repeat (arr 32) 7) (repeat (arr 256) 7) (arr 256) (arr 16).

(** [for (int i = 0; i < 7; i++) file.Read(arr[i]);] *)
Fixpoint read_arrays (count : nat) (sz : Z) (f : IOFile) (arrs : list (list byte))
  : list (list byte) * IOFile :=
  match count with
  | O => ([], f)
  | S k =>
      let '(a, f) := Read f sz (hd [] arrs) in
      let '(r, f) := read_arrays k sz f (tl arrs) in
      (a :: r, f)
  end.

(** The 64 bytes handed to SHA-256: the object representation of [entry],
    then [dk3_]. *)
Definition concatenated_ivkey_dk3 (entry : PKGEntry) (dk3 : list byte) : list byte :=
  PKGEntry_bytes entry ++ dk3.

Definition is_npdrm (i : Z) : bool :=
  (i =? 0x400) || (i =? 0x401) || (i =? 0x402) || (i =? 0x403).

Section Extract.
Variable P : Primitives.
Variable L : Layout.
Variable GetEntryNameByType : Z -> string.
Variable disk : string -> option (list byte).

  (** The [if (entry.id == 0x1) .. else if (entry.id == 0x10) ..] chain. *)
Definition derive_keys (fr : Frame) (entry : PKGEntry) : Frame :=
    let i := value (id entry) in
    if i =? 0x1 then fr
    else if i =? 0x10 then
      let '(_, f) := Seek (file fr) (value (offset entry)) in
      let '(sd, f) := Read f 32 (seed_digest fr) in
      let '(d1, f) := read_arrays 7 32 f (digest1 fr) in
      let '(k1, f) := read_arrays 7 256 f (key1 fr) in
      let dk3 := Crypto.RSA2048Decrypt P (dk3_ (obj fr)) (nth 3 k1 []) true in
      set_obj (set_key1 (set_digest1 (set_seed_digest (set_file fr f) sd) d1) k1)
        (set_dk3_ (obj fr) dk3)
    else if i =? 0x20 then
      let '(_, f) := Seek (file fr) (value (offset entry)) in
      let '(ikd, f) := Read f 256 (imgkeydata fr) in
      let buf := concatenated_ivkey_dk3 entry (dk3_ (obj fr)) in
      let ivk := Crypto.ivKeyHASH256 P buf (ivKey (obj fr)) in
      let imk := Crypto.aesCbcCfb128Decrypt P ivk ikd (imgKey (obj fr)) in
      let ek := Crypto.RSA2048Decrypt P (ekpfsKey (obj fr)) imk false in
      set_obj (set_imgkeydata (set_file fr f) ikd)
        (set_ekpfsKey (set_imgKey (set_ivKey (obj fr) ivk) imk) ek)
    else fr.

Definition seek_failed : string := "Failed to seek to PKG entry offset".

  (** Decrypt Np stuff and overwrite. *)
Definition decrypt_np (fr : Frame) (entry : PKGEntry) (data : list byte)
      (out : string) : flow Frame :=
    let fr := set_obj fr (set_decNp (obj fr)
                            (resize (value (size entry)) (decNp (obj fr)))) in
    let '(ok, f) := Seek (file fr) (value (offset entry)) in
    if negb ok then Return false (set_failreason fr seek_failed)
    else
      let fr := set_file fr f in
      let buf := concatenated_ivkey_dk3 entry (dk3_ (obj fr)) in
      let ivk := Crypto.ivKeyHASH256 P buf (ivKey (obj fr)) in
      let dec := Crypto.aesCbcCfb128DecryptEntry P ivk data (decNp (obj fr)) in
      let fr := set_obj fr (set_decNp (set_ivKey (obj fr) ivk) dec) in
      Continue (set_world fr (write_file out dec (world fr))).

  (** One iteration of the entry loop. *)
Definition Extract_entry (fr : Frame) : flow Frame :=
    let '(entry, f) := read_entry (file fr) in
    let fr := set_file fr f in
    let currentPos := Tell f in
    let name := GetEntryNameByType (value (id entry)) in
    let filepath := extract_path (obj fr) // "sce_sys" // name in
    let fr := set_world fr
                (create_directories (Path.parent_path filepath) (world fr)) in
    if String.eqb name "" then
      let out := extract_path (obj fr) // "sce_sys" // to_string (value (id entry)) in
      let fr := set_world fr (write_file out [] (world fr)) in
      let '(ok, f) := Seek (file fr) (value (offset entry)) in
      if negb ok then Return false (set_failreason fr seek_failed)
      else
        let '(got, f) := ReadRaw f (value (size entry)) in
        let data := store_into (value (size entry)) [] got in
        let fr := set_world fr (write_file out data (world fr)) in
        let '(_, f) := Seek f currentPos in
        Continue (set_file fr f)
    else
      let fr := derive_keys fr entry in
      let out := extract_path (obj fr) // "sce_sys" // name in
      let fr := set_world fr (write_file out [] (world fr)) in
      let '(ok, f) := Seek (file fr) (value (offset entry)) in
      if negb ok then Return false (set_failreason fr seek_failed)
      else
        let '(got, f) := ReadRaw f (value (size entry)) in
        let data := store_into (value (size entry)) [] got in
        let fr := set_world (set_file fr f) (write_file out data (world fr)) in
        if is_npdrm (value (id entry)) then
          match decrypt_np fr entry data out with
          | Continue fr =>
              let '(_, f) := Seek (file fr) currentPos in
              Continue (set_file fr f)
          | Return r fr => Return r fr
          end
        else
          let '(_, f) := Seek (file fr) currentPos in
          Continue (set_file fr f).

  (** [for (int i = 0; i < n_files; i++)] *)
Fixpoint Extract_entries (n : nat) (fr : Frame) : flow Frame :=
    match n with
    | O => Continue fr
    | S k =>
        match Extract_entry fr with
        | Continue fr' => Extract_entries k fr'
        | Return r fr' => Return r fr'
        end
    end.

  (** From the start of [Extract] to the seek to the entry table. *)
Definition Extract_header (self : PKG) (w : World) (filepath extract : string)
      (failreason : string) (stack : Stack) : flow Frame :=
    let self := set_pkgpath (set_extract_path self extract) filepath in
    let frame f :=
      mkFrame self f w failreason (stack_seed_digest stack) (stack_digest1 stack)
        (stack_key1 stack) (stack_imgkeydata stack) (stack_seed stack) in
    match disk filepath with
    | None => Return false (frame (IO.open []))
    | Some content =>
        let f := IO.open content in
        let self := set_pkgSize self (GetSize f) in
        let '(got, f) := ReadRaw f sizeof_PKGHeader in
        let hdr := store_into sizeof_PKGHeader (pkgheader self) got in
        let self := set_pkgheader self hdr in
        let fr := set_obj (frame f) self in
        if negb (magic hdr =? 0x7F434E54) then Return false fr
        else if pkgSize self <? pkg_size L hdr
        then Return false (set_failreason fr "PKG file size is different")
        else if pkg_size L hdr <? u64 (pkg_content_size L hdr + pkg_content_offset L hdr)
        then Return false (set_failreason fr "Content size is bigger than pkg size")
        else
          let '(ok, f) := Seek f (pkg_table_entry_offset L hdr) in
          if negb ok
          then Return false (set_failreason fr "Failed to seek to PKG table entry offset")
          else Continue (set_file fr f)
    end.

End Extract.

(** ** [GetPFSCOffset] *)

Definition PfscMagic : Z := 0x43534650.

(** [for (u32 i = ..; i < size; i += 0x10000)]: the counter wraps at 2^32. *)
Fixpoint GetPFSCOffset_from (fuel : nat) (pfs_image : list byte) (size i : Z)
  : outcome Z :=
  match fuel with
  | O => OutOfFuel
  | S k =>
      if i <? size then
        if in_bounds i 4 pfs_image then
          if le_at i 4 pfs_image =? PfscMagic then Normal i
          else GetPFSCOffset_from k pfs_image size (u32 (i + 0x10000))
        else Undefined "GetPFSCOffset: read outside pfs_image"
      else Normal (u32 (-1))
  end.

Definition GetPFSCOffset (fuel : nat) (pfs_image : list byte) (size : Z) : outcome Z :=
  GetPFSCOffset_from fuel pfs_image size 0x20000.

(** ** [PKG::Extract]: keys of the PFS, PFSC and sector map *)

Section ExtractPfs.
Variable P : Primitives.
Variable L : Layout.

  (** Read the seed; get data and tweak keys. *)
Definition Extract_pfs_keys (fr : Frame) : flow Frame :=
    let hdr := pkgheader (obj fr) in
    let '(ok, f) := Seek (file fr) (s64 (u64 (pfs_image_offset L hdr + 0x370))) in
    if negb ok
    then Return false (set_failreason fr "Failed to seek to PFS image offset")
    else
      let '(sd, f) := Read f 16 (seed fr) in
      let '(dk, tk) := Crypto.PfsGenCryptoKey P (ekpfsKey (obj fr)) sd
                         (dataKey (obj fr)) (tweakKey (obj fr)) in
      Continue (set_obj (set_seed (set_file fr f) sd)
                  (set_tweakKey (set_dataKey (obj fr) dk) tk)).

  (** [const u32 length = pkgheader.pfs_cache_size * 0x2;] *)
Definition pfs_length (hdr : list byte) : Z := u32 (pfs_cache_size L hdr * 2).

  (** [memcpy(&sectorMap[i], pfsc.data() + pfsChdr.block_offsets + i * 8, 8)]
      for [i] from [i0] on, [count] times. *)
Fixpoint read_sectorMap (count : nat) (i : Z) (pfsc : list byte)
      (block_offsets : Z) : outcome (list Z) :=
    match count with
    | O => Normal []
    | S k =>
        if in_bounds (block_offsets + i * 8) 8 pfsc then
          bind (read_sectorMap k (i + 1) pfsc block_offsets)
            (fun r => Normal (le_at (block_offsets + i * 8) 8 pfsc :: r))
        else Undefined "sector map outside the PFSC buffer"
    end.

  (** The body of [if (length != 0)]: the object, [num_blocks] and [pfsc]. *)
Definition load_pfsc (fuel : nat) (fr : Frame) (length : Z)
    : outcome (Frame * Z * list byte) :=
    let hdr := pkgheader (obj fr) in
    let '(_, f) := Seek (file fr) (s64 (pfs_image_offset L hdr)) in
    let '(pfs_encrypted, f) := Read f length (zeros length) in
    let fr := set_file fr f in
    let pfs_decrypted :=
      Crypto.decryptPFS P (dataKey (obj fr)) (tweakKey (obj fr)) pfs_encrypted
        (zeros length) 0 in
    bind (GetPFSCOffset fuel pfs_decrypted (Z.of_nat (List.length pfs_decrypted)))
      (fun off =>
         let fr := set_obj fr (set_pfsc_offset (obj fr) off) in
         let n := u32 (length - off) in
         if negb (in_bounds off n pfs_decrypted && (n <=? length))
         then Undefined "memcpy of the PFSC outside pfs_decrypted"
         else
           let pfsc := store_into length (zeros length) (slice off n pfs_decrypted) in
           if negb (in_bounds 0 (sizeof_PFSCHdr L) pfsc)
           then Undefined "PFSCHdr outside the PFSC buffer"
           else
             let data_length := s64 (le_at (ofs_data_length L) 8 pfsc) in
             let block_sz2 := s64 (le_at (ofs_block_sz2 L) 8 pfsc) in
             let block_offsets := s64 (le_at (ofs_block_offsets L) 8 pfsc) in
             if block_sz2 =? 0 then Undefined "division by zero"
             else
               let num_blocks := s32 (Z.quot data_length block_sz2) in
               let count := s32 (num_blocks + 1) in
               if count <? 0 then Throws "sectorMap.resize"
               else
                 bind (read_sectorMap (Z.to_nat count) 0 pfsc block_offsets)
                   (fun sm =>
                      Normal (set_obj fr (set_sectorMap (obj fr) sm),
                              num_blocks, pfsc))).

End ExtractPfs.

(** ** [PKG::Extract]: inodes and dirents *)

(** The four [s32] fields of the [Dirent] at offset [i] of a block. The
    source copies [sizeof(Dirent)] bytes; the model asks only that the fields
    the walker uses lie inside the block. *)
Definition read_dirent (block : list byte) (i : Z) : option Dirent :=
  if in_bounds i 16 block
  then Some (mkDirent (s32 (le_at i 4 block)) (s32 (le_at (i + 4) 4 block))
               (s32 (le_at (i + 8) 4 block)) (s32 (le_at (i + 12) 4 block)))
  else None.

(** The locals of the block loop, with the object and the output. *)
Record Walk := mkWalk {
  w_obj : PKG;
  w_world : World;
  ent_size : Z;
  ndinode : Z;
  ndinode_counter : Z;
  dinode_reached : bool;
  uroot_reached : bool;
  decompressedData : list byte
}.

Definition set_w_obj (wk : Walk) (v : PKG) : Walk :=
  mkWalk v (w_world wk) (ent_size wk) (ndinode wk) (ndinode_counter wk)
    (dinode_reached wk) (uroot_reached wk) (decompressedData wk).
Definition set_w_world (wk : Walk) (v : World) : Walk :=
  mkWalk (w_obj wk) v (ent_size wk) (ndinode wk) (ndinode_counter wk)
    (dinode_reached wk) (uroot_reached wk) (decompressedData wk).
Definition set_ent_size (wk : Walk) (v : Z) : Walk :=
  mkWalk (w_obj wk) (w_world wk) v (ndinode wk) (ndinode_counter wk)
    (dinode_reached wk) (uroot_reached wk) (decompressedData wk).
Definition set_ndinode (wk : Walk) (v : Z) : Walk :=
  mkWalk (w_obj wk) (w_world wk) (ent_size wk) v (ndinode_counter wk)
    (dinode_reached wk) (uroot_reached wk) (decompressedData wk).
Definition set_ndinode_counter (wk : Walk) (v : Z) : Walk :=
  mkWalk (w_obj wk) (w_world wk) (ent_size wk) (ndinode wk) v
    (dinode_reached wk) (uroot_reached wk) (decompressedData wk).
Definition set_dinode_reached (wk : Walk) (v : bool) : Walk :=
  mkWalk (w_obj wk) (w_world wk) (ent_size wk) (ndinode wk)
    (ndinode_counter wk) v (uroot_reached wk) (decompressedData wk).
Definition set_uroot_reached (wk : Walk) (v : bool) : Walk :=
  mkWalk (w_obj wk) (w_world wk) (ent_size wk) (ndinode wk)
    (ndinode_counter wk) (dinode_reached wk) v (decompressedData wk).
Definition set_decompressedData (wk : Walk) (v : list byte) : Walk :=
  mkWalk (w_obj wk) (w_world wk) (ent_size wk) (ndinode wk)
    (ndinode_counter wk) (dinode_reached wk) (uroot_reached wk) v.

Section Walker.
Variable P : Primitives.
Variable L : Layout.

  (** [for (int p = 0; p < 0x10000; p += 0xA8)]: at most [n] inodes from
      offset [p] on, up to the first one whose [Mode] is 0. *)
Fixpoint read_inodes (n : nat) (p : Z) (block : list byte) (acc : list Inode)
    : outcome (list Inode) :=
    match n with
    | O => Normal acc
    | S k =>
        if p <? 0x10000 then
          if in_bounds (p + ofs_Mode L) 2 block then
            if le_at (p + ofs_Mode L) 2 block =? 0 then Normal acc
            else if in_bounds p sizeof_Inode block then
              let node :=
                mkInode (le_at (p + ofs_Mode L) 2 block)
                  (s64 (le_at (p + ofs_Size L) 8 block))
                  (le_at (p + ofs_Blocks L) 4 block)
                  (le_at (p + ofs_loc L) 4 block) in
              read_inodes k (p + sizeof_Inode) block (acc ++ [node])
            else Undefined "inode outside the block"
          else Undefined "inode outside the block"
        else Normal acc
    end.

  (** Where the tree of the PFS goes. *)
Definition uroot_path (self : PKG) : string :=
    let parent_path := Path.parent_path (extract_path self) in
    let title_id := GetTitleID self in
    if negb (String.eqb (Path.filename parent_path) title_id)
       && negb (Path.ends_with (extract_path self) "-UPDATE")
    then parent_path // title_id
    else extract_path self.

  (** [for (int i = 0; i < 0x10000; i += ent_size)] of the uroot block. *)
Fixpoint uroot_loop (fuel : nat) (i : Z) (wk : Walk) : outcome Walk :=
    match fuel with
    | O => OutOfFuel
    | S k =>
        if i <? 0x10000 then
          match read_dirent (decompressedData wk) i with
          | None => Undefined "dirent outside the block"
          | Some dirent =>
              let wk := set_ent_size wk (u32 (entsize dirent)) in
              if negb (ino dirent =? 0) then
                let wk := set_ndinode_counter wk (s32 (ndinode_counter wk + 1)) in
                uroot_loop k (s32 (i + ent_size wk)) wk
              else
                let self := w_obj wk in
                let self :=
                  set_extractPaths self
                    (<[ ndinode_counter wk := uroot_path self ]> (extractPaths self)) in
                Normal (set_uroot_reached (set_w_obj wk self) false)
          end
        else Normal wk
    end.

  (** The body of the dirent loop after [ent_size = dirent.entsize]: one row
      of the file table, its path, its directory. *)
Definition add_dirent (wk : Walk) (dirent : Dirent) (nm : string)
      (end_reached : bool) : Walk * bool :=
    let self := w_obj wk in
    let table := mkFSTableEntry nm (u32 (ino dirent)) (u32 (type dirent)) in
    let self := set_fsTable self (fsTable self ++ [table]) in
    let key := s32 (inode table) in
    let self :=
      if type_ table =? PFS_CURRENT_DIR
      then set_current_dir self (default ""%string (extractPaths self !! key))
      else self in
    let path := extract_path self // (current_dir self // nm) in
    let self := set_extractPaths self (<[ key := path ]> (extractPaths self)) in
    let wk := set_w_obj wk self in
    if (type_ table =? PFS_FILE) || (type_ table =? PFS_DIR) then
      let wk :=
        if type_ table =? PFS_DIR
        then set_w_world wk (create_directories path (w_world wk))
        else wk in
      let wk := set_ndinode_counter wk (s32 (ndinode_counter wk + 1)) in
      (wk, if u32 (ndinode_counter wk + 1) =? ndinode wk then true else end_reached)
    else (wk, end_reached).

  (** [for (int j = 0; j < 0x10000; j += ent_size)] of a dirent block. *)
Fixpoint dirent_loop (fuel : nat) (j : Z) (end_reached : bool) (wk : Walk)
    : outcome (Walk * bool) :=
    match fuel with
    | O => OutOfFuel
    | S k =>
        if j <? 0x10000 then
          match read_dirent (decompressedData wk) j with
          | None => Undefined "dirent outside the block"
          | Some dirent =>
              if ino dirent =? 0 then Normal (wk, end_reached)
              else
                let wk := set_ent_size wk (u32 (entsize dirent)) in
                if namelen dirent <? 0 then Throws "std::string"
                else if negb (in_bounds (j + 16) (namelen dirent) (decompressedData wk))
                then Undefined "dirent name outside the block"
                else
                  let nm := string_of_list_byte
                              (slice (j + 16) (namelen dirent) (decompressedData wk)) in
                  let '(wk, end_reached) := add_dirent wk dirent nm end_reached in
                  dirent_loop k (s32 (j + ent_size wk)) end_reached wk
          end
        else Normal (wk, end_reached)
    end.

  (** How many blocks(0x10000) are taken by iNodes. *)
Definition occupied_blocks (ndinode : Z) : Z :=
    let n := u32 (ndinode * 0xA8) in
    if negb (n mod 0x10000 =? 0) then n / 0x10000 + 1 else n / 0x10000.

  (** One iteration of [for (int i = 0; i < num_blocks; i++)]; the boolean
      is [end_reached]. *)
Definition walk_block (fuel : nat) (i : Z) (pfsc : list byte) (wk : Walk)
    : outcome (Walk * bool) :=
    let sm := sectorMap (w_obj wk) in
    let sectorOffset := nth (Z.to_nat i) sm 0 in
    let sectorSize := u64 (nth (Z.to_nat (i + 1)) sm 0 - sectorOffset) in
    if negb (in_bounds sectorOffset sectorSize pfsc)
    then Undefined "sector outside the PFSC buffer"
    else
      let compressedData := slice sectorOffset sectorSize pfsc in
      let wk :=
        if sectorSize =? 0x10000
        then set_decompressedData wk
               (store_into 0x10000 (decompressedData wk) compressedData)
        else if sectorSize <? 0x10000
        then set_decompressedData wk
               (DecompressPFSC P compressedData (decompressedData wk))
        else wk in
      let block := decompressedData wk in
      let wk := if i =? 0 then set_ndinode wk (le_at 0x30 4 block) else wk in
      bind
        (if (1 <=? i) && (i <=? occupied_blocks (ndinode wk))
         then read_inodes 391 0 block (iNodeBuf (w_obj wk))
         else Normal (iNodeBuf (w_obj wk)))
        (fun nodes =>
           let wk := set_w_obj wk (set_iNodeBuf (w_obj wk) nodes) in
           let wk :=
             if String.eqb (string_of_list_byte (slice 0x10 15 block))
                  "flat_path_table"
             then set_uroot_reached wk true else wk in
           bind (if uroot_reached wk then uroot_loop fuel 0 wk else Normal wk)
             (fun wk =>
                let wk :=
                  if String.eqb (string_of_list_byte (slice 0x10 1 block)) "."
                     && String.eqb (string_of_list_byte (slice 0x28 2 block)) ".."
                  then set_dinode_reached wk true else wk in
                if dinode_reached wk then dirent_loop fuel 0 false wk
                else Normal (wk, false))).

  (** The block loop from block [i] on, [n] blocks at most; it stops early
      when a dirent block sets [end_reached]. *)
Fixpoint walk_blocks (fuel : nat) (n : nat) (i : Z) (pfsc : list byte)
      (wk : Walk) : outcome Walk :=
    match n with
    | O => Normal wk
    | S k =>
        bind (walk_block fuel i pfsc wk)
          (fun '(wk, end_reached) =>
             if end_reached : bool then Normal wk
             else walk_blocks fuel k (i + 1) pfsc wk)
    end.

  (** [Extract] from [const u32 length = ..] to its end. *)
Definition Extract_pfs (fuel : nat) (fr : Frame) : outcome (bool * Frame) :=
    let length := pfs_length L (pkgheader (obj fr)) in
    bind (if negb (length =? 0) then load_pfsc P L fuel fr length
          else Normal (fr, 0, zeros length))
      (fun '(fr, num_blocks, pfsc) =>
         let wk := mkWalk (obj fr) (world fr) 0 0 0 false false (zeros 0x10000) in
         bind (walk_blocks fuel (Z.to_nat num_blocks) 0 pfsc wk)
           (fun wk => Normal (true, set_world (set_obj fr (w_obj wk)) (w_world wk)))).

End Walker.

(** ** [PKG::Extract] *)

Section ExtractAll.
Variable P : Primitives.
Variable L : Layout.
Variable GetEntryNameByType : Z -> string.
Variable disk : string -> option (list byte).

  (** The result, and the frame with the object, the output directory and
      [failreason] as [Extract] leaves them. *)
Definition Extract (fuel : nat) (self : PKG) (w : World)
      (filepath extract failreason : string) (stack : Stack)
    : outcome (bool * Frame) :=
    match Extract_header L disk self w filepath extract failreason stack with
    | Return r fr => Normal (r, fr)
    | Continue fr =>
        let n_files := pkg_table_entry_count L (pkgheader (obj fr)) in
        match Extract_entries P GetEntryNameByType (Z.to_nat n_files) fr with
        | Return r fr => Normal (r, fr)
        | Continue fr =>
            match Extract_pfs_keys P L fr with
            | Return r fr => Normal (r, fr)
            | Continue fr => Extract_pfs P L fuel fr
            end
        end
    end.

End ExtractAll.

(** ** [PKG::ExtractFiles] *)

(** The locals of the block loop of [ExtractFiles]; [inflated] is what has
    been written to the output file so far. *)
Record Blocks_ := mkBlocks {
  pkgFile : IOFile;
  pfsc_buf : list byte;
  pfs_decrypted : list byte;
  decompressed : list byte;
  size_decompressed : Z;
  inflated : list byte
}.

Section ExtractFiles.
Variable P : Primitives.
Variable L : Layout.
Variable disk : string -> option (list byte).

  (** One iteration of [for (int j = 0; j < nblocks; j++)]. *)
Definition ExtractFiles_block (self : PKG) (sector_loc nblocks bsize j : Z)
      (st : Blocks_) : outcome Blocks_ :=
    let sm := sectorMap self in
    let idx := s32 (sector_loc + j) in
    let idx1 := s32 (sector_loc + j + 1) in
    if negb ((0 <=? idx) && (idx <? Z.of_nat (length sm))
             && (0 <=? idx1) && (idx1 <? Z.of_nat (length sm)))
    then Undefined "sectorMap index out of range"
    else
      let sectorOffset := nth (Z.to_nat idx) sm 0 in
      let sectorSize := u64 (nth (Z.to_nat idx1) sm 0 - sectorOffset) in
      let fileOffset :=
        u64 (pfs_image_offset L (pkgheader self) + pfsc_offset self + sectorOffset) in
      let currentSector1 := u64 (pfsc_offset self + sectorOffset) / 0x1000 in
      let sectorOffsetMask :=
        s32 (Z.land (u64 (sectorOffset + pfsc_offset self)) 0xFFFFF000) in
      let previousData :=
        s32 (u64 (u64 (sectorOffset + pfsc_offset self) - sectorOffsetMask)) in
      let '(_, f) := Seek (pkgFile st) (s64 (u64 (fileOffset - previousData))) in
      let '(pfsc, f) := Read f 0x11000 (pfsc_buf st) in
      let dec :=
        Crypto.decryptPFS P (dataKey self) (tweakKey self) pfsc (pfs_decrypted st)
          currentSector1 in
      if negb (in_bounds previousData sectorSize dec)
      then Undefined "sector outside pfs_decrypted"
      else
        let compressedData := slice previousData sectorSize dec in
        let decompressedData :=
          if sectorSize =? 0x10000
          then store_into 0x10000 (decompressed st) compressedData
          else if sectorSize <? 0x10000
          then DecompressPFSC P compressedData (decompressed st)
          else decompressed st in
        let size_dec := s32 (size_decompressed st + 0x10000) in
        let bufsize := Z.of_nat (length decompressedData) in
        let write_size :=
          if j <? s32 (nblocks - 1) then bufsize
          else u32 (u64 (bufsize - s32 (size_dec - bsize))) in
        if bufsize <? write_size
        then Undefined "write past decompressedData"
        else
          Normal (mkBlocks f pfsc dec decompressedData size_dec
                    (inflated st ++ firstn (Z.to_nat write_size) decompressedData)).

Fixpoint ExtractFiles_blocks (n : nat) (self : PKG)
      (sector_loc nblocks bsize j : Z) (st : Blocks_) : outcome Blocks_ :=
    match n with
    | O => Normal st
    | S k =>
        bind (ExtractFiles_block self sector_loc nblocks bsize j st)
          (fun st => ExtractFiles_blocks k self sector_loc nblocks bsize (j + 1) st)
    end.

  (** [create_directories] inside [try { } catch]: the empty path throws and
      the exception is dropped. *)
Definition try_create_directories (p : string) (w : World) : World :=
    if String.eqb p "" then w else create_directories p w.

  (** The first [PKGEntry] of [pkgEntries] whose id is [i]. *)
Definition find_entry (entries : list PKGEntry) (i : Z) : option PKGEntry :=
    List.find (fun entry => value (id entry) =? i) entries.

Definition ExtractFiles (self : PKG) (w : World) (index : Z)
    : outcome (PKG * World) :=
    match (if index <? 0 then None else nth_error (fsTable self) (Z.to_nat index)) with
    | None => Undefined "fsTable index out of range"
    | Some t =>
        let inode_number := s32 (inode t) in
        let inode_type := s32 (type_ t) in
        let inode_name := name t in
        if inode_type =? PFS_FILE then
          (* extractPaths[inode_number] inserts the empty path for a new key *)
          let path := default ""%string (extractPaths self !! inode_number) in
          let self := set_extractPaths self (<[ inode_number := path ]> (extractPaths self)) in
          let w := try_create_directories (Path.parent_path path) w in
          match (if inode_number <? 0 then None
                 else nth_error (iNodeBuf self) (Z.to_nat inode_number)) with
          | None => Undefined "iNodeBuf index out of range"
          | Some node =>
              let sector_loc := s32 (loc node) in
              let nblocks := s32 (Blocks node) in
              let bsize := s32 (Size node) in
              let w := write_file path [] w in
              let pkg := IO.open (default [] (disk (pkgpath self))) in
              let st := mkBlocks pkg (zeros 0x11000) (zeros 0x11000)
                          (zeros 0x10000) 0 [] in
              bind (ExtractFiles_blocks (Z.to_nat nblocks) self sector_loc nblocks
                      bsize 0 st)
                (fun st => Normal (self, write_file path (inflated st) w))
          end
        else if String.eqb inode_name "" then
          let outpath :=
            extract_path self // ("entry_0x" ++ hex inode_number ++ ".bin")%string in
          let w := try_create_directories (Path.parent_path outpath) w in
          match find_entry (pkgEntries self) (u32 inode_number) with
          | Some entry =>
              let pkg := IO.open (default [] (disk (pkgpath self))) in
              let '(_, pkg) := Seek pkg (value (offset entry)) in
              let '(got, pkg) := ReadRaw pkg (value (size entry)) in
              let data := store_into (value (size entry)) [] got in
              Normal (self, write_file outpath data w)
          | None => Normal (self, w)
          end
        else Normal (self, w)
    end.

  (** [ExtractFiles] on the indices [i], [i + 1], .. of the file table, [n]
      of them: main.cpp's [for (u32 i = 0; i < pkg.GetNumberOfFiles(); ++i)
      pkg.ExtractFiles(i);], which is also what [ExtractAllFilesWithProgress]
      does with one worker. *)
Fixpoint ExtractFiles_from (n : nat) (i : Z) (self : PKG) (w : World)
    : outcome (PKG * World) :=
    match n with
    | O => Normal (self, w)
    | S k =>
        bind (ExtractFiles self w i)
          (fun '(self, w) => ExtractFiles_from k (i + 1) self w)
    end.

Definition ExtractAllFiles (self : PKG) (w : World) : outcome (PKG * World) :=
    ExtractFiles_from (length (fsTable self)) 0 self w.

End ExtractFiles.

(** ** [main] *)

Section Main.
Variable P : Primitives.
Variable L : Layout.
Variable GetEntryNameByType : Z -> string.
Variable disk : string -> option (list byte).

(** main.cpp on [<program> pkg_path out_dir]: [Open], [Extract], then
    [ExtractFiles] on every row of the file table; the exit code and the
    output directory. [pkg] is the object as [PKG pkg;] leaves it. *)
Definition main (fuel : nat) (pkg_path out_dir : string) (pkg : PKG)
    (stack : Stack) (w : World) : outcome (Z * World) :=
  let '(ok, pkg, failreason) := Open L GetEntryNameByType disk pkg pkg_path "" in
  if negb ok then Normal (1, w)
  else
    bind (Extract P L GetEntryNameByType disk fuel pkg w pkg_path out_dir
            failreason stack)
      (fun '(ok, fr) =>
         if negb ok then Normal (1, world fr)
         else
           bind (ExtractAllFiles P L disk (obj fr) (world fr))
             (fun '(_, w) => Normal (0, w))).

End Main.

(** ** Sample collaborators and sample packages *)

Module Sample.

  (** Stand-ins for the external primitives: total functions with the right
      output sizes, good for running the model on a concrete package. The
      theorems below hold for every [Primitives]. *)
Definition digest (m : list byte) : byte :=
    byte_of_Z (fold_right (fun b acc => byte_to_Z b + acc) 0 m).

Definition primitives : Primitives :=
    mkPrimitives
      (fun m => repeat (digest m) 32)
      (fun key iv ciphertext => ciphertext)
      (fun keyset ciphertext => firstn 32 ciphertext)
      (fun key m => repeat (digest (key ++ m)) 32)
      (fun dataKey tweakKey sector data => data)
      (fun compressed => compressed).

  (** The field offsets of the PS4 package and PFS formats. *)
Definition layout : Layout :=
    mkLayout 0x10 0x18 0x30 0x38 0x410 0x430 0x43C
             0x30 0x10 0x18 0x28
             0x00 0x08 0x60 0x64.

  (** The entry names HOWWORKS.md mentions; every other id has none. *)
Definition names (i : Z) : string :=
    if i =? 0x10 then "entry_keys"
    else if i =? 0x20 then "image_key"
    else if i =? 0x200 then "entry_names"
    else if i =? 0x1000 then "param.sfo"
    else "".

  (** [patch off data buf]: [buf] with [data] written at [off]. *)
Definition patch (off : Z) (data buf : list byte) : list byte :=
    firstn (Z.to_nat off) buf ++ data
      ++ skipn (Z.to_nat off + length data) buf.

  (** One slot of the entry table. *)
Definition slot (i ofs sz : Z) (reserved : list byte) : list byte :=
    be_encode 4 i ++ zeros 12 ++ be_encode 4 ofs ++ be_encode 4 sz ++ reserved.

  (** A package of [total] bytes: a valid header, [cache] as
      [pfs_cache_size], the PFS image at [image], and the entry table
      [table] at 0x1000. *)
Definition package (total cache image : Z) (table : list (list byte))
    : list byte :=
    patch 0x1000 (concat table)
      (patch 0x43C (be_encode 4 cache)
         (patch 0x430 (be_encode 8 total)
            (patch 0x410 (be_encode 8 image)
               (patch 0x18 (be_encode 4 0x1000)
                  (patch 0x10 (be_encode 4 (Z.of_nat (length table)))
                     (patch 0 (be_encode 4 0x7F434E54) (zeros total))))))).

  (** A disk that holds one file, "game.pkg". *)
Definition disk_with (content : list byte) (path : string) : option (list byte) :=
    if String.eqb path "game.pkg" then Some content else None.

Definition empty_world : World := mkWorld ∅ ∅.

  (** [Extract] on "game.pkg" into "out", up to the entry table. *)
Definition header_of (content : list byte) : Frame :=
    flow_frame
      (Extract_header layout (disk_with content) (PKG_new x00) empty_world
         "game.pkg" "out" "" (Stack_fill x00)).


  (** Three entries: the image key, the entry keys, and one without a name. *)
Definition pkg_three : list byte :=
    package 0x1400 0 0
      [slot 0x20 0x1100 256 (zeros 8); slot 0x10 0x1200 0x100 (zeros 8);
       slot 0xDEADBEEF 0x1300 17 (zeros 8)].

(** [Extract] on "game.pkg" into "out", as main.cpp calls it on a new object. *)
Definition extract_of (content : list byte) : outcome (bool * Frame) :=
  Extract primitives layout names (disk_with content) 16 (PKG_new x00)
    empty_world "game.pkg" "out" "" (Stack_fill x00).

(** The result and the [failreason] of a run. *)
Definition summary (o : outcome (bool * Frame)) : outcome (bool * string) :=
  bind o (fun '(b, fr) => Normal (b, failreason fr)).

Definition frame_of (o : outcome (bool * Frame)) : Frame :=
  match o with
  | Normal (_, fr) => fr
  | _ => header_of []
  end.

(** The ids of the entry table, in the order of the file, as [Open] reads
    them. *)
Definition table_ids (content : list byte) : list Z :=
  let '(_, self, _) :=
    Open layout names (disk_with content) (PKG_new x00) "game.pkg" "" in
  map (fun entry => value (id entry)) (pkgEntries self).

(** The image key comes before the entry keys; no PFS. *)
Definition pkg_swapped : list byte :=
  package 0x1400 0 0
    [slot 0x20 0x1100 256 (zeros 8); slot 0x10 0x1200 0x100 (zeros 8)].

(** The payload of the only entry lies past the end of the file. *)
Definition pkg_bad_offset : list byte :=
  package 0x1400 0 0 [slot 0x10 0x2000 16 (zeros 8)].

(** One entry, of an id without a name, with a payload of 17 bytes. *)
Definition payload17 : list byte := list_byte_of_string "seventeen bytes!!".

Definition pkg_unknown : list byte :=
  patch 0x1300 payload17
    (package 0x1400 0 0 [slot 0xDEADBEEF 0x1300 17 (zeros 8)]).

(** [main] on "game.pkg" and "out": the exit code and what two paths hold
    afterwards. *)
Definition main_of (content : list byte) (p1 p2 : string)
  : outcome (Z * option (list byte) * option (list byte)) :=
  bind (main primitives layout names (disk_with content) 16 "game.pkg" "out"
          (PKG_new x00) (Stack_fill x00) empty_world)
    (fun '(code, w) => Normal (code, files w !! p1, files w !! p2)).

(** No entry, and a PFS head of 0x30000 bytes without the PFSC magic: with
    the sample primitives the head decrypts to the file itself, then zeros. *)
Definition pkg_no_pfsc : list byte := package 0x1400 0x18000 0 [].

Definition head_no_pfsc : list byte :=
  Crypto.decryptPFS primitives (repeat x01 16) (repeat x01 16)
    (store_into 0x30000 (zeros 0x30000) pkg_no_pfsc) (zeros 0x30000) 0.

(** Is the PFSC magic at one of the offsets 0x20000, 0x30000, .. below
    [size]? *)
Definition magic_at_stride (fuel : nat) (image : list byte) (size : Z) : bool :=
  existsb (fun k => let i := 0x20000 + 0x10000 * Z.of_nat k in
                    (i <? size) && (le_at i 4 image =? PfscMagic))
    (seq 0 fuel).

End Sample.

(** ** What [Extract] may touch *)

(** The members of the object that hold no key material. *)
Definition outside_keys (self : PKG) :=
  (pkgheader self, pkgSize self, pkgTitleID self, pkgEntries self, sfo self,
   extract_path self, pkgpath self, pfsc_offset self, sectorMap self,
   iNodeBuf self, fsTable self, extractPaths self, current_dir self).

(** The members that describe the PFS. *)
Definition pfs_members (self : PKG) :=
  (pfsc_offset self, sectorMap self, iNodeBuf self, fsTable self,
   extractPaths self, current_dir self).

(** [w'] differs from [w] only below [extract]/sce_sys. *)
Definition sce_sys_only (extract : string) (w w' : World) : Prop :=
  (forall p, files w' !! p = files w !! p
             \/ exists s, p = extract // "sce_sys" // s)
  /\ (forall d, d ∈ dirs w' ->
        d ∈ dirs w \/ exists s, d = Path.parent_path (extract // "sce_sys" // s)).

(** The messages [Extract] leaves in [failreason]. *)
Definition header_failures : list string :=
  ["PKG file size is different"; "Content size is bigger than pkg size";
   "Failed to seek to PKG table entry offset"]%string.

Definition pfs_seek_failed : string := "Failed to seek to PFS image offset".

(** ** The dirents a block loop reaches *)

(** The offsets at which the two dirent loops read a dirent of [block]: they
    start at 0 and, from a dirent whose [ino] is not 0, go on by its
    [entsize]. *)
Inductive reached (block : list byte) : Z -> Prop :=
| reached_first : reached block 0
| reached_next (i : Z) (d : Dirent) :
    reached block i -> i < 0x10000 -> read_dirent block i = Some d ->
    ino d <> 0 -> reached block (s32 (i + u32 (entsize d))).

Definition positive_strides (block : list byte) : Prop :=
  forall i d, reached block i -> read_dirent block i = Some d ->
              ino d <> 0 -> 0 < entsize d.

(** A loop that is out of fuel whatever fuel it gets. *)
Definition runs_forever {A : Type} (loop : nat -> outcome A) : Prop :=
  forall fuel, loop fuel = OutOfFuel.

(** The locals of the block loop on entry, over [block]. *)
Definition walk_over (block : list byte) : Walk :=
  mkWalk (PKG_new x00) Sample.empty_world 0 0 0 false false block.

(** A block whose first dirent has [ino = 1] and [entsize = 0]. *)
Definition block_stride_0 : list byte := Sample.patch 0 [x01] (zeros 0x10000).

(** A block with the dirent "." (ino 1, type 4, namelen 1, entsize 0x18),
    then nothing. *)
Definition block_dot : list byte :=
  Sample.patch 0
    (le_encode 4 1 ++ le_encode 4 4 ++ le_encode 4 1 ++ le_encode 4 0x18
       ++ list_byte_of_string ".")
    (zeros 0x10000).

(** ** The key chain at the image key *)






(** ** The sizes [ExtractFiles] writes *)


(** An object with one file, "out/a.bin": inode 1, two blocks stored raw, a
    size of 0x10005 bytes. *)
Definition pkg_one_file : PKG :=
  set_extractPaths
    (set_sectorMap
       (set_iNodeBuf
          (set_fsTable (PKG_new x00) [mkFSTableEntry "a.bin" 1 PFS_FILE])
          [mkInode 0 0 0 0; mkInode 0x8000 0x10005 2 0])
       [0; 0x10000; 0x20000])
    (<[ 1 := "out/a.bin"%string ]> ∅).

(** What the block loop of [ExtractFiles] keeps true of its locals before
    block [j]. *)
Definition block_inv (j : Z) (st : Blocks_) : Prop :=
  length (decompressed st) = Z.to_nat 0x10000
  /\ length (pfs_decrypted st) = Z.to_nat 0x11000
  /\ u32 (size_decompressed st) = u32 (0x10000 * j).

(** ** [PKG::ExtractAllFilesWithProgress] *)

(** [for (size_t i = start; i < end; ++i)]: the indices one worker is given. *)
Definition worker_range (start stop : Z) : list Z := seqZ start (stop - start).

(** One iteration of [for (size_t t = 0; t < max_threads; ++t)]: the worker
    that is started, if any. *)
Definition spawn (num_files batch t : Z) : list (list Z) :=
  let start := u64 (t * batch) in
  let stop := Z.min num_files (u64 (start + batch)) in
  if start <? stop then [worker_range start stop] else [].

(** The workers, in the order they are started, each with its indices. *)
Definition workers (num_files max_threads : Z) : list (list Z) :=
  let batch := u64 (num_files + max_threads - 1) / max_threads in
  concat (map (spawn num_files batch) (seqZ 0 max_threads)).

(** The order in which the calls of [ExtractFiles] happen. The workers run
    side by side, each through its own indices in order; [picks] names the
    worker that makes the next call, a pick of a worker that is done or was
    never started counts for nothing, and [th.join()] on every worker lets
    those that are left run to their end. A call of [ExtractFiles] is taken
    as one step. *)
Fixpoint interleave (picks : list nat) (queues : list (list Z)) : list Z :=
  match picks with
  | [] => concat queues
  | t :: picks =>
      match queues !! t with
      | Some (i :: q) => i :: interleave picks (<[ t := q ]> queues)
      | _ => interleave picks queues
      end
  end.

Section Workers.
Variable P : Primitives.
Variable L : Layout.
Variable disk : string -> option (list byte).



End Workers.







Section Plans.
Variable P : Primitives.
Variable L : Layout.
Variable disk : string -> option (list byte).




End Plans.


(** A directory block with the dirents ".", "..", "a.bin" (ino 2) and
    "a.bin" (ino 3), each of 0x18 bytes: two files of one name. *)
Definition dirent_bytes (i t : Z) (nm : string) : list byte :=
  store_into 0x18 []
    (le_encode 4 i ++ le_encode 4 t ++ le_encode 4 (Z.of_nat (String.length nm))
       ++ le_encode 4 0x18 ++ list_byte_of_string nm).

Definition block_same_name : list byte :=
  Sample.patch 0
    (dirent_bytes 1 4 "." ++ dirent_bytes 1 5 ".." ++ dirent_bytes 2 2 "a.bin"
       ++ dirent_bytes 3 2 "a.bin")
    (zeros 0x10000).

(** The object that this block gives for the output directory "out", with
    inode 2 of 5 bytes in sector 0 and inode 3 of 3 bytes in sector 1, both
    sectors stored raw. *)
Definition pkg_same_path : PKG :=
  set_extractPaths
    (set_sectorMap
       (set_iNodeBuf
          (set_fsTable
             (set_pkgpath (set_extract_path (PKG_new x00) "out") "game.pkg")
             [mkFSTableEntry "." 1 4; mkFSTableEntry ".." 1 5;
              mkFSTableEntry "a.bin" 2 PFS_FILE; mkFSTableEntry "a.bin" 3 PFS_FILE])
          [mkInode 0x4000 0 0 0; mkInode 0x4000 0 0 0;
           mkInode 0x8000 5 1 0; mkInode 0x8000 3 1 1])
       [0; 0x10000; 0x20000])
    (<[ 3 := "out/a.bin"%string ]>
       (<[ 2 := "out/a.bin"%string ]> (<[ 1 := "out/.."%string ]> ∅))).

(** The same object with the second file at "out/b.bin". *)
Definition pkg_two_paths : PKG :=
  set_extractPaths pkg_same_path
    (<[ 3 := "out/b.bin"%string ]>
       (<[ 2 := "out/a.bin"%string ]> (<[ 1 := "out/.."%string ]> ∅))).

(** A package file whose sector 0 starts with "first" and whose sector 1
    starts with "2nd". *)
Definition two_sectors : list byte :=
  Sample.patch 0x10000 (list_byte_of_string "2nd")
    (Sample.patch 0 (list_byte_of_string "first") (zeros 0x20000)).

(** The file table and the paths the dirent loop leaves. *)
Definition table_and_paths (o : outcome (Walk * bool))
    : option (list FSTableEntry * gmap Z string) :=
  match o with
  | Normal (wk, _) => Some (fsTable (w_obj wk), extractPaths (w_obj wk))
  | _ => None
  end.

(** ** The offsets [GetPFSCOffset] looks at *)

(** The [k]-th offset the loop of [GetPFSCOffset] reads, as long as its
    [u32] counter has not wrapped. *)
Definition pfsc_stride (k : Z) : Z := 0x20000 + 0x10000 * k.

(** None of these offsets below [size] holds the PFSC magic. *)
Definition no_magic_below (img : list byte) (size : Z) : Prop :=
  forall k, 0 <= k -> pfsc_stride k < size ->
            le_at (pfsc_stride k) 4 img <> PfscMagic.

(** An image of zeros with the PFSC magic at [off]. *)
Definition image_with_magic (n off : Z) : list byte :=
  Sample.patch off (le_encode 4 PfscMagic) (zeros n).

(** ** [PKG::GetFileList], [PKG::GetAllEntries] *)



(** ** What [Open] finds in the file *)


(** The entry of the 32-byte slot at offset [p] of the file. *)
Definition entry_at (content : list byte) (p : Z) : PKGEntry :=
  mkEntry (slice p 4 content) (slice (p + 4) 4 content) (slice (p + 8) 4 content)
    (slice (p + 12) 4 content) (slice (p + 16) 4 content)
    (slice (p + 20) 4 content) (zeros 8).

(** The entries of the [n] slots from offset [p] on. *)
Definition table_at (content : list byte) (p : Z) (n : nat) : list PKGEntry :=
  map (fun i => entry_at content (p + 32 * Z.of_nat i)) (seq 0 n).

(** No entry of the list is called "param.sfo". *)
Definition no_param_sfo (names : Z -> string) (entries : list PKGEntry) : bool :=
  forallb (fun entry => negb (String.eqb (names (value (id entry))) "param.sfo"))
    entries.

(** The header as [file.Read(pkgheader)] leaves it. *)
Definition header_read (self : PKG) (content : list byte) : list byte :=
  store_into sizeof_PKGHeader (pkgheader self) (slice 0 sizeof_PKGHeader content).

(** The object of a result of [Open]. *)
Definition opened (r : bool * PKG * string) : PKG := snd (fst r).

(** A package of 0x1400 bytes whose table holds the image key and then
    "param.sfo", of 16 bytes at 0x1100. *)
Definition pkg_sfo_last : list byte :=
  Sample.patch 0x1100 (list_byte_of_string "sixteen-byte sfo")
    (Sample.package 0x1400 0 0
       [Sample.slot 0x20 0x1200 256 (zeros 8); Sample.slot 0x1000 0x1100 16 (zeros 8)]).

(** The same with "param.sfo" first: its payload ends at 0x1110. *)
Definition pkg_sfo_first : list byte :=
  Sample.patch 0x1100 (list_byte_of_string "sixteen-byte sfo")
    (Sample.package 0x1400 0 0
       [Sample.slot 0x1000 0x1100 16 (zeros 8); Sample.slot 0x20 0x1200 256 (zeros 8)]).

(** "param.sfo" with a payload past the end of the file. *)
Definition pkg_sfo_outside : list byte :=
  Sample.package 0x1400 0 0 [Sample.slot 0x1000 0x2000 16 (zeros 8)].

(** Where the header read by [Open] puts the entry table, and how many
    slots it announces. *)
Definition table_offset (L : Layout) (self : PKG) (content : list byte) : Z :=
  pkg_table_entry_offset L (header_read self content).

Definition table_count (L : Layout) (self : PKG) (content : list byte) : nat :=
  Z.to_nat (pkg_table_entry_count L (header_read self content)).

(** The entry of slot [k] of that table. *)
Definition slot_entry (L : Layout) (self : PKG) (content : list byte) (k : nat)
    : PKGEntry :=
  entry_at content (table_offset L self content + 32 * Z.of_nat k).


(** ** What the entry loop of [Extract] writes *)

(** The entry of the slot at which the file of [fr] stands. *)
Definition current_entry (fr : Frame) : PKGEntry :=
  entry_at (bytes (file fr)) (pos (file fr)).

(** The file of an entry below [extract]/sce_sys: its name, or its id in
    decimal when it has none. *)
Definition dump_path (names : Z -> string) (extract : string) (entry : PKGEntry)
    : string :=
  let name := names (value (id entry)) in
  extract // "sce_sys"
    // (if String.eqb name "" then to_string (value (id entry)) else name).

(** The [size] bytes that [data.resize(entry.size)] and the read at
    [entry.offset] give: what the file holds there, and zeros after the end
    of the file. *)
Definition dumped (entry : PKGEntry) (content : list byte) : list byte :=
  let payload := slice (value (offset entry)) (value (size entry)) content in
  payload ++ zeros (value (size entry) - Z.of_nat (length payload)).

(** The 256 bytes of [key1[3]] in the payload of the entry keys. *)
Definition key1_3 (entry : PKGEntry) (content : list byte) : list byte :=
  slice (value (offset entry) + 0x400) 256 content.

(** A package with the entry keys at 0x1000 + 0x100, of 0x800 bytes. *)
Definition pkg_entry_keys : list byte :=
  Sample.patch 0x1500 (list_byte_of_string "key1[3]")
    (Sample.package 0x1A00 0 0 [Sample.slot 0x10 0x1100 0x800 (zeros 8)]).

(** ** What the walker adds to the object *)

(** Every row of the file table has a path. *)
Definition rows_have_paths (self : PKG) : Prop :=
  Forall (fun t => is_Some (extractPaths self !! s32 (inode t))) (fsTable self).


(** The inode at offset [p] of a block. *)
Definition inode_at (L : Layout) (block : list byte) (p : Z) : Inode :=
  mkInode (le_at (p + ofs_Mode L) 2 block) (s64 (le_at (p + ofs_Size L) 8 block))
    (le_at (p + ofs_Blocks L) 4 block) (le_at (p + ofs_loc L) 4 block).

(** The object of a run of [Extract]. *)
Definition extracted (o : outcome (bool * Frame)) : option PKG :=
  match o with
  | Normal (_, fr) => Some (obj fr)
  | _ => None
  end.

(** A block with two inodes, of modes 0x8000 and 0x4000, then zeros. *)
Definition block_two_inodes : list byte :=
  Sample.patch 0xA8 (le_encode 2 0x4000)
    (Sample.patch 0 (le_encode 2 0x8000) (zeros 0x10000)).

(** The inodes of a block from the [j]-th on, [k] of them. *)
Definition inodes_at (L : Layout) (block : list byte) (j k : nat) : list Inode :=
  map (fun i => inode_at L block (sizeof_Inode * Z.of_nat i)) (seq j k).

(** What a call of [ExtractFiles] returned. *)
Definition returned (o : outcome (PKG * World)) : PKG * World :=
  match o with
  | Normal r => r
  | _ => (PKG_new x00, Sample.empty_world)
  end.

(** ** An inode whose size does not fit its blocks *)

(** An object with one file of two blocks whose inode announces 0x20005
    bytes, five more than two blocks hold. *)
Definition pkg_long_size : PKG :=
  set_iNodeBuf pkg_one_file [mkInode 0 0 0 0; mkInode 0x8000 0x20005 2 0].

(** ** [Core::FileSys]: trailing slashes and the handle table *)

(** core/file_sys/fs.cpp and fs.h. A [File*] is an address or [nullptr]
    ([None]); the objects made by [new File{}] live in a store from which
    [delete] removes them. [Devices::Logger] is not among the sources: a
    device is kept as what its constructor was given. *)
Module FileSys.

(** [path_sanitized.pop_back()] *)
Fixpoint pop_back (s : string) : string :=
  match s with
  | EmptyString => EmptyString
  | String c EmptyString => EmptyString
  | String c r => String c (pop_back r)
  end.

(** [while (path_sanitized.ends_with("/")) path_sanitized.pop_back();], at
    most [n] rounds of it. *)
Fixpoint strip_slashes (n : nat) (path_sanitized : string) : string :=
  match n with
  | O => path_sanitized
  | S k =>
      if Path.ends_with path_sanitized "/"
      then strip_slashes k (pop_back path_sanitized)
      else path_sanitized
  end.

Definition RemoveTrailingSlashes (path : string) : string :=
  strip_slashes (String.length path) path.

(** [k] slashes. *)
Fixpoint slashes (k : nat) : string :=
  match k with
  | O => EmptyString
  | S k => String "/" (slashes k)
  end.

Inductive FileType := Regular | Directory | Device.

Record DirEntry := mkDirEntry { name : string; isFile : bool }.

Record Logger := mkLogger { prefix : string; is_err : bool }.

Record File := mkFile {
  is_opened : bool;
  type : FileType;
  m_host_name : string;
  m_guest_name : string;
  dirents : list DirEntry;
  dirents_index : Z;
  device : option Logger
}.

(** [File{}] *)
Definition File_new : File := mkFile false Regular "" "" [] 0 None.

Definition ptr := nat.

Record HandleTable := mkHandleTable {
  m_files : list (option ptr);
  objects : gmap ptr File
}.

Definition HandleTable_new : HandleTable := mkHandleTable [] ∅.

(** [for (int index = ..; index < existingFilesNum; index++)
      if (m_files.at(index) == nullptr)]: the first such index among the
    next [n]. *)
Fixpoint first_null (files : list (option ptr)) (index : Z) (n : nat) : option Z :=
  match n with
  | O => None
  | S k =>
      match files !! Z.to_nat index with
      | Some None => Some index
      | _ => first_null files (index + 1) k
      end
  end.

Section Allocator.

(** The address [new] gives, knowing the addresses in use. *)
Variable alloc : gset ptr -> ptr.

Definition CreateHandle (t : HandleTable) : Z * HandleTable :=
  let file := alloc (dom (objects t)) in
  let objects' := <[ file := File_new ]> (objects t) in
  let existingFilesNum := s32 (Z.of_nat (length (m_files t))) in
  match first_null (m_files t) 0 (Z.to_nat existingFilesNum) with
  | Some index =>
      (index, mkHandleTable (<[ Z.to_nat index := Some file ]> (m_files t)) objects')
  | None =>
      (s32 (Z.of_nat (length (m_files t ++ [Some file])) - 1),
       mkHandleTable (m_files t ++ [Some file]) objects')
  end.

End Allocator.

(** [m_files.at(d)] for an [int] [d]: the index is taken as a [size_t]. *)
Definition at_ (files : list (option ptr)) (d : Z) : option (option ptr) :=
  files !! Z.to_nat (u64 d).

Definition DeleteHandle (t : HandleTable) (d : Z) : outcome HandleTable :=
  match at_ (m_files t) d with
  | None => Throws "std::out_of_range"
  | Some file =>
      let files' := <[ Z.to_nat (u64 d) := None ]> (m_files t) in
      match file with
      | None => Normal (mkHandleTable files' (objects t))
      | Some p =>
          if bool_decide (p ∈ dom (objects t))
          then Normal (mkHandleTable files' (delete p (objects t)))
          else Undefined "delete of a freed File"
      end
  end.

(** [GetFile(int d)] *)
Definition GetFile (t : HandleTable) (d : Z) : option ptr :=
  if (d <? 0) || (Z.of_nat (length (m_files t)) <=? u64 d) then None
  else default None (at_ (m_files t) d).

Section HostNames.

(** [operator==] of [std::filesystem::path]. *)
Variable path_equal : string -> string -> bool.

(** [GetFile(const std::filesystem::path& host_name)] *)
Fixpoint find_host_name (objs : gmap ptr File) (files : list (option ptr))
    (host_name : string) : outcome (option ptr) :=
  match files with
  | [] => Normal None
  | None :: rest => find_host_name objs rest host_name
  | Some p :: rest =>
      match objs !! p with
      | None => Undefined "use of a freed File"
      | Some file =>
          if path_equal (m_host_name file) host_name then Normal (Some p)
          else find_host_name objs rest host_name
      end
  end.

Definition GetFile_by_host_name (t : HandleTable) (host_name : string)
    : outcome (option ptr) :=
  find_host_name (objects t) (m_files t) host_name.

End HostNames.

(** [std::find(m_files.begin(), m_files.end(), file)], as a distance. *)
Fixpoint find_file (files : list (option ptr)) (file : option ptr) : option Z :=
  match files with
  | [] => None
  | f :: rest =>
      if bool_decide (f = file) then Some 0
      else option_map Z.succ (find_file rest file)
  end.

Definition GetFileDescriptor (t : HandleTable) (file : option ptr) : Z :=
  match find_file (m_files t) file with
  | Some distance => s32 distance
  | None => 0
  end.

Section StdHandles.
Variable alloc : gset ptr -> ptr.

(** The lambda [setup] of [CreateStdHandles]. *)
Definition setup (t : HandleTable) (path : string) (dev : Logger)
    : outcome HandleTable :=
  let '(fd, t) := CreateHandle alloc t in
  match GetFile t fd with
  | None => Undefined "null File"
  | Some p =>
      match objects t !! p with
      | None => Undefined "use of a freed File"
      | Some file =>
          let file :=
            mkFile true Device (m_host_name file) path (dirents file)
              (dirents_index file) (Some dev) in
          Normal (mkHandleTable (m_files t) (<[ p := file ]> (objects t)))
      end
  end.

Definition CreateStdHandles (t : HandleTable) : outcome HandleTable :=
  bind (setup t "/dev/stdin" (mkLogger "stdin" false))
    (fun t =>
       bind (setup t "/dev/stdout" (mkLogger "stdout" false))
         (fun t => setup t "/dev/stderr" (mkLogger "stderr" true))).

End StdHandles.

(** Every address of the table is that of a live object, and no address is
    in two slots. *)
Definition well_formed (t : HandleTable) : Prop :=
  (forall (i : nat) p, m_files t !! i = Some (Some p) -> p ∈ dom (objects t))
  /\ (forall (i j : nat) p, m_files t !! i = Some (Some p) ->
                            m_files t !! j = Some (Some p) -> i = j).

(** No slot below [d] is free. *)
Definition full_below (t : HandleTable) (d : Z) : Prop :=
  forall i, 0 <= i < d -> GetFile t i <> None.

(** [new] gives an address that is not in use. *)
Definition gives_fresh (alloc : gset ptr -> ptr) : Prop :=
  forall used, alloc used ∉ used.

(** An allocator: an address not in use. *)
Definition least_free (used : gset ptr) : ptr := fresh used.

(** The host name of the [File] that descriptor [d] names. *)
Definition host_name_at (t : HandleTable) (d : Z) : option string :=
  match GetFile t d with
  | Some p => option_map m_host_name (objects t !! p)
  | None => None
  end.

(** Descriptor [d] names an opened device of the guest name [path]. *)
Definition device_at (t : HandleTable) (d : Z) (path : string) (dev : Logger)
    : Prop :=
  exists p, GetFile t d = Some p
    /\ objects t !! p = Some (mkFile true Device "" path [] 0 (Some dev)).

(** A table with the handles 0 and 2 in use and 1 free. *)
Definition table_with_hole : HandleTable :=
  mkHandleTable [Some 5%nat; None; Some 7%nat]
    (<[ 5%nat := File_new ]> (<[ 7%nat := File_new ]> ∅)).

End FileSys.

(** ** [Config]: the game install directories *)

(** common/config.cpp. [settings_install_dirs] is a vector of
    [std::filesystem::path]; [std::find] compares with the paths'
    [operator==]. *)
Module Config.
Section InstallDirs.

(** [operator==] of [std::filesystem::path]. *)
Variable path_equal : string -> string -> bool.

(** [std::find(settings_install_dirs.begin(), settings_install_dirs.end(), dir)
      != settings_install_dirs.end()] *)
Definition found (settings_install_dirs : list string) (dir : string) : bool :=
  existsb (fun d => path_equal d dir) settings_install_dirs.

Definition addGameInstallDir (settings_install_dirs : list string) (dir : string)
    : bool * list string :=
  if found settings_install_dirs dir then (false, settings_install_dirs)
  else (true, settings_install_dirs ++ [dir]).

(** [erase] at the iterator [std::find] gives. *)
Fixpoint removeGameInstallDir (settings_install_dirs : list string) (dir : string)
    : list string :=
  match settings_install_dirs with
  | [] => []
  | d :: rest =>
      if path_equal d dir then rest else d :: removeGameInstallDir rest dir
  end.

(** No directory is in the list twice. *)
Fixpoint no_duplicates (dirs : list string) : bool :=
  match dirs with
  | [] => true
  | d :: rest => negb (existsb (path_equal d) rest) && no_duplicates rest
  end.

(** [operator==] is an equivalence. *)
Definition equivalence : Prop :=
  (forall a, path_equal a a = true)
  /\ (forall a b, path_equal a b = path_equal b a)
  /\ (forall a b c, path_equal a b = true -> path_equal b c = true ->
        path_equal a c = true).

End InstallDirs.
End Config.

(** * Properties *)

(** ** Buffers and the binary reader *)

Arguments Seek : simpl never.
Arguments SeekCur : simpl never.
Arguments ReadRaw : simpl never.
Arguments Read : simpl never.
Arguments store_into : simpl never.
Arguments resize : simpl never.
Arguments slice : simpl never.
Arguments zeros : simpl never.
Arguments in_bounds : simpl never.
Arguments le_at : simpl never.
Arguments be_at : simpl never.
Arguments u32 : simpl never.
Arguments u64 : simpl never.
Arguments s32 : simpl never.
Arguments s64 : simpl never.

Lemma length_zeros (n : Z) : length (zeros n) = Z.to_nat n.
Proof. apply repeat_length. Qed.

Lemma length_slice (off n : Z) (l : list byte) :
  0 <= off -> 0 <= n -> off + n <= Z.of_nat (length l) ->
  length (slice off n l) = Z.to_nat n.
Proof.
  intros Hoff Hn Hle. unfold slice.
  rewrite length_take, length_drop. lia.
Qed.

Lemma length_store_into (n : Z) (dest src : list byte) :
  length (store_into n dest src) = Z.to_nat n.
Proof.
  unfold store_into.
  rewrite length_take, length_app, length_drop, length_app, length_zeros. lia.
Qed.

Lemma store_into_exact (n : Z) (dest src : list byte) :
  length src = Z.to_nat n -> store_into n dest src = src.
Proof.
  intros Hlen. unfold store_into. rewrite <- Hlen. apply take_app_length.
Qed.


Lemma in_bounds_true (off n : Z) (buf : list byte) :
  in_bounds off n buf = true <->
  0 <= off /\ 0 <= n /\ off + n <= Z.of_nat (length buf).
Proof. unfold in_bounds. rewrite !andb_true_iff, !Z.leb_le. tauto. Qed.

Lemma Seek_ok (f : IOFile) (off : Z) :
  0 <= off <= GetSize f -> Seek f off = (true, mkFile (bytes f) off).
Proof.
  intros [H0 H1]. unfold Seek.
  apply Z.leb_le in H0, H1. now rewrite H0, H1.
Qed.

Lemma Seek_bytes (f : IOFile) (off : Z) : bytes (snd (Seek f off)) = bytes f.
Proof. unfold Seek. now destruct (_ && _). Qed.

Lemma Seek_pos_bound (f : IOFile) (off : Z) :
  0 <= pos f <= GetSize f ->
  0 <= pos (snd (Seek f off)) <= GetSize (snd (Seek f off)).
Proof.
  intros H. unfold Seek.
  destruct ((0 <=? off) && (off <=? GetSize f)) eqn:E; simpl; [|exact H].
  apply andb_true_iff in E as [E1 E2]. apply Z.leb_le in E1, E2.
  unfold GetSize in *; simpl. lia.
Qed.

Lemma ReadRaw_bytes (f : IOFile) (n : Z) : bytes (snd (ReadRaw f n)) = bytes f.
Proof. reflexivity. Qed.

Lemma Seek_inv (f f' : IOFile) (off : Z) (ok : bool) :
  Seek f off = (ok, f') ->
  bytes f' = bytes f /\ (ok = true -> f' = mkFile (bytes f) off).
Proof.
  unfold Seek. destruct (_ && _); intros [= <- <-]; split; auto; discriminate.
Qed.


Lemma Read_inv (f f' : IOFile) (n : Z) (obj got : list byte) :
  Read f n obj = (got, f') -> bytes f' = bytes f.
Proof. unfold Read, ReadRaw. now intros [= _ <-]. Qed.


Lemma read_arrays_bytes (count : nat) (sz : Z) (f : IOFile)
    (arrs : list (list byte)) :
  bytes (snd (read_arrays count sz f arrs)) = bytes f.
Proof.
  revert f arrs. induction count as [|k IH]; intros f arrs;
    cbn [read_arrays]; [reflexivity|].
  destruct (Read f sz (hd [] arrs)) as [a f1] eqn:E1.
  specialize (IH f1 (tl arrs)).
  destruct (read_arrays k sz f1 (tl arrs)) as [r f2]. cbn [snd] in *.
  rewrite IH. eapply Read_inv; eauto.
Qed.

Lemma ReadRaw_pos_bound (f : IOFile) (n : Z) :
  0 <= pos f <= GetSize f ->
  0 <= pos (snd (ReadRaw f n)) <= GetSize (snd (ReadRaw f n)).
Proof.
  intros H. unfold ReadRaw, GetSize, slice in *; simpl.
  rewrite length_take, length_drop. lia.
Qed.

Lemma Read_snd (f : IOFile) (n : Z) (obj : list byte) :
  snd (Read f n obj) = snd (ReadRaw f n).
Proof. reflexivity. Qed.

Lemma Read_inside (f : IOFile) (n : Z) (obj : list byte) :
  0 <= pos f -> 0 <= n -> pos f + n <= GetSize f ->
  Read f n obj = (slice (pos f) n (bytes f), mkFile (bytes f) (pos f + n)).
Proof.
  intros Hp Hn Hle. unfold Read, ReadRaw.
  assert (Hlen : length (slice (pos f) n (bytes f)) = Z.to_nat n)
    by (apply length_slice; unfold GetSize in Hle; lia).
  rewrite store_into_exact by exact Hlen.
  rewrite Hlen. f_equal. f_equal. lia.
Qed.

(** A slot that lies inside the file is read whole: the six fields are its
    first 24 bytes, the position ends 32 bytes further, and the padding of
    the entry is not what the file holds there. *)
Lemma read_entry_inside (f : IOFile) :
  0 <= pos f -> pos f + 32 <= GetSize f ->
  read_entry f =
    (mkEntry (slice (pos f) 4 (bytes f)) (slice (pos f + 4) 4 (bytes f))
       (slice (pos f + 8) 4 (bytes f)) (slice (pos f + 12) 4 (bytes f))
       (slice (pos f + 16) 4 (bytes f)) (slice (pos f + 20) 4 (bytes f))
       (zeros 8),
     mkFile (bytes f) (pos f + 32)).
Proof.
  intros Hp Hle. unfold read_entry.
  rewrite (Read_inside f) by lia.
  rewrite Read_inside by (unfold GetSize in *; simpl; lia). simpl bytes; simpl pos.
  rewrite Read_inside by (unfold GetSize in *; simpl; lia). simpl bytes; simpl pos.
  rewrite Read_inside by (unfold GetSize in *; simpl; lia). simpl bytes; simpl pos.
  rewrite Read_inside by (unfold GetSize in *; simpl; lia). simpl bytes; simpl pos.
  rewrite Read_inside by (unfold GetSize in *; simpl; lia). simpl bytes; simpl pos.
  unfold SeekCur. rewrite Seek_ok by (unfold GetSize in *; simpl; lia).
  simpl bytes; simpl pos.
  repeat (f_equal; try lia).
Qed.

(** ** The entry loop and the position of the PKG file *)

Ltac frame_simpl :=
  cbn [obj file world failreason seed_digest digest1 key1 imgkeydata seed
       set_obj set_file set_world set_failreason set_seed_digest set_digest1
       set_key1 set_imgkeydata set_seed fst snd bytes pos negb Tell] in *.

Section EntryLoop.
Variable P : Primitives.
Variable names : Z -> string.

Lemma derive_keys_bytes (fr : Frame) (entry : PKGEntry) :
  bytes (file (derive_keys P fr entry)) = bytes (file fr).
Proof.
  unfold derive_keys.
  destruct (value (id entry) =? 1); [reflexivity|].
  destruct (value (id entry) =? 16).
  - destruct (Seek _ _) as [ok f0] eqn:E0.
    destruct (Read f0 _ _) as [sd f1] eqn:E1.
    pose proof (read_arrays_bytes 7 32 f1 (digest1 fr)) as H2.
    destruct (read_arrays 7 32 f1 _) as [d1 f2].
    pose proof (read_arrays_bytes 7 256 f2 (key1 fr)) as H3.
    destruct (read_arrays 7 256 f2 _) as [k1 f3]. simpl in *.
    rewrite H3, H2. apply Read_inv in E1. apply Seek_inv in E0 as [E0 _]. congruence.
  - destruct (value (id entry) =? 32); [|reflexivity].
    destruct (Seek _ _) as [ok f0] eqn:E0.
    destruct (Read f0 _ _) as [sd f1] eqn:E1. simpl.
    apply Read_inv in E1. apply Seek_inv in E0 as [E0 _]. congruence.
Qed.




(** The first [i] iterations, then the next [k]. *)
Lemma Extract_entries_add (i k : nat) (fr : Frame) :
  Extract_entries P names (i + k) fr =
    match Extract_entries P names i fr with
    | Continue fr' => Extract_entries P names k fr'
    | Return r fr' => Return r fr'
    end.
Proof.
  revert fr. induction i as [|i IH]; intros fr; cbn [Extract_entries Nat.add].
  - reflexivity.
  - destruct (Extract_entry P names fr); [apply IH | reflexivity].
Qed.

End EntryLoop.




(** ** [Open] and the magic *)

Lemma take_4_store_into (n : Z) (old src : list byte) :
  (4 <= Z.to_nat n)%nat -> (4 <= length src)%nat ->
  firstn 4 (store_into n old src) = firstn 4 src.
Proof.
  intros Hn Hsrc. unfold store_into.
  rewrite take_take, Nat.min_l by exact Hn.
  now rewrite take_app_le by exact Hsrc.
Qed.

Lemma magic_of_header_read (old content : list byte) :
  4 <= Z.of_nat (length content) ->
  magic (store_into sizeof_PKGHeader old (slice 0 sizeof_PKGHeader content))
    = be_decode (firstn 4 content).
Proof.
  intros Hlen. unfold magic, be_at.
  unfold slice at 1. change (Z.to_nat 0) with 0%nat. change (Z.to_nat 4) with 4%nat.
  rewrite drop_0.
  assert (Hn : (4 <= Z.to_nat sizeof_PKGHeader)%nat)
    by (apply Nat2Z.inj_le; rewrite Z2Nat.id; vm_compute; discriminate).
  unfold slice. change (Z.to_nat 0) with 0%nat. rewrite drop_0.
  rewrite take_4_store_into.
  - rewrite take_take, Nat.min_l by exact Hn. reflexivity.
  - exact Hn.
  - rewrite length_take. lia.
Qed.

(** C7. [Open] on a file whose first four bytes are not the big-endian
    magic 0x7F434E54 returns false and leaves [failreason] as the caller
    passed it: the branch logs the bad magic and returns without assigning
    the out-parameter. *)
Theorem Open_bad_magic_keeps_failreason (L : Layout) (names : Z -> string)
    (disk : string -> option (list byte)) (self : PKG)
    (filepath reason : string) (content : list byte) :
  disk filepath = Some content ->
  4 <= Z.of_nat (length content) ->
  be_decode (firstn 4 content) <> 0x7F434E54 ->
  exists self', Open L names disk self filepath reason = (false, self', reason).
Proof.
  intros Hdisk Hlen Hmagic. unfold Open. rewrite Hdisk.
  unfold Read, ReadRaw. cbn [IO.open pos bytes].
  rewrite magic_of_header_read by exact Hlen.
  apply Z.eqb_neq in Hmagic. rewrite Hmagic. cbn [negb].
  eexists. reflexivity.
Qed.

(** The first scenario of the spec: a 4 KiB file of zeros, opened as main.cpp
    does, with an empty [failreason]. *)
Lemma Open_zero_file :
  exists self',
    Open Sample.layout Sample.names (Sample.disk_with (zeros 4096)) (PKG_new x00)
      "game.pkg" "" = (false, self', ""%string).
Proof.
  apply (Open_bad_magic_keeps_failreason Sample.layout Sample.names
           (Sample.disk_with (zeros 4096)) (PKG_new x00) "game.pkg" ""
           (zeros 4096)).
  - reflexivity.
  - vm_compute. discriminate.
  - vm_compute. discriminate.
Defined.

(** ** The results of [Extract] *)

Ltac pkg_simpl :=
  cbn [pkgheader pkgSize pkgTitleID pkgEntries sfo extract_path pkgpath dk3_
       ivKey imgKey ekpfsKey dataKey tweakKey decNp pfsc_offset sectorMap
       iNodeBuf fsTable extractPaths current_dir
       set_pkgheader set_pkgSize set_pkgTitleID set_pkgEntries set_sfo
       set_extract_path set_pkgpath set_dk3_ set_ivKey set_imgKey set_ekpfsKey
       set_dataKey set_tweakKey set_decNp set_pfsc_offset set_sectorMap
       set_iNodeBuf set_fsTable set_extractPaths set_current_dir] in *.

Lemma sce_sys_only_refl extract w : sce_sys_only extract w w.
Proof. split; auto. Qed.

Lemma sce_sys_only_trans extract w1 w2 w3 :
  sce_sys_only extract w1 w2 -> sce_sys_only extract w2 w3 ->
  sce_sys_only extract w1 w3.
Proof.
  intros [F1 D1] [F2 D2]. split.
  - intros p. destruct (F2 p) as [E2|?]; [|now right].
    destruct (F1 p) as [E1|?]; [|now right]. left. congruence.
  - intros d Hd. destruct (D2 d Hd) as [H|?]; [|now right]. now apply D1.
Qed.

Lemma sce_sys_only_write extract w s data :
  sce_sys_only extract w (write_file (extract // "sce_sys" // s) data w).
Proof.
  unfold write_file. destruct (String.eqb _ ""); [apply sce_sys_only_refl|].
  split; cbn [files dirs]; [|auto].
  intros p. destruct (decide (p = extract // "sce_sys" // s)) as [->|Hne].
  - right. eauto.
  - left. now rewrite lookup_insert_ne.
Qed.

Lemma sce_sys_only_mkdir extract w s :
  sce_sys_only extract w
    (create_directories (Path.parent_path (extract // "sce_sys" // s)) w).
Proof.
  split; cbn [files dirs create_directories]; [auto|].
  intros d Hd. apply elem_of_union in Hd as [Hd|Hd]; [|now left].
  apply elem_of_singleton in Hd. right. eauto.
Qed.

Section EntryLoopFrame.
Variable P : Primitives.
Variable names : Z -> string.

Lemma derive_keys_frame (fr : Frame) (entry : PKGEntry) :
  outside_keys (obj (derive_keys P fr entry)) = outside_keys (obj fr)
  /\ world (derive_keys P fr entry) = world fr
  /\ failreason (derive_keys P fr entry) = failreason fr.
Proof.
  unfold derive_keys.
  destruct (value (id entry) =? 1); [auto|].
  destruct (value (id entry) =? 16).
  - destruct (Seek _ _) as [ok f0].
    destruct (Read f0 _ _) as [sd f1].
    destruct (read_arrays 7 32 f1 _) as [d1 f2].
    destruct (read_arrays 7 256 f2 _) as [k1 f3].
    frame_simpl. auto.
  - destruct (value (id entry) =? 32); [|auto].
    destruct (Seek _ _) as [ok f0].
    destruct (Read f0 _ _) as [sd f1]. frame_simpl. auto.
Qed.

Lemma decrypt_np_frame (fr : Frame) (entry : PKGEntry) (data : list byte) (s : string) :
  let fl := decrypt_np P fr entry data (extract_path (obj fr) // "sce_sys" // s) in
  outside_keys (obj (flow_frame fl)) = outside_keys (obj fr)
  /\ sce_sys_only (extract_path (obj fr)) (world fr) (world (flow_frame fl))
  /\ match fl with
     | Continue fr' => failreason fr' = failreason fr
     | Return r fr' => r = false /\ failreason fr' = seek_failed
     end.
Proof.
  unfold decrypt_np. frame_simpl.
  destruct (Seek _ _) as [ok f0]. destruct ok; cbn [negb flow_frame]; frame_simpl.
  - split; [reflexivity|]. split; [apply sce_sys_only_write | reflexivity].
  - split; [reflexivity|]. split; [apply sce_sys_only_refl | auto].
Qed.

Lemma Extract_entry_frame (fr : Frame) :
  let fl := Extract_entry P names fr in
  outside_keys (obj (flow_frame fl)) = outside_keys (obj fr)
  /\ sce_sys_only (extract_path (obj fr)) (world fr) (world (flow_frame fl))
  /\ match fl with
     | Continue fr' => failreason fr' = failreason fr
     | Return r fr' => r = false /\ failreason fr' = seek_failed
     end.
Proof.
  unfold Extract_entry.
  destruct (read_entry (file fr)) as [entry f]. frame_simpl.
  set (ep := extract_path (obj fr)).
  destruct (String.eqb (names (value (id entry))) "").
  - destruct (Seek _ _) as [ok f0]. destruct ok; cbn [negb].
    + destruct (ReadRaw f0 _) as [got f1]. frame_simpl.
      destruct (Seek f1 _) as [ok2 f2]. cbn [flow_frame]. frame_simpl.
      split; [reflexivity|]. split; [|reflexivity].
      eapply sce_sys_only_trans; [apply sce_sys_only_mkdir|].
      eapply sce_sys_only_trans; apply sce_sys_only_write.
    + cbn [flow_frame]. frame_simpl.
      split; [reflexivity|]. split; [|auto].
      eapply sce_sys_only_trans; [apply sce_sys_only_mkdir|].
      apply sce_sys_only_write.
  - match goal with |- context [derive_keys P ?x entry] =>
      destruct (derive_keys_frame x entry) as (Ho & Hw & Hf);
      set (fr1 := derive_keys P x entry) in *
    end.
    frame_simpl.
    assert (Hep : extract_path (obj fr1) = ep)
      by (unfold outside_keys in Ho; injection Ho; auto).
    rewrite Hep.
    assert (Hw1 : sce_sys_only ep (world fr) (world fr1))
      by (rewrite Hw; apply sce_sys_only_mkdir).
    destruct (Seek _ _) as [ok f0]. destruct ok; cbn [negb].
    + destruct (ReadRaw f0 _) as [got f1]. frame_simpl.
      destruct (is_npdrm _).
      * match goal with |- context [decrypt_np P ?x entry ?d _] =>
          pose proof (decrypt_np_frame x entry d (names (value (id entry)))) as Hn
        end.
        frame_simpl. rewrite Hep in Hn. cbv zeta in Hn.
        destruct (decrypt_np _ _ _ _ _) as [fr2|r fr2]; cbn [flow_frame] in *.
        -- destruct (Seek _ _) as [ok2 f2]. cbn [flow_frame]. frame_simpl.
           destruct Hn as (Hn1 & Hn2 & Hn3).
           split; [congruence|]. split; [|congruence].
           eapply sce_sys_only_trans; [exact Hw1|].
           eapply sce_sys_only_trans; [|exact Hn2].
           eapply sce_sys_only_trans; apply sce_sys_only_write.
        -- destruct Hn as (Hn1 & Hn2 & Hn3).
           split; [congruence|]. split; [|exact Hn3].
           eapply sce_sys_only_trans; [exact Hw1|].
           eapply sce_sys_only_trans; [|exact Hn2].
           eapply sce_sys_only_trans; apply sce_sys_only_write.
      * destruct (Seek _ _) as [ok2 f2]. cbn [flow_frame]. frame_simpl.
        split; [exact Ho|]. split; [|exact Hf].
        eapply sce_sys_only_trans; [exact Hw1|].
        eapply sce_sys_only_trans; apply sce_sys_only_write.
    + cbn [flow_frame]. frame_simpl.
      split; [exact Ho|]. split; [|auto].
      eapply sce_sys_only_trans; [exact Hw1|]. apply sce_sys_only_write.
Qed.


Lemma Extract_entries_frame (n : nat) (fr : Frame) :
  let fl := Extract_entries P names n fr in
  outside_keys (obj (flow_frame fl)) = outside_keys (obj fr)
  /\ sce_sys_only (extract_path (obj fr)) (world fr) (world (flow_frame fl))
  /\ match fl with
     | Continue fr' => failreason fr' = failreason fr
     | Return r fr' => r = false /\ failreason fr' = seek_failed
     end.
Proof.
  revert fr. induction n as [|k IH]; intros fr; cbn [Extract_entries].
  - cbn. split; [reflexivity|]. split; [apply sce_sys_only_refl | reflexivity].
  - pose proof (Extract_entry_frame fr) as H. cbv zeta in H.
    destruct (Extract_entry P names fr) as [fr1|r fr1]; cbn [flow_frame] in H.
    + destruct H as (H1 & H2 & H3). specialize (IH fr1). cbv zeta in *.
      assert (Hep : extract_path (obj fr1) = extract_path (obj fr))
        by (unfold outside_keys in H1; injection H1; auto).
      rewrite Hep in IH. destruct IH as (I1 & I2 & I3).
      split; [congruence|]. split; [eapply sce_sys_only_trans; eauto|].
      destruct (Extract_entries P names k fr1); [congruence | exact I3].
    + exact H.
Qed.

End EntryLoopFrame.

Section ExtractResults.
Variable P : Primitives.
Variable L : Layout.
Variable names : Z -> string.
Variable disk : string -> option (list byte).

Lemma Extract_header_frame (self : PKG) (w : World)
    (filepath extract reason : string) (stack : Stack) :
  let fl := Extract_header L disk self w filepath extract reason stack in
  world (flow_frame fl) = w
  /\ extract_path (obj (flow_frame fl)) = extract
  /\ pfs_members (obj (flow_frame fl)) = pfs_members self
  /\ match fl with
     | Continue fr => failreason fr = reason
     | Return r fr =>
         r = false
         /\ ((failreason fr = reason
              /\ (disk filepath = None \/ magic (pkgheader (obj fr)) <> 0x7F434E54))
             \/ In (failreason fr) header_failures)
     end.
Proof.
  unfold Extract_header, header_failures.
  destruct (disk filepath) as [content|]; cbn [flow_frame]; frame_simpl.
  2:{ pkg_simpl. repeat split; auto. }
  destruct (ReadRaw (IO.open content) sizeof_PKGHeader) as [got f].
  destruct (magic _ =? _) eqn:Hm; cbn [negb flow_frame]; frame_simpl; pkg_simpl.
  2:{ apply Z.eqb_neq in Hm. repeat split; auto. }
  destruct (_ <? _); cbn [flow_frame]; frame_simpl; pkg_simpl.
  { repeat split; auto. right. cbn. auto. }
  destruct (_ <? _); cbn [flow_frame]; frame_simpl; pkg_simpl.
  { repeat split; auto. right. cbn. auto. }
  destruct (Seek f _) as [ok f']. destruct ok; cbn [negb flow_frame]; frame_simpl; pkg_simpl.
  - repeat split; auto.
  - repeat split; auto. right. cbn. auto.
Qed.

Lemma Extract_pfs_keys_frame (fr : Frame) :
  match Extract_pfs_keys P L fr with
  | Return r fr' =>
      r = false /\ failreason fr' = pfs_seek_failed
      /\ world fr' = world fr /\ obj fr' = obj fr
  | Continue fr' =>
      world fr' = world fr /\ failreason fr' = failreason fr
      /\ outside_keys (obj fr') = outside_keys (obj fr)
      /\ (dataKey (obj fr'), tweakKey (obj fr'))
         = Crypto.PfsGenCryptoKey P (ekpfsKey (obj fr)) (seed fr')
             (dataKey (obj fr)) (tweakKey (obj fr))
  end.
Proof.
  unfold Extract_pfs_keys.
  destruct (Seek _ _) as [ok f]. destruct ok; cbn [negb].
  - destruct (Read f 16 (seed fr)) as [sd f1].
    destruct (Crypto.PfsGenCryptoKey _ _ _ _ _) as [dk tk] eqn:E.
    frame_simpl. pkg_simpl. rewrite E. auto.
  - frame_simpl. auto.
Qed.


Lemma Extract_pfs_true (fuel : nat) (fr fr' : Frame) (b : bool) :
  Extract_pfs P L fuel fr = Normal (b, fr') -> b = true.
Proof.
  unfold Extract_pfs.
  destruct (if negb _ then _ else _) as [[[fr1 nb] pfsc]| | |]; cbn [bind];
    try (intros H; discriminate H).
  destruct (walk_blocks _ _ _ _ _ _ _) as [wk| | |]; cbn [bind];
    try (intros H; discriminate H).
  now intros [= <- _].
Qed.

(** C3, as the code has it. [Extract] never looks at the order or the
    presence of the entries 0x10 and 0x20. It returns false only when the
    file cannot be opened or the magic is wrong ([failreason] is left as it
    was), when one of the two size checks fails, or when a seek fails: to the
    entry table, to the offset of an entry, or to [pfs_image_offset + 0x370].
    An entry 0x20 met before any entry 0x10 is processed with the [dk3_] the
    object holds, and the loop goes on. *)
Theorem Extract_fails_only_on_header_or_seek (fuel : nat) (self : PKG) (w : World)
    (filepath extract reason : string) (stack : Stack) (fr : Frame) :
  Extract P L names disk fuel self w filepath extract reason stack
    = Normal (false, fr) ->
  (failreason fr = reason
   /\ (disk filepath = None \/ magic (pkgheader (obj fr)) <> 0x7F434E54))
  \/ In (failreason fr) (header_failures ++ [seek_failed; pfs_seek_failed]).
Proof.
  unfold Extract.
  pose proof (Extract_header_frame self w filepath extract reason stack) as Hh.
  cbv zeta in Hh.
  destruct (Extract_header _ _ _ _ _ _ _ _) as [fr0|r fr0]; cbn [flow_frame] in Hh.
  2:{ intros [= -> ->]. destruct Hh as (_ & _ & _ & _ & [Hh|Hh]); [now left|].
      right. apply in_or_app. now left. }
  pose proof (Extract_entries_frame P names
                (Z.to_nat (pkg_table_entry_count L (pkgheader (obj fr0)))) fr0) as He.
  cbv zeta in He.
  destruct (Extract_entries _ _ _ _) as [fr1|r fr1]; cbn [flow_frame] in He.
  2:{ intros [= -> ->]. destruct He as (_ & _ & _ & He).
      right. apply in_or_app. right. rewrite He. cbn. auto. }
  pose proof (Extract_pfs_keys_frame fr1) as Hk.
  destruct (Extract_pfs_keys P L fr1) as [fr2|r fr2].
  2:{ intros [= -> ->]. destruct Hk as (_ & Hk & _).
      right. apply in_or_app. right. rewrite Hk. cbn. auto. }
  intros H. apply Extract_pfs_true in H. discriminate H.
Qed.




Lemma outside_keys_extract_path (a b : PKG) :
  outside_keys a = outside_keys b -> extract_path a = extract_path b.
Proof. unfold outside_keys. intros [= ]. congruence. Qed.


End ExtractResults.

(** A package whose entry 0x20 comes before its entry 0x10: [Extract] returns
    true and leaves [failreason] empty. *)
Lemma Extract_image_key_before_entry_keys :
  Sample.table_ids Sample.pkg_swapped = [0x20; 0x10]
  /\ Sample.summary (Sample.extract_of Sample.pkg_swapped) = Normal (true, ""%string).
Proof. apply conj; vm_compute; reflexivity. Qed.

Lemma Extract_fails_only_on_header_or_seek_witness :
  (failreason (Sample.frame_of (Sample.extract_of Sample.pkg_bad_offset)) = ""%string
   /\ (Sample.disk_with Sample.pkg_bad_offset "game.pkg" = None
       \/ magic (pkgheader (obj (Sample.frame_of
                                   (Sample.extract_of Sample.pkg_bad_offset))))
          <> 0x7F434E54))
  \/ In (failreason (Sample.frame_of (Sample.extract_of Sample.pkg_bad_offset)))
       (header_failures ++ [seek_failed; pfs_seek_failed]).
Proof.
  apply (Extract_fails_only_on_header_or_seek Sample.primitives Sample.layout
           Sample.names (Sample.disk_with Sample.pkg_bad_offset) 16 (PKG_new x00)
           Sample.empty_world "game.pkg" "out" "" (Stack_fill x00)).
  vm_compute. reflexivity.
Defined.



(** ** Entries without a name *)

(** C8. A package whose only entry has the id 0xDEADBEEF, which has no
    name: [main] ends with exit code 0, the 17 bytes of the entry are in
    out/sce_sys/3735928559 (written by [Extract]), and there is no
    out/entry_0xdeadbeef.bin. The branch of [ExtractFiles] that writes
    entry_0x<id>.bin looks for rows of the file table with an empty name,
    and the file table only ever receives the dirents of the PFS. *)
Theorem unknown_entry_is_not_dumped_at_root :
  Sample.table_ids Sample.pkg_unknown = [0xDEADBEEF]
  /\ Sample.names 0xDEADBEEF = ""%string
  /\ Sample.main_of Sample.pkg_unknown "out/sce_sys/3735928559"
       "out/entry_0xdeadbeef.bin"
     = Normal (0, Some Sample.payload17, None).
Proof. repeat apply conj; vm_compute; reflexivity. Qed.

(** ** A PFS head without the PFSC magic *)

(** C4. A PFS head of 0x30000 bytes in which no offset 0x20000 + k * 0x10000
    holds the PFSC magic: [GetPFSCOffset] returns 0xFFFFFFFF, its "not
    found", and [Extract] does not return false; it goes on to copy
    [length - pfsc_offset] bytes from [pfs_decrypted + pfsc_offset], outside
    the buffer. *)
Theorem Extract_without_PFSC_magic :
  Sample.magic_at_stride 16 Sample.head_no_pfsc 0x30000 = false
  /\ GetPFSCOffset 16 Sample.head_no_pfsc 0x30000 = Normal 0xFFFFFFFF
  /\ Sample.summary (Sample.extract_of Sample.pkg_no_pfsc)
     = Undefined "memcpy of the PFSC outside pfs_decrypted".
Proof. repeat apply conj; vm_compute; reflexivity. Qed.

(** ** The dirent loops *)

Ltac walk_simpl :=
  cbn [w_obj w_world ent_size ndinode ndinode_counter dinode_reached
       uroot_reached decompressedData set_w_obj set_w_world set_ent_size
       set_ndinode set_ndinode_counter set_dinode_reached set_uroot_reached
       set_decompressedData] in *.

Lemma s32_range (z : Z) : - 2 ^ 31 <= s32 z < 2 ^ 31.
Proof. unfold s32. pose proof (Z.mod_pos_bound (z + 2 ^ 31) (2 ^ 32)). lia. Qed.

Lemma s32_small (z : Z) : - 2 ^ 31 <= z < 2 ^ 31 -> s32 z = z.
Proof. intros H. unfold s32. rewrite Z.mod_small by lia. lia. Qed.

Lemma s32_wrap_high (z : Z) : 2 ^ 31 <= z < 2 ^ 32 -> s32 z = z - 2 ^ 32.
Proof.
  intros H. unfold s32.
  replace (z + 2 ^ 31) with ((z - 2 ^ 31) + 1 * 2 ^ 32) by lia.
  rewrite Z.mod_add by lia. rewrite Z.mod_small by lia. lia.
Qed.

Lemma u32_small (z : Z) : 0 <= z < 2 ^ 32 -> u32 z = z.
Proof. intros H. unfold u32. now apply Z.mod_small. Qed.

Lemma read_dirent_Some (block : list byte) (i : Z) (d : Dirent) :
  read_dirent block i = Some d ->
  0 <= i /\ - 2 ^ 31 <= entsize d < 2 ^ 31.
Proof.
  unfold read_dirent. destruct (in_bounds i 16 block) eqn:E; [|discriminate].
  apply in_bounds_true in E. intros [= <-]. cbn [entsize].
  split; [lia | apply s32_range].
Qed.

Lemma read_dirent_negative (block : list byte) (i : Z) :
  i < 0 -> read_dirent block i = None.
Proof.
  intros H. unfold read_dirent, in_bounds.
  destruct (0 <=? i) eqn:E; [apply Z.leb_le in E; lia | reflexivity].
Qed.

(** The next offset: further in the block, or below zero. *)
Lemma next_offset (i e : Z) :
  0 <= i < 0x10000 -> 0 < e < 2 ^ 31 ->
  i < s32 (i + u32 e) \/ s32 (i + u32 e) < 0.
Proof.
  intros Hi He. rewrite (u32_small e) by lia.
  destruct (Z_lt_le_dec (i + e) (2 ^ 31)).
  - left. rewrite s32_small; lia.
  - right. rewrite s32_wrap_high; lia.
Qed.

Lemma uroot_loop_ends (block : list byte) :
  positive_strides block ->
  forall (fuel : nat) (i : Z) (wk : Walk),
    reached block i -> decompressedData wk = block ->
    1 <= Z.of_nat fuel -> (0 <= i -> 0x10000 - i < Z.of_nat fuel) ->
    uroot_loop fuel i wk <> OutOfFuel.
Proof.
  intros Hpos. induction fuel as [|k IH]; intros i wk Hr Hb H1 Hfuel; [lia|].
  cbn [uroot_loop]. destruct (i <? 0x10000) eqn:Hlt; [|discriminate].
  apply Z.ltb_lt in Hlt. rewrite Hb.
  destruct (read_dirent block i) as [d|] eqn:Hd; [|discriminate].
  destruct (ino d =? 0) eqn:Hino; cbn [negb]; [discriminate|].
  apply Z.eqb_neq in Hino.
  pose proof (read_dirent_Some _ _ _ Hd) as [Hi He].
  pose proof (Hpos i d Hr Hd Hino) as Hp.
  walk_simpl.
  assert (Hr' : reached block (s32 (i + u32 (entsize d))))
    by (eapply reached_next; eauto).
  destruct (next_offset i (entsize d)) as [Hn|Hn]; [lia | lia | |].
  - apply IH; walk_simpl; auto; lia.
  - destruct k as [|k']; [lia|].
    cbn [uroot_loop]. walk_simpl.
    destruct (_ <? 0x10000) eqn:Hlt'; [|discriminate].
    rewrite Hb, read_dirent_negative by exact Hn. discriminate.
Qed.

Lemma add_dirent_block (wk : Walk) (d : Dirent) (nm : string) (e : bool) :
  decompressedData (fst (add_dirent wk d nm e)) = decompressedData wk
  /\ ent_size (fst (add_dirent wk d nm e)) = ent_size wk.
Proof.
  unfold add_dirent.
  destruct (_ || _); [destruct (_ =? PFS_DIR)|]; walk_simpl; auto.
Qed.

Lemma dirent_loop_ends (block : list byte) :
  positive_strides block ->
  forall (fuel : nat) (j : Z) (e : bool) (wk : Walk),
    reached block j -> decompressedData wk = block ->
    1 <= Z.of_nat fuel -> (0 <= j -> 0x10000 - j < Z.of_nat fuel) ->
    dirent_loop fuel j e wk <> OutOfFuel.
Proof.
  intros Hpos. induction fuel as [|k IH]; intros j e wk Hr Hb H1 Hfuel; [lia|].
  cbn [dirent_loop]. destruct (j <? 0x10000) eqn:Hlt; [|discriminate].
  apply Z.ltb_lt in Hlt. rewrite Hb.
  destruct (read_dirent block j) as [d|] eqn:Hd; [|discriminate].
  destruct (ino d =? 0) eqn:Hino; [discriminate|].
  apply Z.eqb_neq in Hino.
  destruct (namelen d <? 0); [discriminate|].
  walk_simpl. rewrite Hb.
  destruct (in_bounds _ _ _); cbn [negb]; [|discriminate].
  pose proof (read_dirent_Some _ _ _ Hd) as [Hj He].
  pose proof (Hpos j d Hr Hd Hino) as Hp.
  match goal with |- context [add_dirent ?a ?b ?c ?d] =>
    pose proof (add_dirent_block a b c d) as [Hab Hae];
    destruct (add_dirent a b c d) as [wk' e']
  end.
  cbn [fst] in Hab, Hae. walk_simpl. rewrite Hae.
  assert (Hr' : reached block (s32 (j + u32 (entsize d))))
    by (eapply reached_next; eauto).
  destruct (next_offset j (entsize d)) as [Hn|Hn]; [lia | lia | |].
  - apply IH; auto; try lia. congruence.
  - destruct k as [|k']; [lia|].
    cbn [dirent_loop].
    destruct (_ <? 0x10000) eqn:Hlt'; [|discriminate].
    rewrite Hab, Hb, read_dirent_negative by exact Hn. discriminate.
Qed.

(** C6, as the code has it. The two dirent loops of the walker check
    nothing about [entsize]: they advance by what they read. Started on a
    block in which every dirent they reach with [ino <> 0] has a positive
    [entsize], each of them ends within 0x10001 iterations: at a dirent with
    [ino == 0], at an index of 0x10000 or more, or on a dirent read outside
    the block. *)
Theorem dirent_loops_end_on_positive_strides (wk : Walk) (end_reached : bool) :
  positive_strides (decompressedData wk) ->
  uroot_loop (Z.to_nat 0x10001) 0 wk <> OutOfFuel
  /\ dirent_loop (Z.to_nat 0x10001) 0 end_reached wk <> OutOfFuel.
Proof.
  intros Hpos. split.
  - apply (uroot_loop_ends _ Hpos); [constructor | reflexivity | lia..].
  - apply (dirent_loop_ends _ Hpos); [constructor | reflexivity | lia..].
Qed.

Lemma block_stride_0_first :
  read_dirent block_stride_0 0 = Some (mkDirent 1 0 0 0).
Proof. vm_compute. reflexivity. Qed.

Lemma uroot_loop_stride_0 (fuel : nat) (wk : Walk) :
  decompressedData wk = block_stride_0 -> uroot_loop fuel 0 wk = OutOfFuel.
Proof.
  revert wk. induction fuel as [|k IH]; intros wk Hb; [reflexivity|].
  cbn [uroot_loop]. change (0 <? 0x10000) with true. cbv iota.
  rewrite Hb, block_stride_0_first. cbn [ino entsize negb Z.eqb]. walk_simpl.
  change (s32 (0 + u32 0)) with 0. apply IH. walk_simpl. exact Hb.
Qed.

Lemma dirent_loop_stride_0 (fuel : nat) (e : bool) (wk : Walk) :
  decompressedData wk = block_stride_0 -> dirent_loop fuel 0 e wk = OutOfFuel.
Proof.
  revert e wk. induction fuel as [|k IH]; intros e wk Hb; [reflexivity|].
  cbn [dirent_loop]. change (0 <? 0x10000) with true. cbv iota.
  rewrite Hb, block_stride_0_first. cbn [ino entsize namelen negb Z.eqb Z.ltb Z.compare].
  walk_simpl. rewrite Hb.
  replace (in_bounds (0 + 16) 0 block_stride_0) with true by (vm_compute; reflexivity).
  cbn [negb].
  match goal with |- context [add_dirent ?a ?b ?c ?d] =>
    pose proof (add_dirent_block a b c d) as [Hab Hae];
    destruct (add_dirent a b c d) as [wk' e']
  end.
  cbn [fst] in Hab, Hae. walk_simpl. rewrite Hae.
  change (s32 (0 + u32 0)) with 0. apply IH. congruence.
Qed.

(** On a block whose first dirent has [ino = 1] and [entsize = 0], both
    loops read offset 0 for ever. *)
Lemma dirent_loops_run_forever_on_stride_0 :
  runs_forever (fun fuel => uroot_loop fuel 0 (walk_over block_stride_0))
  /\ runs_forever (fun fuel => dirent_loop fuel 0 false (walk_over block_stride_0)).
Proof.
  split; intros fuel.
  - now apply uroot_loop_stride_0.
  - now apply dirent_loop_stride_0.
Qed.

Lemma block_dot_reached (i : Z) : reached block_dot i -> i = 0 \/ i = 0x18.
Proof.
  induction 1 as [|i d Hr IH Hlt Hd Hino]; [now left|].
  destruct IH as [-> | ->].
  - replace (read_dirent block_dot 0) with (Some (mkDirent 1 4 1 0x18)) in Hd
      by (vm_compute; reflexivity).
    injection Hd as <-. right. vm_compute. reflexivity.
  - replace (read_dirent block_dot 0x18) with (Some (mkDirent 0 0 0 0)) in Hd
      by (vm_compute; reflexivity).
    injection Hd as <-. now contradiction Hino.
Qed.

Lemma block_dot_positive : positive_strides block_dot.
Proof.
  intros i d Hr Hd Hino. apply block_dot_reached in Hr as [-> | ->].
  - replace (read_dirent block_dot 0) with (Some (mkDirent 1 4 1 0x18)) in Hd
      by (vm_compute; reflexivity).
    injection Hd as <-. cbn. lia.
  - replace (read_dirent block_dot 0x18) with (Some (mkDirent 0 0 0 0)) in Hd
      by (vm_compute; reflexivity).
    injection Hd as <-. now contradiction Hino.
Qed.

Lemma dirent_loops_end_on_positive_strides_witness :
  uroot_loop (Z.to_nat 0x10001) 0 (walk_over block_dot) <> OutOfFuel
  /\ dirent_loop (Z.to_nat 0x10001) 0 false (walk_over block_dot) <> OutOfFuel.
Proof.
  apply (dirent_loops_end_on_positive_strides (walk_over block_dot) false).
  exact block_dot_positive.
Defined.

(** ** The image key *)





Section ImageKey.
Variable P : Primitives.
Variable names : Z -> string.


End ImageKey.



(** ** Machine arithmetic *)

Lemma u32_range (z : Z) : 0 <= u32 z < 2 ^ 32.
Proof. unfold u32. apply Z.mod_pos_bound. lia. Qed.

Lemma u64_range (z : Z) : 0 <= u64 z < 2 ^ 64.
Proof. unfold u64. apply Z.mod_pos_bound. lia. Qed.

Lemma u32_u64 (z : Z) : u32 (u64 z) = u32 z.
Proof.
  unfold u32, u64. apply Z.mod_mod_divide. exists (2 ^ 32). reflexivity.
Qed.

Lemma u32_s32 (z : Z) : u32 (s32 z) = u32 z.
Proof.
  unfold u32, s32. rewrite Zminus_mod_idemp_l. f_equal. lia.
Qed.

Lemma u32_sub_s32 (a x : Z) : u32 (a - s32 x) = u32 (a - x).
Proof.
  unfold u32, s32.
  replace (a - ((x + 2 ^ 31) mod 2 ^ 32 - 2 ^ 31))
    with (a + 2 ^ 31 - (x + 2 ^ 31) mod 2 ^ 32) by lia.
  rewrite Zminus_mod_idemp_r. f_equal. lia.
Qed.

Lemma u32_add_s32 (a x : Z) : u32 (a + s32 x) = u32 (a + x).
Proof.
  replace (a + s32 x) with (a - (- s32 x)) by lia.
  unfold u32, s32.
  replace (a - - ((x + 2 ^ 31) mod 2 ^ 32 - 2 ^ 31))
    with (a - 2 ^ 31 + (x + 2 ^ 31) mod 2 ^ 32) by lia.
  rewrite Zplus_mod_idemp_r. f_equal. lia.
Qed.

Lemma u32_sub_u32 (a x : Z) : u32 (a - u32 x) = u32 (a - x).
Proof. unfold u32. apply Zminus_mod_idemp_r. Qed.

Lemma u32_u32_sub (a x : Z) : u32 (u32 a - x) = u32 (a - x).
Proof. unfold u32. apply Zminus_mod_idemp_l. Qed.

Lemma u32_u32_add (a x : Z) : u32 (u32 a + x) = u32 (a + x).
Proof. unfold u32. apply Zplus_mod_idemp_l. Qed.

(** A signed value is determined by its 32-bit pattern. *)
Lemma s32_unique (a b : Z) :
  u32 a = u32 b -> - 2 ^ 31 <= b < 2 ^ 31 -> s32 a = b.
Proof.
  intros Hu Hb.
  assert (Hs : s32 a = s32 b).
  { unfold s32. f_equal. unfold u32 in Hu.
    rewrite <- (Zplus_mod_idemp_l a), <- (Zplus_mod_idemp_l b), Hu. reflexivity. }
  rewrite Hs. apply s32_small. exact Hb.
Qed.

(** [x & 0xFFFFF000]: bits 12 to 31. *)
Lemma land_mask (y : Z) :
  Z.land y 0xFFFFF000 = 4096 * (y mod 2 ^ 32 / 4096).
Proof.
  change 0xFFFFF000 with (Z.ldiff (Z.ones 32) (Z.ones 12)).
  assert (H : Z.land y (Z.ldiff (Z.ones 32) (Z.ones 12))
              = Z.ldiff (Z.land y (Z.ones 32)) (Z.ones 12)).
  { apply Z.bits_inj'. intros n Hn.
    rewrite Z.land_spec, !Z.ldiff_spec, Z.land_spec.
    now rewrite andb_assoc. }
  rewrite H, Z.land_ones, Z.ldiff_ones_r by lia.
  rewrite Z.shiftl_mul_pow2, Z.shiftr_div_pow2 by lia.
  change (2 ^ 12) with 4096. lia.
Qed.

(** [previousData]: how far the sector lies into its 0x1000-byte XTS block. *)
Lemma previousData_range (x : Z) :
  0 <= s32 (u64 (u64 x - s32 (Z.land (u64 x) 0xFFFFF000))) < 0x1000.
Proof.
  set (y := u64 x). rewrite land_mask.
  set (q := y mod 2 ^ 32 / 4096).
  pose proof (Z.mod_pos_bound y (2 ^ 32) ltac:(lia)) as Hy.
  pose proof (Z.div_mod (y mod 2 ^ 32) 4096 ltac:(lia)) as Hdm.
  pose proof (Z.mod_pos_bound (y mod 2 ^ 32) 4096 ltac:(lia)) as Hr.
  fold q in Hdm.
  rewrite (s32_unique _ (y mod 2 ^ 32 mod 4096)); [lia | | lia].
  rewrite u32_u64, u32_sub_s32, <- u32_u32_sub. unfold u32 at 2.
  f_equal. lia.
Qed.

(** ** The length of an extracted file *)

Section FileLength.
Variable P : Primitives.
Variable L : Layout.
Variable disk : string -> option (list byte).
Variable self : PKG.
Variable node : Inode.

Hypothesis Hloc : 0 <= loc node.
Hypothesis Hblocks : 0 <= Blocks node.
Hypothesis Hsize : (Blocks node - 1) * 0x10000 < Size node <= Blocks node * 0x10000.
Hypothesis Hmap :
  loc node + Blocks node < Z.of_nat (length (sectorMap self)) <= 2 ^ 31.
Hypothesis Hstored :
  forall j, 0 <= j < Blocks node ->
    u64 (nth (Z.to_nat (loc node + j + 1)) (sectorMap self) 0
         - nth (Z.to_nat (loc node + j)) (sectorMap self) 0) <= 0x10000.

Lemma ExtractFiles_block_size (j : Z) (st : Blocks_) :
  0 <= j < Blocks node -> block_inv j st ->
  exists st' chunk,
    ExtractFiles_block P L self (s32 (loc node)) (s32 (Blocks node))
      (s32 (Size node)) j st = Normal st'
    /\ block_inv (j + 1) st'
    /\ inflated st' = inflated st ++ chunk
    /\ Z.of_nat (length chunk)
       = (if j <? Blocks node - 1 then 0x10000 else Size node - j * 0x10000).
Proof.
  intros Hj (Hdd & Hdec & Hsd).
  unfold ExtractFiles_block.
  rewrite (s32_small (loc node)) by lia.
  rewrite (s32_small (Blocks node)) by lia.
  rewrite (s32_small (loc node + j)) by lia.
  rewrite (s32_small (loc node + j + 1)) by lia.
  assert (Hidx : (0 <=? loc node + j) && (loc node + j <? Z.of_nat (length (sectorMap self)))
                 && (0 <=? loc node + j + 1)
                 && (loc node + j + 1 <? Z.of_nat (length (sectorMap self))) = true).
  { rewrite !andb_true_iff, !Z.leb_le, !Z.ltb_lt. lia. }
  rewrite Hidx. cbn [negb].
  set (sectorOffset := nth (Z.to_nat (loc node + j)) (sectorMap self) 0).
  pose proof (Hstored j Hj) as Hst. fold sectorOffset in Hst.
  set (sectorSize := u64 (nth (Z.to_nat (loc node + j + 1)) (sectorMap self) 0
                          - sectorOffset)) in *.
  pose proof (u64_range (nth (Z.to_nat (loc node + j + 1)) (sectorMap self) 0
                         - sectorOffset)) as Hss. fold sectorSize in Hss.
  pose proof (previousData_range (sectorOffset + pfsc_offset self)) as Hprev.
  set (previousData := s32 (u64 (u64 (sectorOffset + pfsc_offset self) - _))) in *.
  destruct (Seek _ _) as [ok f]. destruct (Read f _ _) as [pfsc f'].
  set (dec := Crypto.decryptPFS _ _ _ _ _ _).
  assert (Hdeclen : length dec = Z.to_nat 0x11000).
  { subst dec. unfold Crypto.decryptPFS. rewrite length_store_into, Nat2Z.id. exact Hdec. }
  assert (Hin : in_bounds previousData sectorSize dec = true).
  { apply in_bounds_true. rewrite Hdeclen, Z2Nat.id by lia. lia. }
  rewrite Hin. cbn [negb].
  set (dd := if sectorSize =? 0x10000 then _ else _).
  assert (Hddlen : length dd = Z.to_nat 0x10000).
  { subst dd. destruct (sectorSize =? 0x10000); [apply length_store_into|].
    destruct (sectorSize <? 0x10000); [|exact Hdd].
    unfold DecompressPFSC. rewrite length_store_into, Nat2Z.id. exact Hdd. }
  rewrite Hddlen, Z2Nat.id by lia.
  set (size_dec := s32 (size_decompressed st + 0x10000)).
  assert (Hsd' : u32 size_dec = u32 (0x10000 * (j + 1))).
  { subst size_dec. rewrite u32_s32, <- u32_u32_add, Hsd, u32_u32_add.
    f_equal. lia. }
  set (write_size := if j <? s32 (Blocks node - 1) then _ else _).
  assert (Hws : write_size
                = (if j <? Blocks node - 1 then 0x10000 else Size node - j * 0x10000)
                /\ 0 <= write_size <= 0x10000).
  { subst write_size. rewrite (s32_small (Blocks node - 1)) by lia.
    destruct (j <? Blocks node - 1) eqn:Hlast; [lia|].
    apply Z.ltb_ge in Hlast.
    assert (Hval : u32 (u64 (0x10000 - s32 (size_dec - s32 (Size node))))
                   = Size node - j * 0x10000).
    { rewrite u32_u64, u32_sub_s32.
      replace (0x10000 - (size_dec - s32 (Size node)))
        with (0x10000 - size_dec + s32 (Size node)) by lia.
      rewrite u32_add_s32.
      replace (0x10000 - size_dec + Size node)
        with (0x10000 + Size node - size_dec) by lia.
      rewrite <- u32_sub_u32, Hsd', u32_sub_u32.
      replace (0x10000 + Size node - 0x10000 * (j + 1))
        with (Size node - j * 0x10000) by lia.
      apply u32_small. lia. }
    rewrite Hval. lia. }
  destruct Hws as [Hws Hwr].
  destruct (0x10000 <? write_size) eqn:Hover; [apply Z.ltb_lt in Hover; lia|].
  eexists. exists (firstn (Z.to_nat write_size) dd).
  split; [reflexivity|]. cbn [inflated decompressed pfs_decrypted size_decompressed].
  split; [unfold block_inv; cbn [decompressed pfs_decrypted size_decompressed]; auto|].
  split; [reflexivity|].
  rewrite length_take, Hddlen, <- Hws. lia.
Qed.


End FileLength.





(** ** The order of the workers *)









Lemma interleave_perm (picks : list nat) (queues : list (list Z)) :
  Permutation (interleave picks queues) (concat queues).
Proof.
  revert queues. induction picks as [|t picks IH]; intros queues.
  - reflexivity.
  - cbn [interleave].
    destruct (queues !! t) as [[|i q]|] eqn:E; try apply IH.
    rewrite IH.
    rewrite <- (take_drop_middle queues t (i :: q) E) at 2.
    rewrite insert_take_drop by (eapply lookup_lt_Some; exact E).
    rewrite !concat_app. cbn [concat].
    change ((i :: q) ++ concat (drop (S t) queues))
      with (i :: (q ++ concat (drop (S t) queues))).
    apply Permutation_middle.
Qed.


Section Order.
Variable P : Primitives.
Variable L : Layout.
Variable disk : string -> option (list byte).









End Order.

(** Two dirents of one name in a directory give two rows of the file table
    with one path. *)
Lemma dirent_loop_same_name :
  table_and_paths
    (dirent_loop 8 0 false
       (mkWalk (set_extract_path (PKG_new x00) "out") Sample.empty_world
          0 0 0 true false block_same_name))
  = Some (fsTable pkg_same_path, extractPaths pkg_same_path).
Proof. vm_compute. reflexivity. Qed.



(** ** [GetPFSCOffset] *)

Lemma GetPFSCOffset_from_Normal (img : list byte) (size : Z) (fuel : nat) :
  size <= 0xFFFF0000 ->
  forall k off, 0 <= k ->
    GetPFSCOffset_from fuel img size (pfsc_stride k) = Normal off ->
    (off = 0xFFFFFFFF
     /\ forall j, k <= j -> pfsc_stride j < size ->
                  le_at (pfsc_stride j) 4 img <> PfscMagic)
    \/ (exists k', k <= k' /\ off = pfsc_stride k' /\ off < size
        /\ le_at off 4 img = PfscMagic
        /\ forall j, k <= j < k' -> le_at (pfsc_stride j) 4 img <> PfscMagic).
Proof.
  intros Hsize. induction fuel as [|fuel IH]; intros k off Hk; cbn [GetPFSCOffset_from].
  - discriminate.
  - destruct (pfsc_stride k <? size) eqn:Elt.
    + apply Z.ltb_lt in Elt.
      destruct (in_bounds (pfsc_stride k) 4 img); [|discriminate].
      destruct (le_at (pfsc_stride k) 4 img =? PfscMagic) eqn:Em.
      * apply Z.eqb_eq in Em. intros [= <-]. right. exists k.
        repeat split; auto; try lia.
      * apply Z.eqb_neq in Em.
        replace (u32 (pfsc_stride k + 0x10000)) with (pfsc_stride (k + 1)).
        2:{ unfold u32, pfsc_stride in *. rewrite Z.mod_small; lia. }
        intros H. apply IH in H; [|lia].
        destruct H as [[-> Hno] | (k' & Hk' & -> & Hlt & Hm & Hno)].
        -- left. split; [reflexivity|]. intros j Hj Hjs.
           destruct (Z.eq_dec j k) as [->|]; [exact Em | apply Hno; lia].
        -- right. exists k'. repeat split; auto; try lia.
           intros j Hj. destruct (Z.eq_dec j k) as [->|]; [exact Em | apply Hno; lia].
    + apply Z.ltb_ge in Elt. intros [= <-]. left. split; [reflexivity|].
      intros j Hj Hjs. unfold pfsc_stride in *. lia.
Qed.

(** X1. When [GetPFSCOffset] returns an offset other than its "not found"
    value, that offset is 0x20000 + 0x10000 * k for some k, lies below
    [size], holds the PFSC magic, and is the first such offset. The size is
    one the [u32] counter reaches without wrapping. *)
Theorem GetPFSCOffset_found (fuel : nat) (img : list byte) (size off : Z) :
  size <= 0xFFFF0000 ->
  GetPFSCOffset fuel img size = Normal off -> off <> 0xFFFFFFFF ->
  exists k, 0 <= k /\ off = pfsc_stride k /\ off < size
    /\ le_at off 4 img = PfscMagic
    /\ forall j, 0 <= j < k -> le_at (pfsc_stride j) 4 img <> PfscMagic.
Proof.
  intros Hsize H Hne. unfold GetPFSCOffset in H.
  change 0x20000 with (pfsc_stride 0) in H.
  apply GetPFSCOffset_from_Normal in H; [|exact Hsize|lia].
  destruct H as [[-> _] | (k' & Hk' & Ho & Hlt & Hm & Hno)]; [congruence|].
  exists k'. auto.
Qed.

Lemma GetPFSCOffset_found_witness :
  exists k, 0 <= k /\ 0x30000 = pfsc_stride k /\ 0x30000 < 0x40000
    /\ le_at 0x30000 4 (image_with_magic 0x40000 0x30000) = PfscMagic
    /\ forall j, 0 <= j < k ->
         le_at (pfsc_stride j) 4 (image_with_magic 0x40000 0x30000) <> PfscMagic.
Proof.
  apply (GetPFSCOffset_found 8 (image_with_magic 0x40000 0x30000) 0x40000 0x30000).
  - lia.
  - vm_compute. reflexivity.
  - lia.
Defined.

(** X2. When [GetPFSCOffset] returns 0xFFFFFFFF, no offset
    0x20000 + 0x10000 * k below [size] holds the PFSC magic: the value is
    never the offset of a magic. *)
Theorem GetPFSCOffset_not_found (fuel : nat) (img : list byte) (size : Z) :
  size <= 0xFFFF0000 ->
  GetPFSCOffset fuel img size = Normal 0xFFFFFFFF ->
  no_magic_below img size.
Proof.
  intros Hsize H. unfold GetPFSCOffset in H.
  change 0x20000 with (pfsc_stride 0) in H.
  apply GetPFSCOffset_from_Normal in H; [|exact Hsize|lia].
  destruct H as [[_ Hno] | (k' & Hk' & Ho & Hlt & _)].
  - intros k Hk. apply Hno. exact Hk.
  - unfold pfsc_stride in *. lia.
Qed.

Lemma GetPFSCOffset_not_found_witness : no_magic_below (zeros 0x40000) 0x40000.
Proof.
  apply (GetPFSCOffset_not_found 8 (zeros 0x40000) 0x40000).
  - lia.
  - vm_compute. reflexivity.
Defined.

Lemma GetPFSCOffset_from_returns (img : list byte) (size : Z) (fuel : nat) :
  size <= 0xFFFF0000 ->
  (forall k, 0 <= k -> pfsc_stride k < size ->
             pfsc_stride k + 4 <= Z.of_nat (length img)) ->
  forall k, 0 <= k -> size <= pfsc_stride k + 0x10000 * (Z.of_nat fuel - 1) ->
    (1 <= fuel)%nat ->
    exists off, GetPFSCOffset_from fuel img size (pfsc_stride k) = Normal off.
Proof.
  intros Hsize Hin. induction fuel as [|fuel IH]; intros k Hk Hf H1; [lia|].
  cbn [GetPFSCOffset_from].
  destruct (pfsc_stride k <? size) eqn:Elt; [|eauto].
  apply Z.ltb_lt in Elt.
  assert (Eb : in_bounds (pfsc_stride k) 4 img = true).
  { apply in_bounds_true. specialize (Hin k Hk Elt). unfold pfsc_stride in *. lia. }
  rewrite Eb.
  destruct (le_at (pfsc_stride k) 4 img =? PfscMagic); [eauto|].
  replace (u32 (pfsc_stride k + 0x10000)) with (pfsc_stride (k + 1)).
  2:{ unfold u32, pfsc_stride in *. rewrite Z.mod_small; lia. }
  apply IH; unfold pfsc_stride in *; lia.
Qed.

(** X3. [GetPFSCOffset] returns, with a magic it found or with 0xFFFFFFFF,
    on every image in which each offset it looks at has its four bytes
    inside the image; the number of iterations is below [size / 0x10000]. *)
Theorem GetPFSCOffset_returns (fuel : nat) (img : list byte) (size : Z) :
  0 <= size <= 0xFFFF0000 ->
  (forall k, 0 <= k -> pfsc_stride k < size ->
             pfsc_stride k + 4 <= Z.of_nat (length img)) ->
  size < 0x10000 * Z.of_nat fuel ->
  exists off, GetPFSCOffset fuel img size = Normal off.
Proof.
  intros Hsize Hin Hfuel. unfold GetPFSCOffset.
  change 0x20000 with (pfsc_stride 0).
  apply GetPFSCOffset_from_returns; auto; unfold pfsc_stride; lia.
Qed.

Lemma GetPFSCOffset_returns_witness :
  exists off, GetPFSCOffset 8 (zeros 0x40000) 0x40000 = Normal off.
Proof.
  apply (GetPFSCOffset_returns 8 (zeros 0x40000) 0x40000).
  - lia.
  - intros k Hk Hlt. rewrite length_zeros. unfold pfsc_stride in *. lia.
  - lia.
Defined.

Lemma GetPFSCOffset_from_outside (img : list byte) (size : Z) (fuel : nat) :
  Z.of_nat (length img) = size -> size <= 0xFFFF0000 ->
  0 < size mod 0x10000 < 4 ->
  (forall k, 0 <= k -> pfsc_stride k + 4 <= size ->
             le_at (pfsc_stride k) 4 img <> PfscMagic) ->
  forall k, 0 <= k -> pfsc_stride k < size ->
    size - pfsc_stride k < 0x10000 * Z.of_nat fuel ->
    GetPFSCOffset_from fuel img size (pfsc_stride k)
    = Undefined "GetPFSCOffset: read outside pfs_image".
Proof.
  intros Hlen Hsize Hmod Hno.
  pose proof (Z.div_mod size 0x10000 ltac:(lia)) as Hdm.
  induction fuel as [|fuel IH]; intros k Hk Hlt Hf; [lia|].
  cbn [GetPFSCOffset_from].
  destruct (pfsc_stride k <? size) eqn:Elt; [|apply Z.ltb_ge in Elt; lia].
  destruct (in_bounds (pfsc_stride k) 4 img) eqn:Eb; [|reflexivity].
  apply in_bounds_true in Eb as (_ & _ & Eb). rewrite Hlen in Eb.
  destruct (le_at (pfsc_stride k) 4 img =? PfscMagic) eqn:Em.
  { apply Z.eqb_eq in Em. exfalso. exact (Hno k Hk Eb Em). }
  replace (u32 (pfsc_stride k + 0x10000)) with (pfsc_stride (k + 1)).
  2:{ unfold u32, pfsc_stride in *. rewrite Z.mod_small; lia. }
  apply IH; unfold pfsc_stride in *; lia.
Qed.

(** X4. On an image of more than 0x20000 bytes whose size is 1, 2 or 3
    bytes past a multiple of 0x10000 and that holds no magic before, the
    last [memcpy] of [GetPFSCOffset] reads beyond the end of the image:
    [i < size] lets the loop in with fewer than four bytes left. *)
Theorem GetPFSCOffset_reads_past_the_end (fuel : nat) (img : list byte) (size : Z) :
  Z.of_nat (length img) = size -> 0x20000 < size <= 0xFFFF0000 ->
  0 < size mod 0x10000 < 4 ->
  (forall k, 0 <= k -> pfsc_stride k + 4 <= size ->
             le_at (pfsc_stride k) 4 img <> PfscMagic) ->
  size < 0x10000 * Z.of_nat fuel ->
  GetPFSCOffset fuel img size = Undefined "GetPFSCOffset: read outside pfs_image".
Proof.
  intros Hlen Hsize Hmod Hno Hfuel. unfold GetPFSCOffset.
  change 0x20000 with (pfsc_stride 0).
  apply GetPFSCOffset_from_outside; auto; unfold pfsc_stride; lia.
Qed.

Lemma GetPFSCOffset_reads_past_the_end_witness :
  GetPFSCOffset 8 (zeros 0x30002) 0x30002
  = Undefined "GetPFSCOffset: read outside pfs_image".
Proof.
  apply (GetPFSCOffset_reads_past_the_end 8 (zeros 0x30002) 0x30002).
  - rewrite length_zeros. lia.
  - lia.
  - vm_compute. split; reflexivity.
  - intros k Hk Hle.
    assert (Hc : k = 0) by (unfold pfsc_stride in Hle; lia). subst k.
    vm_compute. discriminate.
  - lia.
Defined.

(** ** [PKG::Open] and the entry table *)

Lemma byte_to_Z_range (b : byte) : 0 <= byte_to_Z b < 256.
Proof.
  unfold byte_to_Z. pose proof (Byte.to_N_bounded b) as H. lia.
Qed.

Lemma le_decode_nonneg (l : list byte) : 0 <= le_decode l.
Proof.
  induction l as [|b l IH]; cbn [le_decode]; [lia|].
  pose proof (byte_to_Z_range b). lia.
Qed.

Section OpenTable.
Variable L : Layout.
Variable names : Z -> string.
Variable disk : string -> option (list byte).

Lemma read_entry_at (f : IOFile) :
  0 <= pos f -> pos f + 32 <= GetSize f ->
  read_entry f = (entry_at (bytes f) (pos f), mkFile (bytes f) (pos f + 32)).
Proof. intros Hp Hle. rewrite read_entry_inside by assumption. reflexivity. Qed.

Lemma table_at_S (content : list byte) (p : Z) (n : nat) :
  table_at content p (S n) = entry_at content p :: table_at content (p + 32) n.
Proof.
  unfold table_at. cbn [seq map]. f_equal.
  - f_equal. lia.
  - rewrite <- seq_shift, map_map. apply map_ext. intros i. f_equal. lia.
Qed.



(** Slots that are not called "param.sfo" are read one after the other. *)
Lemma Open_entries_table (k m : nat) (self : PKG) (es : list PKGEntry)
    (f : IOFile) (reason : string) :
  0 <= pos f -> pos f + 32 * Z.of_nat k <= GetSize f ->
  no_param_sfo names (table_at (bytes f) (pos f) k) = true ->
  Open_entries names (k + m) (set_pkgEntries self es) f reason
  = Open_entries names m
      (set_pkgEntries self (es ++ table_at (bytes f) (pos f) k))
      (mkFile (bytes f) (pos f + 32 * Z.of_nat k)) reason.
Proof.
  revert es f. induction k as [|k IH]; intros es f Hp Hle Hno.
  - cbn [Nat.add table_at seq map]. rewrite app_nil_r.
    replace (pos f + 32 * Z.of_nat 0) with (pos f) by lia.
    destruct f; reflexivity.
  - cbn [Nat.add Open_entries].
    rewrite read_entry_at by lia.
    rewrite table_at_S in Hno. cbn [no_param_sfo forallb] in Hno.
    apply andb_true_iff in Hno as [Hne Hno].
    apply negb_true_iff in Hne. rewrite Hne.
    change (set_pkgEntries (set_pkgEntries self es)
              (pkgEntries (set_pkgEntries self es) ++ [entry_at (bytes f) (pos f)]))
      with (set_pkgEntries self (es ++ [entry_at (bytes f) (pos f)])).
    rewrite IH; cbn [bytes pos]; [| lia | unfold GetSize in *; cbn [bytes]; lia | exact Hno].
    rewrite table_at_S, <- app_assoc. cbn [app].
    replace (pos f + 32 + 32 * Z.of_nat k) with (pos f + 32 * Z.of_nat (S k)) by lia.
    reflexivity.
Qed.

Lemma Read_open (content : list byte) (n : Z) (obj : list byte) :
  Read (IO.open content) n obj
  = (store_into n obj (slice 0 n content),
     mkFile content (Z.of_nat (length (slice 0 n content)))).
Proof. reflexivity. Qed.

(** [Open] up to its entry loop, on a file that holds the title id and
    the table. *)
Lemma Open_to_entries (self : PKG) (filepath reason : string) (content : list byte) :
  disk filepath = Some content ->
  magic (header_read self content) = 0x7F434E54 ->
  0x50 <= Z.of_nat (length content) ->
  pkg_table_entry_offset L (header_read self content) <= Z.of_nat (length content) ->
  Open L names disk self filepath reason
  = Open_entries names
      (Z.to_nat (pkg_table_entry_count L (header_read self content)))
      (set_pkgEntries
         (set_pkgTitleID
            (set_pkgheader (set_pkgSize self (Z.of_nat (length content)))
               (header_read self content))
            (slice 0x47 9 content)) [])
      (mkFile content (pkg_table_entry_offset L (header_read self content))) reason.
Proof.
  intros Hdisk Hmagic Hlen HT.
  unfold header_read in *. unfold Open. rewrite Hdisk, Read_open.
  change (pkgheader (set_pkgSize self (GetSize (IO.open content))))
    with (pkgheader self).
  set (hdr := store_into sizeof_PKGHeader (pkgheader self) _) in *.
  apply Z.eqb_eq in Hmagic. rewrite Hmagic. cbn [negb].
  rewrite Seek_ok by (unfold GetSize; cbn [bytes]; lia).
  rewrite Read_inside by (unfold GetSize; cbn [bytes pos]; lia).
  cbn [bytes pos].
  rewrite Seek_ok.
  2:{ unfold GetSize; cbn [bytes]. split; [|exact HT].
      unfold pkg_table_entry_offset, be_at, be_decode.
      apply le_decode_nonneg. }
  cbn [negb bytes].
  change (GetSize (IO.open content)) with (Z.of_nat (length content)).
  reflexivity.
Qed.
(** The slot called "param.sfo": [sfo] is loaded from its payload and the
    loop goes on from where that read ended; a seek past the end of the
    file ends [Open]. *)
Lemma Open_entries_sfo (m : nat) (self : PKG) (es : list PKGEntry)
    (f : IOFile) (reason : string) :
  0 <= pos f -> pos f + 32 <= GetSize f ->
  names (value (id (entry_at (bytes f) (pos f)))) = "param.sfo"%string ->
  Open_entries names (S m) (set_pkgEntries self es) f reason
  = let e := entry_at (bytes f) (pos f) in
    let self1 := set_pkgEntries self (es ++ [e]) in
    if value (offset e) <=? GetSize f then
      let got := slice (value (offset e)) (value (size e)) (bytes f) in
      Open_entries names m
        (set_sfo self1 (store_into (value (size e)) [] got))
        (mkFile (bytes f) (value (offset e) + Z.of_nat (length got))) reason
    else (false, set_sfo self1 [], "Failed to seek to param.sfo offset"%string).
Proof.
  intros Hp Hle Hname. cbn [Open_entries].
  rewrite read_entry_at by assumption.
  rewrite Hname. cbn [String.eqb Ascii.eqb Bool.eqb].
  cbv zeta.
  change (set_pkgEntries (set_pkgEntries self es)
            (pkgEntries (set_pkgEntries self es) ++ [entry_at (bytes f) (pos f)]))
    with (set_pkgEntries self (es ++ [entry_at (bytes f) (pos f)])).
  set (e := entry_at (bytes f) (pos f)).
  assert (Ho : 0 <= value (offset e)) by apply le_decode_nonneg.
  unfold Seek. cbn [bytes pos]. change (GetSize (mkFile (bytes f) (pos f + 32))) with (GetSize f).
  destruct (0 <=? value (offset e)) eqn:E0; [|apply Z.leb_gt in E0; lia].
  cbn [andb]. destruct (value (offset e) <=? GetSize f); cbn [negb]; reflexivity.
Qed.

Lemma Open_entries_prefix (m : nat) (self : PKG) (f : IOFile) (reason : string) :
  exists rest,
    pkgEntries (opened (Open_entries names m self f reason)) = pkgEntries self ++ rest.
Proof.
  revert self f. induction m as [|m IH]; intros self f.
  - exists []. cbn. rewrite app_nil_r. reflexivity.
  - cbn [Open_entries]. destruct (read_entry f) as [entry f1].
    destruct (String.eqb (names (value (id entry))) "param.sfo").
    + destruct (Seek f1 _) as [ok f2]. destruct ok; cbn [negb].
      * destruct (ReadRaw f2 _) as [got f3].
        destruct (IH (set_sfo (set_sfo (set_pkgEntries self (pkgEntries self ++ [entry])) [])
                        (store_into (value (size entry)) [] got)) f3) as [rest Hr].
        exists (entry :: rest). rewrite Hr. cbn [pkgEntries set_sfo set_pkgEntries].
        rewrite <- app_assoc. reflexivity.
      * exists [entry]. reflexivity.
    + destruct (IH (set_pkgEntries self (pkgEntries self ++ [entry])) f1) as [rest Hr].
      exists (entry :: rest). rewrite Hr. cbn [pkgEntries set_pkgEntries].
      rewrite <- app_assoc. reflexivity.
Qed.

(** X6. [Open] on a file that holds the title id and an entry table none of
    whose entries is called "param.sfo" returns true, leaves [failreason]
    and [sfo] alone, and records the size of the file, the header, the nine
    bytes at 0x47 as title id, and one entry per slot of the table, in the
    order of the file. *)
Theorem Open_reads_the_entry_table (self : PKG) (filepath reason : string)
    (content : list byte) :
  disk filepath = Some content ->
  magic (header_read self content) = 0x7F434E54 ->
  0x50 <= Z.of_nat (length content) ->
  table_offset L self content + 32 * Z.of_nat (table_count L self content)
    <= Z.of_nat (length content) ->
  no_param_sfo names
    (table_at content (table_offset L self content) (table_count L self content))
    = true ->
  exists self',
    Open L names disk self filepath reason = (true, self', reason)
    /\ pkgEntries self'
       = table_at content (table_offset L self content) (table_count L self content)
    /\ pkgSize self' = Z.of_nat (length content)
    /\ pkgheader self' = header_read self content
    /\ pkgTitleID self' = slice 0x47 9 content
    /\ sfo self' = sfo self.
Proof.
  intros Hdisk Hmagic Hlen HT Hno. unfold table_offset, table_count in *.
  rewrite (Open_to_entries self filepath reason content Hdisk Hmagic Hlen) by lia.
  set (n := Z.to_nat _) in *. set (T := pkg_table_entry_offset L _) in *.
  assert (HT0 : 0 <= T) by apply le_decode_nonneg.
  pose proof (fun self0 => Open_entries_table n 0 self0 [] (mkFile content T) reason)
    as Ht.
  cbn [bytes pos] in Ht. rewrite Nat.add_0_r in Ht.
  rewrite Ht; [|lia|unfold GetSize; cbn [bytes]; lia|exact Hno].
  cbn [Open_entries]. eexists. split; [reflexivity|].
  repeat split.
Qed.
Lemma length_table_at (content : list byte) (p : Z) (n : nat) :
  length (table_at content p n) = n.
Proof. unfold table_at. rewrite length_map, length_seq. reflexivity. Qed.

Lemma table_at_snoc (content : list byte) (p : Z) (n : nat) :
  table_at content p (S n)
  = table_at content p n ++ [entry_at content (p + 32 * Z.of_nat n)].
Proof. unfold table_at. rewrite seq_S, map_app. reflexivity. Qed.

Lemma Open_entries_first (m : nat) (self : PKG) (f : IOFile) (reason : string) :
  0 <= pos f -> pos f + 32 <= GetSize f ->
  exists rest,
    pkgEntries (opened (Open_entries names (S m) self f reason))
    = pkgEntries self ++ entry_at (bytes f) (pos f) :: rest.
Proof.
  intros Hp Hle. cbn [Open_entries]. rewrite read_entry_at by assumption.
  set (e := entry_at (bytes f) (pos f)).
  destruct (String.eqb (names (value (id e))) "param.sfo").
  - destruct (Seek _ _) as [ok f2]. destruct ok; cbn [negb].
    + destruct (ReadRaw f2 _) as [got f3].
      destruct (Open_entries_prefix m
                  (set_sfo (set_sfo (set_pkgEntries self (pkgEntries self ++ [e])) [])
                     (store_into (value (size e)) [] got)) f3 reason) as [rest Hr].
      exists rest. rewrite Hr. cbn [pkgEntries set_sfo set_pkgEntries].
      rewrite <- app_assoc. reflexivity.
    + exists []. reflexivity.
  - destruct (Open_entries_prefix m (set_pkgEntries self (pkgEntries self ++ [e]))
                (mkFile (bytes f) (pos f + 32)) reason) as [rest Hr].
    exists rest. rewrite Hr. cbn [pkgEntries set_pkgEntries].
    rewrite <- app_assoc. reflexivity.
Qed.

(** [Open] up to the slot called "param.sfo", the first of its name. *)
Lemma Open_to_param_sfo (self : PKG) (filepath reason : string)
    (content : list byte) (k m : nat) :
  disk filepath = Some content ->
  magic (header_read self content) = 0x7F434E54 ->
  0x50 <= Z.of_nat (length content) ->
  table_count L self content = (k + S m)%nat ->
  table_offset L self content + 32 * Z.of_nat (S k) <= Z.of_nat (length content) ->
  no_param_sfo names (table_at content (table_offset L self content) k) = true ->
  names (value (id (slot_entry L self content k))) = "param.sfo"%string ->
  exists self0,
    sfo self0 = sfo self
    /\ Open L names disk self filepath reason
       = let e := slot_entry L self content k in
         let self1 :=
           set_pkgEntries self0
             (table_at content (table_offset L self content) (S k)) in
         if value (offset e) <=? Z.of_nat (length content) then
           let got := slice (value (offset e)) (value (size e)) content in
           Open_entries names m
             (set_sfo self1 (store_into (value (size e)) [] got))
             (mkFile content (value (offset e) + Z.of_nat (length got))) reason
         else (false, set_sfo self1 [], "Failed to seek to param.sfo offset"%string).
Proof.
  intros Hdisk Hmagic Hlen Hn HT Hno Hname.
  unfold table_offset, table_count, slot_entry in *.
  rewrite (Open_to_entries self filepath reason content Hdisk Hmagic Hlen) by lia.
  rewrite Hn.
  set (T := pkg_table_entry_offset L _) in *.
  assert (HT0 : 0 <= T) by apply le_decode_nonneg.
  rewrite Open_entries_table; cbn [bytes pos];
    [|lia|unfold GetSize; cbn [bytes]; lia|exact Hno].
  rewrite Open_entries_sfo; cbn [bytes pos];
    [|lia|unfold GetSize; cbn [bytes]; lia|exact Hname].
  eexists. split; [|rewrite table_at_snoc; cbn [app]; reflexivity].
  reflexivity.
Qed.

(** X7. When the last slot of the table is the only one called "param.sfo"
    and its payload starts inside the file, [Open] returns true with one
    entry per slot and with [sfo] holding [size] bytes: the payload, with
    zeros for what the file does not hold. *)
Theorem Open_loads_param_sfo (self : PKG) (filepath reason : string)
    (content : list byte) (k : nat) :
  disk filepath = Some content ->
  magic (header_read self content) = 0x7F434E54 ->
  0x50 <= Z.of_nat (length content) ->
  table_count L self content = S k ->
  table_offset L self content + 32 * Z.of_nat (S k) <= Z.of_nat (length content) ->
  no_param_sfo names (table_at content (table_offset L self content) k) = true ->
  names (value (id (slot_entry L self content k))) = "param.sfo"%string ->
  value (offset (slot_entry L self content k)) <= Z.of_nat (length content) ->
  exists self',
    Open L names disk self filepath reason = (true, self', reason)
    /\ pkgEntries self' = table_at content (table_offset L self content) (S k)
    /\ sfo self'
       = store_into (value (size (slot_entry L self content k))) []
           (slice (value (offset (slot_entry L self content k)))
              (value (size (slot_entry L self content k))) content).
Proof.
  intros Hdisk Hmagic Hlen Hn HT Hno Hname Ho.
  destruct (Open_to_param_sfo self filepath reason content k 0 Hdisk Hmagic Hlen)
    as (self0 & _ & E); auto.
  { rewrite Hn. lia. }
  rewrite E. cbv zeta. apply Z.leb_le in Ho. rewrite Ho.
  cbn [Open_entries]. eexists. split; [reflexivity|]. split; reflexivity.
Qed.

(** X8. [Open] does not go back to the table after it has loaded
    "param.sfo": the entry it records next is made of the 32 bytes that
    follow the payload, not of the next slot. *)
Theorem Open_reads_on_after_param_sfo (self : PKG) (filepath reason : string)
    (content : list byte) (k : nat) :
  disk filepath = Some content ->
  magic (header_read self content) = 0x7F434E54 ->
  0x50 <= Z.of_nat (length content) ->
  (S k < table_count L self content)%nat ->
  table_offset L self content + 32 * Z.of_nat (S k) <= Z.of_nat (length content) ->
  no_param_sfo names (table_at content (table_offset L self content) k) = true ->
  names (value (id (slot_entry L self content k))) = "param.sfo"%string ->
  value (offset (slot_entry L self content k))
    + value (size (slot_entry L self content k)) + 32 <= Z.of_nat (length content) ->
  nth_error (pkgEntries (opened (Open L names disk self filepath reason))) (S k)
  = Some (entry_at content
            (value (offset (slot_entry L self content k))
             + value (size (slot_entry L self content k)))).
Proof.
  intros Hdisk Hmagic Hlen Hn HT Hno Hname Hend.
  set (e := slot_entry L self content k) in *.
  assert (Ho : 0 <= value (offset e)) by apply le_decode_nonneg.
  assert (Hs : 0 <= value (size e)) by apply le_decode_nonneg.
  destruct (Open_to_param_sfo self filepath reason content k
              (S (table_count L self content - S (S k)))
              Hdisk Hmagic Hlen) as (self0 & _ & E); auto.
  { lia. }
  rewrite E. cbv zeta. fold e.
  destruct (value (offset e) <=? Z.of_nat (length content)) eqn:El;
    [|apply Z.leb_gt in El; lia].
  rewrite length_slice by lia. rewrite Z2Nat.id by lia.
  match goal with |- context [Open_entries names (S ?m) ?s ?f reason] =>
    destruct (Open_entries_first m s f reason) as [rest Hr]
  end.
  { cbn [pos]. lia. }
  { unfold GetSize. cbn [bytes pos]. lia. }
  rewrite Hr. cbn [pkgEntries set_sfo set_pkgEntries bytes pos].
  rewrite nth_error_app2 by (rewrite length_table_at; lia).
  rewrite length_table_at, Nat.sub_diag. reflexivity.
Qed.

(** X9. When the payload of the first slot called "param.sfo" starts past
    the end of the file, [Open] returns false with the message of that
    seek, [sfo] is left empty, and the entries are those of the slots up
    to this one. *)
Theorem Open_param_sfo_outside (self : PKG) (filepath reason : string)
    (content : list byte) (k : nat) :
  disk filepath = Some content ->
  magic (header_read self content) = 0x7F434E54 ->
  0x50 <= Z.of_nat (length content) ->
  (k < table_count L self content)%nat ->
  table_offset L self content + 32 * Z.of_nat (S k) <= Z.of_nat (length content) ->
  no_param_sfo names (table_at content (table_offset L self content) k) = true ->
  names (value (id (slot_entry L self content k))) = "param.sfo"%string ->
  Z.of_nat (length content) < value (offset (slot_entry L self content k)) ->
  exists self',
    Open L names disk self filepath reason
    = (false, self', "Failed to seek to param.sfo offset"%string)
    /\ sfo self' = []
    /\ pkgEntries self' = table_at content (table_offset L self content) (S k).
Proof.
  intros Hdisk Hmagic Hlen Hn HT Hno Hname Ho.
  destruct (Open_to_param_sfo self filepath reason content k
              (table_count L self content - S k) Hdisk Hmagic Hlen)
    as (self0 & _ & E); auto.
  { lia. }
  rewrite E. cbv zeta. apply Z.leb_gt in Ho. rewrite Ho.
  eexists. split; [reflexivity|]. split; reflexivity.
Qed.


End OpenTable.

Lemma Open_reads_the_entry_table_witness :
  exists self',
    Open Sample.layout Sample.names (Sample.disk_with Sample.pkg_three)
      (PKG_new x00) "game.pkg" "" = (true, self', ""%string)
    /\ pkgEntries self'
       = table_at Sample.pkg_three
           (table_offset Sample.layout (PKG_new x00) Sample.pkg_three)
           (table_count Sample.layout (PKG_new x00) Sample.pkg_three)
    /\ pkgSize self' = Z.of_nat (length Sample.pkg_three)
    /\ pkgheader self' = header_read (PKG_new x00) Sample.pkg_three
    /\ pkgTitleID self' = slice 0x47 9 Sample.pkg_three
    /\ sfo self' = sfo (PKG_new x00).
Proof.
  apply (Open_reads_the_entry_table Sample.layout Sample.names
           (Sample.disk_with Sample.pkg_three) (PKG_new x00) "game.pkg" ""
           Sample.pkg_three).
  - reflexivity.
  - vm_compute. reflexivity.
  - vm_compute. discriminate.
  - vm_compute. discriminate.
  - vm_compute. reflexivity.
Defined.

Lemma Open_loads_param_sfo_witness :
  exists self',
    Open Sample.layout Sample.names (Sample.disk_with pkg_sfo_last)
      (PKG_new x00) "game.pkg" "" = (true, self', ""%string)
    /\ pkgEntries self'
       = table_at pkg_sfo_last
           (table_offset Sample.layout (PKG_new x00) pkg_sfo_last) 2
    /\ sfo self'
       = store_into
           (value (size (slot_entry Sample.layout (PKG_new x00) pkg_sfo_last 1))) []
           (slice (value (offset (slot_entry Sample.layout (PKG_new x00) pkg_sfo_last 1)))
              (value (size (slot_entry Sample.layout (PKG_new x00) pkg_sfo_last 1)))
              pkg_sfo_last).
Proof.
  apply (Open_loads_param_sfo Sample.layout Sample.names
           (Sample.disk_with pkg_sfo_last) (PKG_new x00) "game.pkg" ""
           pkg_sfo_last 1).
  - reflexivity.
  - vm_compute. reflexivity.
  - vm_compute. discriminate.
  - vm_compute. reflexivity.
  - vm_compute. discriminate.
  - vm_compute. reflexivity.
  - vm_compute. reflexivity.
  - vm_compute. discriminate.
Defined.

Lemma Open_reads_on_after_param_sfo_witness :
  nth_error
    (pkgEntries
       (opened (Open Sample.layout Sample.names (Sample.disk_with pkg_sfo_first)
                  (PKG_new x00) "game.pkg" ""))) 1
  = Some (entry_at pkg_sfo_first
            (value (offset (slot_entry Sample.layout (PKG_new x00) pkg_sfo_first 0))
             + value (size (slot_entry Sample.layout (PKG_new x00) pkg_sfo_first 0)))).
Proof.
  apply (Open_reads_on_after_param_sfo Sample.layout Sample.names
           (Sample.disk_with pkg_sfo_first) (PKG_new x00) "game.pkg" ""
           pkg_sfo_first 0).
  - reflexivity.
  - vm_compute. reflexivity.
  - vm_compute. discriminate.
  - vm_compute. lia.
  - vm_compute. discriminate.
  - vm_compute. reflexivity.
  - vm_compute. reflexivity.
  - vm_compute. discriminate.
Defined.

Lemma Open_param_sfo_outside_witness :
  exists self',
    Open Sample.layout Sample.names (Sample.disk_with pkg_sfo_outside)
      (PKG_new x00) "game.pkg" ""
    = (false, self', "Failed to seek to param.sfo offset"%string)
    /\ sfo self' = []
    /\ pkgEntries self'
       = table_at pkg_sfo_outside
           (table_offset Sample.layout (PKG_new x00) pkg_sfo_outside) 1.
Proof.
  apply (Open_param_sfo_outside Sample.layout Sample.names
           (Sample.disk_with pkg_sfo_outside) (PKG_new x00) "game.pkg" ""
           pkg_sfo_outside 0).
  - reflexivity.
  - vm_compute. reflexivity.
  - vm_compute. discriminate.
  - vm_compute. lia.
  - vm_compute. discriminate.
  - vm_compute. reflexivity.
  - vm_compute. reflexivity.
  - vm_compute. reflexivity.
Defined.

(** ** The files of the entry loop *)

Lemma skipn_repeat_sub {A : Type} (x : A) (k n : nat) :
  skipn k (repeat x n) = repeat x (n - k).
Proof.
  revert k. induction n as [|n IH]; intros [|k]; cbn; auto.
Qed.

Lemma store_into_nil (n : Z) (src : list byte) :
  (length src <= Z.to_nat n)%nat ->
  store_into n [] src = src ++ zeros (n - Z.of_nat (length src)).
Proof.
  intros Hle. unfold store_into, zeros. cbn [app].
  rewrite skipn_repeat_sub.
  replace (Z.to_nat n - length src)%nat
    with (Z.to_nat (n - Z.of_nat (length src))) by lia.
  apply firstn_all2. rewrite length_app, repeat_length. lia.
Qed.

Lemma length_slice_le (off n : Z) (l : list byte) :
  (length (slice off n l) <= Z.to_nat n)%nat.
Proof. unfold slice. rewrite length_take. lia. Qed.

Lemma store_into_dumped (entry : PKGEntry) (content : list byte) :
  store_into (value (size entry)) []
    (slice (value (offset entry)) (value (size entry)) content)
  = dumped entry content.
Proof. apply store_into_nil, length_slice_le. Qed.

Lemma Seek_outside (f : IOFile) (off : Z) :
  GetSize f < off -> Seek f off = (false, f).
Proof.
  intros H. unfold Seek.
  destruct (off <=? GetSize f) eqn:E; [apply Z.leb_le in E; lia|].
  rewrite andb_false_r. reflexivity.
Qed.

Lemma append_nonempty (p q : string) : p <> ""%string -> p // q <> ""%string.
Proof.
  intros Hp. unfold Path.append, Path.starts_with.
  destruct (String.prefix "/" q) eqn:E.
  - destruct q; [discriminate E | discriminate].
  - destruct (String.eqb p "") eqn:Ep; [apply String.eqb_eq in Ep; contradiction|].
    destruct p as [|c p]; [contradiction|].
    destruct (Path.ends_with _ _); discriminate.
Qed.

Lemma sce_sys_nonempty (extract s : string) : extract // "sce_sys" // s <> ""%string.
Proof.
  apply append_nonempty. unfold Path.append at 1.
  change (Path.starts_with "sce_sys" "/") with false. cbv iota.
  destruct (String.eqb extract "") eqn:E; [discriminate|].
  apply String.eqb_neq in E. destruct extract; [contradiction|].
  destruct (Path.ends_with _ _); discriminate.
Qed.

Lemma files_write_file (p : string) (data : list byte) (w : World) :
  p <> ""%string -> files (write_file p data w) !! p = Some data.
Proof.
  intros Hp. unfold write_file. apply String.eqb_neq in Hp. rewrite Hp.
  cbn [files]. apply lookup_insert_eq.
Qed.

Section EntryFiles.
Variable P : Primitives.
Variable names : Z -> string.

Lemma derive_keys_size (fr : Frame) (entry : PKGEntry) :
  GetSize (file (derive_keys P fr entry)) = GetSize (file fr).
Proof. unfold GetSize. rewrite derive_keys_bytes. reflexivity. Qed.

Lemma derive_keys_extract_path (fr : Frame) (entry : PKGEntry) :
  extract_path (obj (derive_keys P fr entry)) = extract_path (obj fr).
Proof.
  destruct (derive_keys_frame P fr entry) as (Ho & _).
  unfold outside_keys in Ho. congruence.
Qed.

(** X11. An iteration of the entry loop on an entry that is not one of the
    NPDRM entries 0x400..0x403 and whose offset lies inside the package
    goes on to the next, and leaves at sce_sys/<name> (sce_sys/<id in
    decimal> for an entry without a name) a file of exactly [size] bytes:
    the bytes of the package from [offset] on, followed by zeros when the
    package ends before. *)
Theorem Extract_entry_dumps_the_payload (fr : Frame) :
  0 <= pos (file fr) -> pos (file fr) + 32 <= GetSize (file fr) ->
  value (offset (current_entry fr)) <= GetSize (file fr) ->
  is_npdrm (value (id (current_entry fr))) = false ->
  exists fr',
    Extract_entry P names fr = Continue fr'
    /\ files (world fr') !! dump_path names (extract_path (obj fr)) (current_entry fr)
       = Some (dumped (current_entry fr) (bytes (file fr)))
    /\ Z.of_nat (length (dumped (current_entry fr) (bytes (file fr))))
       = value (size (current_entry fr)).
Proof.
  intros Hp Hle Ho Hnp. unfold Extract_entry, dump_path.
  rewrite read_entry_at by assumption. fold (current_entry fr).
  set (e := current_entry fr) in *.
  assert (Ho0 : 0 <= value (offset e)) by apply le_decode_nonneg.
  assert (Hs0 : 0 <= value (size e)) by apply le_decode_nonneg.
  assert (Hlen : Z.of_nat (length (dumped e (bytes (file fr)))) = value (size e)).
  { rewrite <- store_into_dumped, length_store_into. lia. }
  frame_simpl.
  destruct (String.eqb (names (value (id e))) "") eqn:En.
  - rewrite Seek_ok by (unfold GetSize in *; cbn [bytes]; lia). cbn [negb].
    unfold ReadRaw at 1. cbn [bytes pos]. rewrite store_into_dumped.
    destruct (Seek _ _) as [ok2 f2]. frame_simpl.
    eexists. split; [reflexivity|]. frame_simpl.
    split; [|exact Hlen]. apply files_write_file, sce_sys_nonempty.
  - match goal with |- context [derive_keys P ?x e] =>
      pose proof (derive_keys_bytes P x e) as Hb;
      pose proof (derive_keys_extract_path x e) as Hep;
      set (fr1 := derive_keys P x e) in *
    end.
    frame_simpl. rewrite Hep.
    assert (Hf : exists p1, file fr1 = mkFile (bytes (file fr)) p1).
    { exists (pos (file fr1)). rewrite <- Hb. destruct (file fr1); reflexivity. }
    destruct Hf as [p1 Hf]. rewrite Hf.
    rewrite Seek_ok by (unfold GetSize in *; cbn [bytes]; lia). cbn [negb].
    unfold ReadRaw at 1. cbn [bytes pos]. rewrite store_into_dumped.
    rewrite Hnp.
    destruct (Seek _ _) as [ok2 f2]. frame_simpl.
    eexists. split; [reflexivity|]. frame_simpl.
    split; [|exact Hlen]. apply files_write_file, sce_sys_nonempty.
Qed.

(** X12. When the offset of an entry lies past the end of the package, the
    iteration ends [Extract] with false and the message of the entry seek;
    the output file of the entry has been created by then and is left
    empty. *)
Theorem Extract_entry_seek_fails (fr : Frame) :
  0 <= pos (file fr) -> pos (file fr) + 32 <= GetSize (file fr) ->
  GetSize (file fr) < value (offset (current_entry fr)) ->
  exists fr',
    Extract_entry P names fr = Return false fr'
    /\ failreason fr' = seek_failed
    /\ files (world fr') !! dump_path names (extract_path (obj fr)) (current_entry fr)
       = Some [].
Proof.
  intros Hp Hle Ho. unfold Extract_entry, dump_path.
  rewrite read_entry_at by assumption. fold (current_entry fr).
  set (e := current_entry fr) in *.
  frame_simpl.
  destruct (String.eqb (names (value (id e))) "") eqn:En.
  - rewrite Seek_outside by (unfold GetSize in *; cbn [bytes]; lia). cbn [negb].
    eexists. split; [reflexivity|]. frame_simpl.
    split; [reflexivity|]. apply files_write_file, sce_sys_nonempty.
  - match goal with |- context [derive_keys P ?x e] =>
      pose proof (derive_keys_size x e) as Hb;
      pose proof (derive_keys_extract_path x e) as Hep;
      set (fr1 := derive_keys P x e) in *
    end.
    frame_simpl. rewrite Hep.
    rewrite Seek_outside by (rewrite Hb; unfold GetSize in *; cbn [bytes]; lia).
    cbn [negb].
    eexists. split; [reflexivity|]. frame_simpl.
    split; [reflexivity|]. apply files_write_file, sce_sys_nonempty.
Qed.
End EntryFiles.

Lemma Extract_entry_dumps_the_payload_witness :
  exists fr',
    Extract_entry Sample.primitives Sample.names (Sample.header_of Sample.pkg_unknown)
    = Continue fr'
    /\ files (world fr')
         !! dump_path Sample.names
              (extract_path (obj (Sample.header_of Sample.pkg_unknown)))
              (current_entry (Sample.header_of Sample.pkg_unknown))
       = Some (dumped (current_entry (Sample.header_of Sample.pkg_unknown))
                 (bytes (file (Sample.header_of Sample.pkg_unknown))))
    /\ Z.of_nat
         (length (dumped (current_entry (Sample.header_of Sample.pkg_unknown))
                    (bytes (file (Sample.header_of Sample.pkg_unknown)))))
       = value (size (current_entry (Sample.header_of Sample.pkg_unknown))).
Proof.
  apply (Extract_entry_dumps_the_payload Sample.primitives Sample.names
           (Sample.header_of Sample.pkg_unknown)).
  - vm_compute. discriminate.
  - vm_compute. discriminate.
  - vm_compute. discriminate.
  - vm_compute. reflexivity.
Defined.

Lemma Extract_entry_seek_fails_witness :
  exists fr',
    Extract_entry Sample.primitives Sample.names
      (Sample.header_of Sample.pkg_bad_offset) = Return false fr'
    /\ failreason fr' = seek_failed
    /\ files (world fr')
         !! dump_path Sample.names
              (extract_path (obj (Sample.header_of Sample.pkg_bad_offset)))
              (current_entry (Sample.header_of Sample.pkg_bad_offset))
       = Some [].
Proof.
  apply (Extract_entry_seek_fails Sample.primitives Sample.names
           (Sample.header_of Sample.pkg_bad_offset)).
  - vm_compute. discriminate.
  - vm_compute. discriminate.
  - vm_compute. reflexivity.
Defined.

(** ** The entry keys *)

Lemma read_arrays_inside (count : nat) (sz : Z) (f : IOFile) (arrs : list (list byte)) :
  0 <= pos f -> 0 <= sz -> pos f + sz * Z.of_nat count <= GetSize f ->
  read_arrays count sz f arrs
  = (map (fun i => slice (pos f + sz * Z.of_nat i) sz (bytes f)) (seq 0 count),
     mkFile (bytes f) (pos f + sz * Z.of_nat count)).
Proof.
  revert f arrs. induction count as [|n IH]; intros f arrs Hp Hsz Hle.
  - cbn [read_arrays seq map]. destruct f; cbn [bytes pos]. f_equal. f_equal. lia.
  - cbn [read_arrays]. rewrite Read_inside by lia.
    rewrite IH; cbn [bytes pos]; [| lia | lia | unfold GetSize in *; cbn [bytes]; lia].
    cbn [seq map]. f_equal.
    + f_equal; [f_equal; lia|].
      rewrite <- seq_shift, map_map. apply map_ext. intros i. f_equal. lia.
    + f_equal. lia.
Qed.

Section EntryKeys.
Variable P : Primitives.
Variable names : Z -> string.

(** X13. On the entry 0x10 (with a name, and its payload of 0x800 bytes
    inside the package) the iteration stores in [dk3_] what
    [RSA2048Decrypt] makes, with the DK3 keyset, of [key1[3]]: the 256
    bytes at [offset + 0x400], after the 32-byte seed digest, the seven
    32-byte digests and three 256-byte keys. *)
Theorem entry_keys_give_dk3 (fr : Frame) :
  0 <= pos (file fr) -> pos (file fr) + 32 <= GetSize (file fr) ->
  value (id (current_entry fr)) = 0x10 ->
  names 0x10 <> ""%string ->
  value (offset (current_entry fr)) + 0x800 <= GetSize (file fr) ->
  dk3_ (obj (flow_frame (Extract_entry P names fr)))
  = Crypto.RSA2048Decrypt P (dk3_ (obj fr))
      (key1_3 (current_entry fr) (bytes (file fr))) true.
Proof.
  intros Hp Hle Hid Hname Ho. unfold Extract_entry, key1_3.
  rewrite read_entry_at by assumption. fold (current_entry fr).
  set (e := current_entry fr) in *.
  assert (Ho0 : 0 <= value (offset e)) by apply le_decode_nonneg.
  frame_simpl. rewrite Hid.
  apply String.eqb_neq in Hname. rewrite Hname.
  change (is_npdrm 16) with false. cbv iota.
  match goal with |- context [derive_keys P ?x e] => set (fr0 := x) end.
  assert (Hd : dk3_ (obj (derive_keys P fr0 e))
               = Crypto.RSA2048Decrypt P (dk3_ (obj fr))
                   (slice (value (offset e) + 0x400) 256 (bytes (file fr))) true).
  { unfold derive_keys. rewrite Hid.
    change (16 =? 1) with false. change (16 =? 16) with true. cbv iota.
    subst fr0. frame_simpl.
    rewrite Seek_ok by (unfold GetSize in *; cbn [bytes]; lia).
    rewrite Read_inside by (unfold GetSize in *; cbn [bytes pos]; lia).
    cbn [bytes pos].
    rewrite read_arrays_inside
      by (unfold GetSize in *; cbn [bytes pos]; lia).
    cbn [bytes pos].
    rewrite read_arrays_inside
      by (unfold GetSize in *; cbn [bytes pos]; lia).
    frame_simpl. cbn [dk3_ set_dk3_ seq map nth].
    f_equal. f_equal. lia. }
  pose proof (derive_keys_frame P fr0 e) as (Hout & _).
  set (fr1 := derive_keys P fr0 e) in *.
  destruct (Seek (file fr1) (value (offset e))) as [ok f0]. destruct ok; cbn [negb].
  - destruct (ReadRaw f0 _) as [got f1]. frame_simpl.
    destruct (Seek f1 _) as [ok2 f2]. cbn [flow_frame]. frame_simpl. exact Hd.
  - cbn [flow_frame]. frame_simpl. exact Hd.
Qed.
End EntryKeys.

Lemma entry_keys_give_dk3_witness :
  dk3_ (obj (flow_frame
               (Extract_entry Sample.primitives Sample.names
                  (Sample.header_of pkg_entry_keys))))
  = Crypto.RSA2048Decrypt Sample.primitives
      (dk3_ (obj (Sample.header_of pkg_entry_keys)))
      (key1_3 (current_entry (Sample.header_of pkg_entry_keys))
         (bytes (file (Sample.header_of pkg_entry_keys)))) true.
Proof.
  apply (entry_keys_give_dk3 Sample.primitives Sample.names
           (Sample.header_of pkg_entry_keys)).
  - vm_compute. discriminate.
  - vm_compute. discriminate.
  - vm_compute. reflexivity.
  - vm_compute. discriminate.
  - vm_compute. discriminate.
Defined.

(** ** The tables of the walker *)






Section WalkerTables.
Variable P : Primitives.
Variable L : Layout.






End WalkerTables.

Section ExtractTables.
Variable P : Primitives.
Variable L : Layout.
Variable names : Z -> string.
Variable disk : string -> option (list byte).






(** X16. On an object in which every row has a path, a call of
    [ExtractFiles] that returns leaves the object as it was:
    [extractPaths[inode_number]] finds its key and inserts nothing. *)
Theorem ExtractFiles_keeps_the_object (self self' : PKG) (w w' : World) (index : Z) :
  rows_have_paths self ->
  ExtractFiles P L disk self w index = Normal (self', w') ->
  self' = self.
Proof.
  intros Hr. unfold ExtractFiles.
  destruct (index <? 0); [discriminate|].
  destruct (nth_error (fsTable self) (Z.to_nat index)) as [t|] eqn:Et; [|discriminate].
  assert (Hp : is_Some (extractPaths self !! s32 (inode t))).
  { unfold rows_have_paths in Hr. rewrite List.Forall_forall in Hr. apply Hr.
    eapply nth_error_In; eauto. }
  destruct Hp as [path Hp].
  destruct (s32 (type_ t) =? PFS_FILE).
  - rewrite Hp. cbn [default]. rewrite insert_id by exact Hp.
    assert (Hs : set_extractPaths self (extractPaths self) = self)
      by (destruct self; reflexivity).
    rewrite Hs.
    destruct (if s32 (inode t) <? 0 then None else _) as [node|]; [|discriminate].
    destruct (ExtractFiles_blocks _ _ _ _ _ _ _ _ _) as [st| | |]; cbn [bind];
      try discriminate.
    intros [= <- _]. reflexivity.
  - destruct (String.eqb (name t) "").
    + destruct (find_entry _ _) as [entry|].
      * destruct (Seek _ _) as [ok f]. destruct (ReadRaw f _) as [got f'].
        intros [= <- _]. reflexivity.
      * intros [= <- _]. reflexivity.
    + intros [= <- _]. reflexivity.
Qed.
End ExtractTables.



Lemma ExtractFiles_keeps_the_object_witness :
  fst (returned (ExtractFiles Sample.primitives Sample.layout
                   (Sample.disk_with two_sectors) pkg_two_paths Sample.empty_world 2))
  = pkg_two_paths.
Proof.
  apply (ExtractFiles_keeps_the_object Sample.primitives Sample.layout
           (Sample.disk_with two_sectors) pkg_two_paths _ Sample.empty_world
           (snd (returned (ExtractFiles Sample.primitives Sample.layout
                             (Sample.disk_with two_sectors) pkg_two_paths
                             Sample.empty_world 2))) 2).
  - unfold rows_have_paths. repeat constructor; vm_compute; eauto.
  - vm_compute. reflexivity.
Defined.

(** ** The inodes of a block *)

Section Inodes.
Variable L : Layout.

Lemma inodes_at_cons (block : list byte) (j k : nat) :
  inodes_at L block j (S k)
  = inode_at L block (sizeof_Inode * Z.of_nat j) :: inodes_at L block (S j) k.
Proof. reflexivity. Qed.

Lemma read_inodes_from (block : list byte) (n j : nat) (acc nodes : list Inode) :
  read_inodes L n (sizeof_Inode * Z.of_nat j) block acc = Normal nodes ->
  exists k, (k <= n)%nat
    /\ nodes = acc ++ inodes_at L block j k
    /\ Forall (fun node => Mode node <> 0) (inodes_at L block j k)
    /\ (forall i, (j <= i < j + k)%nat ->
          sizeof_Inode * Z.of_nat i + sizeof_Inode <= Z.of_nat (length block))
    /\ ((k < n)%nat ->
        0x10000 <= sizeof_Inode * Z.of_nat (j + k)
        \/ le_at (sizeof_Inode * Z.of_nat (j + k) + ofs_Mode L) 2 block = 0).
Proof.
  revert j acc. induction n as [|n IH]; intros j acc; cbn [read_inodes].
  - intros [= <-]. exists 0%nat. cbn. rewrite app_nil_r.
    repeat split; auto; lia.
  - destruct (sizeof_Inode * Z.of_nat j <? 0x10000) eqn:Elt.
    2:{ apply Z.ltb_ge in Elt. intros [= <-]. exists 0%nat. cbn. rewrite app_nil_r.
        rewrite Nat.add_0_r. repeat split; auto; lia. }
    destruct (in_bounds (sizeof_Inode * Z.of_nat j + ofs_Mode L) 2 block);
      [|discriminate].
    destruct (le_at (sizeof_Inode * Z.of_nat j + ofs_Mode L) 2 block =? 0) eqn:Em.
    { apply Z.eqb_eq in Em. intros [= <-]. exists 0%nat. cbn. rewrite app_nil_r.
      rewrite Nat.add_0_r. repeat split; auto; lia. }
    apply Z.eqb_neq in Em.
    destruct (in_bounds (sizeof_Inode * Z.of_nat j) sizeof_Inode block) eqn:Eb;
      [|discriminate].
    apply in_bounds_true in Eb as (_ & _ & Eb).
    replace (sizeof_Inode * Z.of_nat j + sizeof_Inode)
      with (sizeof_Inode * Z.of_nat (S j)) by lia.
    fold (inode_at L block (sizeof_Inode * Z.of_nat j)).
    intros H. apply IH in H as (k & Hk & -> & Hm & Hin & Hstop).
    exists (S k). rewrite inodes_at_cons, <- app_assoc. cbn [app].
    split; [lia|]. split; [reflexivity|].
    split; [constructor; [exact Em | exact Hm]|].
    split.
    + intros i Hi. destruct (Nat.eq_dec i j) as [->|Hne]; [lia|]. apply Hin. lia.
    + intros Hlt. replace (j + S k)%nat with (S j + k)%nat by lia. apply Hstop. lia.
Qed.

(** X17. The inode loop of the walker, on a block of 0x10000 bytes,
    appends to the inode buffer the inodes at offsets 0, 0xA8, 0x150, .. in
    that order, up to the first one whose [Mode] is 0, which it finds
    within the first 391: at most 390 inodes, none with [Mode] 0. *)
Theorem read_inodes_reads_the_block (block : list byte) (acc nodes : list Inode) :
  Z.of_nat (length block) = 0x10000 ->
  read_inodes L 391 0 block acc = Normal nodes ->
  exists k, (k <= 390)%nat
    /\ nodes = acc ++ inodes_at L block 0 k
    /\ Forall (fun node => Mode node <> 0) (inodes_at L block 0 k)
    /\ le_at (sizeof_Inode * Z.of_nat k + ofs_Mode L) 2 block = 0.
Proof.
  intros Hlen H.
  change 0 with (sizeof_Inode * Z.of_nat 0) in H.
  apply read_inodes_from in H as (k & Hk & -> & Hm & Hin & Hstop).
  assert (Hk' : (k <= 390)%nat).
  { destruct (Nat.le_gt_cases k 390) as [|Hgt]; [assumption|].
    specialize (Hin 390%nat ltac:(lia)). rewrite Hlen in Hin.
    unfold sizeof_Inode in Hin. lia. }
  exists k. repeat split; auto.
  destruct Hstop as [Hs|Hs]; [lia| |exact Hs].
  unfold sizeof_Inode in Hs. lia.
Qed.
End Inodes.

Lemma read_inodes_reads_the_block_witness :
  exists k, (k <= 390)%nat
    /\ [mkInode 0x8000 0 0 0; mkInode 0x4000 0 0 0]
       = [] ++ inodes_at Sample.layout block_two_inodes 0 k
    /\ Forall (fun node => Mode node <> 0) (inodes_at Sample.layout block_two_inodes 0 k)
    /\ le_at (sizeof_Inode * Z.of_nat k + ofs_Mode Sample.layout) 2 block_two_inodes = 0.
Proof.
  apply (read_inodes_reads_the_block Sample.layout block_two_inodes []).
  - vm_compute. reflexivity.
  - vm_compute. reflexivity.
Defined.

(** ** The batches of [ExtractAllFilesWithProgress] *)

Lemma batch_covers (n m : Z) :
  0 <= n -> 1 <= m ->
  n <= m * ((n + m - 1) / m) <= n + m - 1.
Proof.
  intros Hn Hm.
  pose proof (Z.div_mod (n + m - 1) m ltac:(lia)) as Hd.
  pose proof (Z.mod_pos_bound (n + m - 1) m ltac:(lia)) as Hr.
  lia.
Qed.

Lemma spawn_prefix (n batch : Z) (t : nat) :
  0 <= n -> 0 <= batch -> (Z.of_nat t + 1) * batch < 2 ^ 64 ->
  seqZ 0 (Z.min n (Z.of_nat t * batch)) ++ concat (spawn n batch (Z.of_nat t))
  = seqZ 0 (Z.min n ((Z.of_nat t + 1) * batch)).
Proof.
  intros Hn Hb Hw. unfold spawn.
  assert (Hs : u64 (Z.of_nat t * batch) = Z.of_nat t * batch)
    by (unfold u64; apply Z.mod_small; nia).
  rewrite Hs.
  assert (He : u64 (Z.of_nat t * batch + batch) = (Z.of_nat t + 1) * batch)
    by (unfold u64; rewrite Z.mod_small; nia).
  rewrite He.
  destruct (Z.of_nat t * batch <? Z.min n ((Z.of_nat t + 1) * batch)) eqn:E.
  - apply Z.ltb_lt in E. cbn [concat]. rewrite app_nil_r. unfold worker_range.
    rewrite Z.min_r by lia.
    rewrite <- seqZ_app by lia. f_equal. lia.
  - apply Z.ltb_ge in E. cbn [concat]. rewrite app_nil_r. f_equal. nia.
Qed.

Lemma workers_prefix (n batch : Z) (t : nat) :
  0 <= n -> 0 <= batch -> Z.of_nat t * batch < 2 ^ 64 ->
  concat (concat (map (spawn n batch) (seqZ 0 (Z.of_nat t))))
  = seqZ 0 (Z.min n (Z.of_nat t * batch)).
Proof.
  intros Hn Hb. induction t as [|t IH]; intros Hw.
  - cbn. rewrite Z.min_r by lia. reflexivity.
  - rewrite seqZ_S, map_app, concat_app, concat_app. cbn [map concat].
    rewrite app_nil_r, IH by nia.
    replace (0 + Z.of_nat t) with (Z.of_nat t) by lia.
    rewrite spawn_prefix by (auto; nia).
    f_equal. f_equal. lia.
Qed.

Lemma length_spawn (n batch t : Z) : (length (spawn n batch t) <= 1)%nat.
Proof. unfold spawn. destruct (_ <? _); cbn; lia. Qed.

Lemma length_workers (n m : Z) : (length (workers n m) <= Z.to_nat m)%nat.
Proof.
  unfold workers. set (batch := _ / m).
  rewrite <- (length_seqZ 0 m).
  induction (seqZ 0 m) as [|t l IH]; cbn [map concat length]; [lia|].
  rewrite length_app. pose proof (length_spawn n batch t). lia.
Qed.

(** X18. The batches cover the file table without overlap: for up to 2^64
    rows and at least one worker, the indices handed to the workers, taken
    worker after worker, are 0, 1, .., num_files - 1; there are at most
    [max_threads] workers, and under every schedule each row is extracted
    exactly once. *)
Theorem every_row_is_extracted_once (n m : Z) (picks : list nat) :
  0 <= n -> 1 <= m -> n + m <= 2 ^ 64 ->
  concat (workers n m) = seqZ 0 n
  /\ (length (workers n m) <= Z.to_nat m)%nat
  /\ Permutation (interleave picks (workers n m)) (seqZ 0 n).
Proof.
  intros Hn Hm Hw.
  assert (Hc : concat (workers n m) = seqZ 0 n).
  { unfold workers.
    assert (Hb : u64 (n + m - 1) = n + m - 1) by (unfold u64; apply Z.mod_small; lia).
    rewrite Hb. pose proof (batch_covers n m Hn Hm) as Hcov.
    set (batch := (n + m - 1) / m) in *.
    assert (Hb0 : 0 <= batch) by (subst batch; apply Z.div_pos; lia).
    replace (seqZ 0 m) with (seqZ 0 (Z.of_nat (Z.to_nat m)))
      by (rewrite Z2Nat.id by lia; reflexivity).
    rewrite workers_prefix by (auto; rewrite Z2Nat.id by lia; lia).
    rewrite Z2Nat.id by lia. f_equal. lia. }
  split; [exact Hc|]. split; [apply length_workers|].
  rewrite interleave_perm, Hc. reflexivity.
Qed.

Lemma every_row_is_extracted_once_witness :
  concat (workers 10 8) = seqZ 0 10
  /\ (length (workers 10 8) <= Z.to_nat 8)%nat
  /\ Permutation (interleave [3%nat; 1%nat] (workers 10 8)) (seqZ 0 10).
Proof.
  apply (every_row_is_extracted_once 10 8 [3%nat; 1%nat]); lia.
Defined.

(** ** The workers and the loop of main.cpp *)

Section Sequential.
Variable P : Primitives.
Variable L : Layout.
Variable disk : string -> option (list byte).



End Sequential.

(** ** [ExtractFiles] and the size of the inode *)

Section FileSize.
Variable P : Primitives.
Variable L : Layout.
Variable disk : string -> option (list byte).
Variable self : PKG.
Variable node : Inode.

Hypothesis Hloc : 0 <= loc node.
Hypothesis Hblocks : 1 <= Blocks node.
Hypothesis Htail : 0x10000 < u32 (Size node - (Blocks node - 1) * 0x10000).
Hypothesis Hmap :
  loc node + Blocks node < Z.of_nat (length (sectorMap self)) <= 2 ^ 31.
Hypothesis Hstored :
  forall j, 0 <= j < Blocks node ->
    u64 (nth (Z.to_nat (loc node + j + 1)) (sectorMap self) 0
         - nth (Z.to_nat (loc node + j)) (sectorMap self) 0) <= 0x10000.

Lemma ExtractFiles_block_bsize (sl nb bs bs' j : Z) (st : Blocks_) :
  (j <? s32 (nb - 1)) = true ->
  ExtractFiles_block P L self sl nb bs j st
  = ExtractFiles_block P L self sl nb bs' j st.
Proof. intros H. unfold ExtractFiles_block. rewrite H. reflexivity. Qed.

(** A block before the last is written whole, whatever the size says. *)
Lemma ExtractFiles_block_whole (j : Z) (st : Blocks_) :
  0 <= j < Blocks node - 1 -> block_inv j st ->
  exists st',
    ExtractFiles_block P L self (s32 (loc node)) (s32 (Blocks node))
      (s32 (Size node)) j st = Normal st'
    /\ block_inv (j + 1) st'.
Proof.
  intros Hj Hinv.
  set (node' := mkInode (Mode node) (Blocks node * 0x10000) (Blocks node) (loc node)).
  assert (H1 : 0 <= loc node') by exact Hloc.
  assert (H2 : 0 <= Blocks node') by (cbn; lia).
  assert (H3 : (Blocks node' - 1) * 0x10000 < Size node' <= Blocks node' * 0x10000)
    by (cbn; lia).
  assert (H4 : loc node' + Blocks node' < Z.of_nat (length (sectorMap self)) <= 2 ^ 31)
    by exact Hmap.
  assert (H5 : forall j, 0 <= j < Blocks node' ->
                 u64 (nth (Z.to_nat (loc node' + j + 1)) (sectorMap self) 0
                      - nth (Z.to_nat (loc node' + j)) (sectorMap self) 0) <= 0x10000)
    by exact Hstored.
  destruct (ExtractFiles_block_size P L self node' H1 H2 H3 H4 H5 j st)
    as (st' & chunk & E & Hinv' & _); [cbn; lia | exact Hinv |].
  exists st'. split; [|exact Hinv'].
  rewrite <- E. cbn [loc Blocks Size].
  apply ExtractFiles_block_bsize.
  apply Z.ltb_lt. change (Blocks node') with (Blocks node).
  rewrite (s32_small (Blocks node)) by lia.
  rewrite s32_small by lia. lia.
Qed.

(** The last block asks for more than the buffer of 0x10000 bytes holds. *)
Lemma ExtractFiles_block_last (st : Blocks_) :
  block_inv (Blocks node - 1) st ->
  ExtractFiles_block P L self (s32 (loc node)) (s32 (Blocks node))
    (s32 (Size node)) (Blocks node - 1) st
  = Undefined "write past decompressedData".
Proof.
  intros (Hdd & Hdec & Hsd).
  set (j := Blocks node - 1) in *.
  assert (Hj : 0 <= j < Blocks node) by (subst j; lia).
  unfold ExtractFiles_block.
  rewrite (s32_small (loc node)) by lia.
  rewrite (s32_small (Blocks node)) by lia.
  rewrite (s32_small (loc node + j)) by lia.
  rewrite (s32_small (loc node + j + 1)) by lia.
  assert (Hidx : (0 <=? loc node + j) && (loc node + j <? Z.of_nat (length (sectorMap self)))
                 && (0 <=? loc node + j + 1)
                 && (loc node + j + 1 <? Z.of_nat (length (sectorMap self))) = true).
  { rewrite !andb_true_iff, !Z.leb_le, !Z.ltb_lt. lia. }
  rewrite Hidx. cbn [negb].
  set (sectorOffset := nth (Z.to_nat (loc node + j)) (sectorMap self) 0).
  pose proof (Hstored j Hj) as Hst. fold sectorOffset in Hst.
  set (sectorSize := u64 (nth (Z.to_nat (loc node + j + 1)) (sectorMap self) 0
                          - sectorOffset)) in *.
  pose proof (u64_range (nth (Z.to_nat (loc node + j + 1)) (sectorMap self) 0
                         - sectorOffset)) as Hss. fold sectorSize in Hss.
  pose proof (previousData_range (sectorOffset + pfsc_offset self)) as Hprev.
  set (previousData := s32 (u64 (u64 (sectorOffset + pfsc_offset self) - _))) in *.
  destruct (Seek _ _) as [ok f]. destruct (Read f _ _) as [pfsc f'].
  set (dec := Crypto.decryptPFS _ _ _ _ _ _).
  assert (Hdeclen : length dec = Z.to_nat 0x11000).
  { subst dec. unfold Crypto.decryptPFS. rewrite length_store_into, Nat2Z.id. exact Hdec. }
  assert (Hin : in_bounds previousData sectorSize dec = true).
  { apply in_bounds_true. rewrite Hdeclen, Z2Nat.id by lia. lia. }
  rewrite Hin. cbn [negb].
  set (dd := if sectorSize =? 0x10000 then _ else _).
  assert (Hddlen : length dd = Z.to_nat 0x10000).
  { subst dd. destruct (sectorSize =? 0x10000); [apply length_store_into|].
    destruct (sectorSize <? 0x10000); [|exact Hdd].
    unfold DecompressPFSC. rewrite length_store_into, Nat2Z.id. exact Hdd. }
  rewrite Hddlen, Z2Nat.id by lia.
  set (size_dec := s32 (size_decompressed st + 0x10000)).
  assert (Hsd' : u32 size_dec = u32 (0x10000 * (j + 1))).
  { subst size_dec. rewrite u32_s32, <- u32_u32_add, Hsd, u32_u32_add.
    f_equal. lia. }
  rewrite (s32_small (Blocks node - 1)) by lia. fold j.
  rewrite Z.ltb_irrefl.
  assert (Hval : u32 (u64 (0x10000 - s32 (size_dec - s32 (Size node))))
                 = u32 (Size node - j * 0x10000)).
  { rewrite u32_u64, u32_sub_s32.
    replace (0x10000 - (size_dec - s32 (Size node)))
      with (0x10000 - size_dec + s32 (Size node)) by lia.
    rewrite u32_add_s32.
    replace (0x10000 - size_dec + Size node)
      with (0x10000 + Size node - size_dec) by lia.
    rewrite <- u32_sub_u32, Hsd', u32_sub_u32.
    f_equal. lia. }
  rewrite Hval.
  destruct (0x10000 <? u32 (Size node - j * 0x10000)) eqn:Hover; [reflexivity|].
  apply Z.ltb_ge in Hover. subst j. lia.
Qed.

Lemma ExtractFiles_blocks_last (n : nat) (j : Z) (st : Blocks_) :
  0 <= j -> j + Z.of_nat (S n) = Blocks node -> block_inv j st ->
  ExtractFiles_blocks P L (S n) self (s32 (loc node)) (s32 (Blocks node))
    (s32 (Size node)) j st
  = Undefined "write past decompressedData".
Proof.
  revert j st. induction n as [|n IH]; intros j st Hj Hn Hinv;
    cbn [ExtractFiles_blocks].
  - replace j with (Blocks node - 1) in * by lia.
    rewrite ExtractFiles_block_last by exact Hinv. reflexivity.
  - destruct (ExtractFiles_block_whole j st) as (st1 & E1 & Hinv1); [lia|exact Hinv|].
    rewrite E1. cbn [bind]. apply IH; [lia | lia | exact Hinv1].
Qed.
End FileSize.

(** X20. When the bytes the inode's size leaves for the last block,
    [size - (blocks - 1) * 0x10000] taken modulo 2^32, are more than
    0x10000 (a size above [blocks * 0x10000], or below
    [(blocks - 1) * 0x10000]), [ExtractFiles] writes the blocks before the
    last and then asks [WriteRaw] for more bytes than [decompressedData]
    holds: a read past the end of the buffer. *)
Theorem ExtractFiles_size_beyond_blocks (P : Primitives) (L : Layout)
    (disk : string -> option (list byte)) (self : PKG) (w : World) (index : Z)
    (t : FSTableEntry) (node : Inode) :
  0 <= index -> nth_error (fsTable self) (Z.to_nat index) = Some t ->
  s32 (type_ t) = PFS_FILE ->
  0 <= s32 (inode t) ->
  nth_error (iNodeBuf self) (Z.to_nat (s32 (inode t))) = Some node ->
  0 <= loc node -> 1 <= Blocks node ->
  0x10000 < u32 (Size node - (Blocks node - 1) * 0x10000) ->
  loc node + Blocks node < Z.of_nat (length (sectorMap self)) <= 2 ^ 31 ->
  (forall j, 0 <= j < Blocks node ->
     u64 (nth (Z.to_nat (loc node + j + 1)) (sectorMap self) 0
          - nth (Z.to_nat (loc node + j)) (sectorMap self) 0) <= 0x10000) ->
  ExtractFiles P L disk self w index = Undefined "write past decompressedData".
Proof.
  intros Hidx Ht Htype Hino Hnode Hloc Hblocks Htail Hmap Hstored.
  unfold ExtractFiles.
  destruct (index <? 0) eqn:E; [apply Z.ltb_lt in E; lia|]. clear E.
  rewrite Ht, Htype. rewrite Z.eqb_refl.
  destruct (s32 (inode t) <? 0) eqn:E; [apply Z.ltb_lt in E; lia|]. clear E.
  set (self1 := set_extractPaths self _).
  change (iNodeBuf self1) with (iNodeBuf self). rewrite Hnode.
  rewrite (s32_small (Blocks node)) at 1 by lia.
  destruct (Z.to_nat (Blocks node)) as [|n] eqn:En; [lia|].
  rewrite (ExtractFiles_blocks_last P L self1 node Hloc Hblocks Htail Hmap Hstored n 0).
  - reflexivity.
  - lia.
  - lia.
  - unfold block_inv. cbn [decompressed pfs_decrypted size_decompressed].
    rewrite !length_zeros. auto.
Qed.

Lemma ExtractFiles_size_beyond_blocks_witness :
  ExtractFiles Sample.primitives Sample.layout (fun _ => None) pkg_long_size
    Sample.empty_world 0
  = Undefined "write past decompressedData".
Proof.
  apply (ExtractFiles_size_beyond_blocks Sample.primitives Sample.layout
           (fun _ => None) pkg_long_size Sample.empty_world 0
           (mkFSTableEntry "a.bin" 1 PFS_FILE) (mkInode 0x8000 0x20005 2 0)).
  - lia.
  - reflexivity.
  - reflexivity.
  - vm_compute. discriminate.
  - reflexivity.
  - cbn. lia.
  - cbn. lia.
  - vm_compute. reflexivity.
  - vm_compute. split; [reflexivity | discriminate].
  - intros j Hj. cbn [Blocks] in Hj.
    assert (Hc : j = 0 \/ j = 1) by lia.
    destruct Hc as [-> | ->]; vm_compute; discriminate.
Defined.

(** ** [RemoveTrailingSlashes] *)

Section TrailingSlashes.
Import FileSys.

Lemma ends_with_single (c : ascii) :
  Path.ends_with (String c "") "/" = Ascii.eqb c "/".
Proof.
  unfold Path.ends_with. cbn. destruct (Ascii.eqb c "/"); reflexivity.
Qed.

Lemma ends_with_cons (c d : ascii) (r : string) :
  Path.ends_with (String c (String d r)) "/" = Path.ends_with (String d r) "/".
Proof.
  unfold Path.ends_with. cbn [String.length Nat.leb].
  replace (S (S (String.length r)) - 1)%nat with (S (String.length r)) by lia.
  replace (S (String.length r) - 1)%nat with (String.length r) by lia.
  reflexivity.
Qed.

Lemma pop_back_spec (s : string) :
  Path.ends_with s "/" = true ->
  s = String.append (pop_back s) "/" /\ S (String.length (pop_back s)) = String.length s.
Proof.
  induction s as [|c r IH]; [discriminate|].
  destruct r as [|d r].
  - rewrite ends_with_single. intros H. apply Ascii.eqb_eq in H. subst c.
    split; reflexivity.
  - rewrite ends_with_cons. intros H. apply IH in H as [H1 H2].
    change (pop_back (String c (String d r)))
      with (String c (pop_back (String d r))).
    change (String.append (String c (pop_back (String d r))) "/")
      with (String c (String.append (pop_back (String d r)) "/")).
    split; [f_equal; exact H1|].
    change (String.length (String c (pop_back (String d r))))
      with (S (String.length (pop_back (String d r)))).
    rewrite H2. reflexivity.
Qed.

Lemma append_cons (c : ascii) (a b : string) :
  String.append (String c a) b = String c (String.append a b).
Proof. reflexivity. Qed.

Lemma slashes_snoc (k : nat) : String.append (slashes k) "/" = slashes (S k).
Proof.
  induction k as [|k IH]; [reflexivity|].
  cbn [slashes]. rewrite append_cons. f_equal. exact IH.
Qed.

Lemma append_assoc (a b c : string) :
  String.append (String.append a b) c = String.append a (String.append b c).
Proof.
  induction a as [|x a IH]; [reflexivity|].
  rewrite !append_cons. f_equal. exact IH.
Qed.

Lemma append_nil_r (a : string) : String.append a "" = a.
Proof.
  induction a as [|x a IH]; [reflexivity|]. rewrite append_cons. f_equal. exact IH.
Qed.

Lemma strip_slashes_spec (n : nat) (s : string) :
  (String.length s <= n)%nat ->
  exists k, s = String.append (strip_slashes n s) (slashes k)
            /\ Path.ends_with (strip_slashes n s) "/" = false.
Proof.
  revert s. induction n as [|n IH]; intros s Hn.
  - destruct s; [|cbn in Hn; lia]. exists 0%nat. split; reflexivity.
  - cbn [strip_slashes]. destruct (Path.ends_with s "/") eqn:E.
    + destruct (pop_back_spec s E) as [Hs Hl].
      destruct (IH (pop_back s)) as (k & Hk & He); [lia|].
      exists (S k). split; [|exact He].
      rewrite Hs at 1. rewrite Hk at 1. rewrite append_assoc, slashes_snoc. reflexivity.
    + exists 0%nat. split; [|exact E]. cbn [slashes]. rewrite append_nil_r. reflexivity.
Qed.

Lemma strip_slashes_done (n : nat) (s : string) :
  Path.ends_with s "/" = false -> strip_slashes n s = s.
Proof. intros H. destruct n; cbn [strip_slashes]; [reflexivity|]. rewrite H. reflexivity. Qed.

Lemma ends_with_slashes (k : nat) : Path.ends_with (slashes (S k)) "/" = true.
Proof.
  induction k as [|k IH]; [reflexivity|].
  change (slashes (S (S k))) with (String "/" (String "/" (slashes k))).
  rewrite ends_with_cons. exact IH.
Qed.

Lemma pop_back_slashes (k : nat) : pop_back (slashes (S k)) = slashes k.
Proof.
  induction k as [|k IH]; [reflexivity|].
  change (pop_back (slashes (S (S k))))
    with (String "/" (pop_back (slashes (S k)))).
  rewrite IH. reflexivity.
Qed.

Lemma length_slashes (k : nat) : String.length (slashes k) = k.
Proof. induction k as [|k IH]; cbn; [reflexivity|]. f_equal. exact IH. Qed.

(** X21. [RemoveTrailingSlashes] removes the slashes that end the path and
    nothing else: the path is the result followed by slashes only, the
    result does not end with a slash, and sanitizing it again changes
    nothing. A path made of slashes only, such as the root, becomes the
    empty string. *)
Theorem RemoveTrailingSlashes_spec (path : string) (n : nat) :
  (exists k, path = String.append (RemoveTrailingSlashes path) (slashes k))
  /\ Path.ends_with (RemoveTrailingSlashes path) "/" = false
  /\ RemoveTrailingSlashes (RemoveTrailingSlashes path) = RemoveTrailingSlashes path
  /\ RemoveTrailingSlashes (slashes n) = ""%string.
Proof.
  destruct (strip_slashes_spec (String.length path) path (Nat.le_refl _))
    as (k & Hk & He).
  split; [exists k; exact Hk|]. split; [exact He|]. split.
  - unfold RemoveTrailingSlashes at 1. apply strip_slashes_done. exact He.
  - unfold RemoveTrailingSlashes. rewrite length_slashes.
    induction n as [|n IH]; [reflexivity|].
    cbn [strip_slashes]. rewrite ends_with_slashes, pop_back_slashes. exact IH.
Qed.
End TrailingSlashes.

(** ** [HandleTable] *)

Section Handles.
Import FileSys.

Lemma first_null_spec (files : list (option ptr)) (n : nat) (index : Z) :
  0 <= index ->
  match first_null files index n with
  | Some i =>
      index <= i < index + Z.of_nat n
      /\ files !! Z.to_nat i = Some None
      /\ (forall j, index <= j < i -> files !! Z.to_nat j <> Some None)
  | None =>
      forall j, index <= j < index + Z.of_nat n -> files !! Z.to_nat j <> Some None
  end.
Proof.
  revert index. induction n as [|n IH]; intros index H0.
  - cbn [first_null]. intros j Hj. lia.
  - cbn [first_null].
    assert (Hstep : forall j, index <= j -> j <> index -> index + 1 <= j) by (intros; lia).
    destruct (files !! Z.to_nat index) as [[p|]|] eqn:E.
    + specialize (IH (index + 1) ltac:(lia)).
      destruct (first_null files (index + 1) n) as [i|].
      * destruct IH as (Hi & Hn & Hb). split; [lia|]. split; [exact Hn|].
        intros j Hj. destruct (Z.eq_dec j index) as [->|Hne]; [congruence|].
        apply Hb. lia.
      * intros j Hj. destruct (Z.eq_dec j index) as [->|Hne]; [congruence|].
        apply IH. lia.
    + split; [lia|]. split; [exact E|]. intros j Hj. lia.
    + specialize (IH (index + 1) ltac:(lia)).
      destruct (first_null files (index + 1) n) as [i|].
      * destruct IH as (Hi & Hn & Hb). split; [lia|]. split; [exact Hn|].
        intros j Hj. destruct (Z.eq_dec j index) as [->|Hne]; [congruence|].
        apply Hb. lia.
      * intros j Hj. destruct (Z.eq_dec j index) as [->|Hne]; [congruence|].
        apply IH. lia.
Qed.

(** [GetFile] on a descriptor that is not negative reads the slot, and gives
    [nullptr] past the end. *)
Lemma GetFile_slot (t : HandleTable) (d : Z) :
  0 <= d < 2 ^ 31 ->
  GetFile t d = default None (m_files t !! Z.to_nat d).
Proof.
  intros Hd. unfold GetFile, at_.
  assert (Hu : u64 d = d) by (unfold u64; apply Z.mod_small; lia).
  rewrite Hu. destruct (d <? 0) eqn:E; [apply Z.ltb_lt in E; lia|]. cbn [orb].
  destruct (Z.of_nat (length (m_files t)) <=? d) eqn:E2; [|reflexivity].
  apply Z.leb_le in E2. rewrite lookup_ge_None_2; [reflexivity|lia].
Qed.

Lemma GetFile_negative (t : HandleTable) (d : Z) : d < 0 -> GetFile t d = None.
Proof.
  intros Hd. unfold GetFile. destruct (d <? 0) eqn:E; [reflexivity|].
  apply Z.ltb_ge in E. lia.
Qed.


Lemma length_small (t : HandleTable) :
  Z.of_nat (length (m_files t)) < 2 ^ 31 ->
  s32 (Z.of_nat (length (m_files t))) = Z.of_nat (length (m_files t)).
Proof.
  intros H. unfold s32. rewrite Z.mod_small by lia. lia.
Qed.

Variable alloc : gset ptr -> ptr.

(** What [CreateHandle] does to the slots. *)
Lemma CreateHandle_slots (t : HandleTable) :
  Z.of_nat (length (m_files t)) < 2 ^ 31 ->
  let file := alloc (dom (objects t)) in
  let fd := fst (CreateHandle alloc t) in
  let t' := snd (CreateHandle alloc t) in
  0 <= fd <= Z.of_nat (length (m_files t))
  /\ (forall i, 0 <= i < fd -> exists p, m_files t !! Z.to_nat i = Some (Some p))
  /\ default None (m_files t !! Z.to_nat fd) = None
  /\ m_files t' !! Z.to_nat fd = Some (Some file)
  /\ (forall i : nat, i <> Z.to_nat fd -> m_files t' !! i = m_files t !! i)
  /\ objects t' = <[ file := File_new ]> (objects t)
  /\ Z.of_nat (length (m_files t')) = Z.max (Z.of_nat (length (m_files t))) (fd + 1).
Proof.
  intros Hlen. cbv zeta. unfold CreateHandle. rewrite length_small by exact Hlen.
  pose proof (first_null_spec (m_files t) (length (m_files t)) 0 (Z.le_refl 0)) as Hf.
  rewrite Nat2Z.id.
  assert (Hused : forall b, (forall j, 0 <= j < b -> m_files t !! Z.to_nat j <> Some None) ->
            b <= Z.of_nat (length (m_files t)) ->
            forall i, 0 <= i < b -> exists p, m_files t !! Z.to_nat i = Some (Some p)).
  { intros b Hb Hle i Hi. specialize (Hb i Hi).
    destruct (m_files t !! Z.to_nat i) as [[p|]|] eqn:E; [exists p; reflexivity|congruence|].
    apply lookup_ge_None_1 in E. lia. }
  destruct (first_null (m_files t) 0 (length (m_files t))) as [index|];
    cbn [fst snd m_files objects].
  - destruct Hf as (Hi & Hn & Hb).
    split; [lia|]. split; [apply Hused; [exact Hb|lia]|].
    split; [rewrite Hn; reflexivity|].
    split; [apply list_lookup_insert_eq; lia|].
    split; [intros i Hne; apply list_lookup_insert_ne; congruence|].
    split; [reflexivity|]. rewrite length_insert. lia.
  - rewrite length_app. cbn [length].
    replace (Z.of_nat (length (m_files t) + 1) - 1)
      with (Z.of_nat (length (m_files t))) by lia.
    rewrite length_small by exact Hlen. rewrite Nat2Z.id.
    split; [lia|]. split; [apply Hused; [exact Hf|lia]|].
    split; [rewrite lookup_ge_None_2 by lia; reflexivity|].
    split; [apply list_lookup_middle; reflexivity|].
    split.
    { intros i Hne. destruct (Nat.lt_ge_cases i (length (m_files t))) as [Hin|Hout].
      - apply lookup_app_l. exact Hin.
      - rewrite !lookup_ge_None_2; [reflexivity|lia|]. rewrite length_app. cbn [length]. lia. }
    split; [reflexivity|]. lia.
Qed.

(** X22. [CreateHandle] returns the lowest descriptor that is free, or the
    size of the table when none is: every descriptor below it is in use,
    the descriptor itself was not, afterwards it names the new [File], which
    is as [File{}] makes it and not opened, and every other descriptor names
    what it named before. *)
Theorem CreateHandle_gives_the_lowest_free_descriptor (t : HandleTable) :
  Z.of_nat (length (m_files t)) < 2 ^ 31 ->
  let file := alloc (dom (objects t)) in
  let fd := fst (CreateHandle alloc t) in
  let t' := snd (CreateHandle alloc t) in
  0 <= fd <= Z.of_nat (length (m_files t))
  /\ full_below t fd
  /\ GetFile t fd = None
  /\ GetFile t' fd = Some file
  /\ objects t' !! file = Some File_new
  /\ (forall d, - 2 ^ 31 <= d < 2 ^ 31 -> d <> fd -> GetFile t' d = GetFile t d).
Proof.
  intros Hlen. cbv zeta.
  destruct (CreateHandle_slots t Hlen) as (Hfd & Hbelow & Hfree & Hnew & Hrest & Hobj & _).
  split; [exact Hfd|]. split.
  { intros i Hi. rewrite GetFile_slot by lia.
    destruct (Hbelow i Hi) as [p ->]. discriminate. }
  split; [rewrite GetFile_slot by lia; exact Hfree|].
  split; [rewrite GetFile_slot by lia; rewrite Hnew; reflexivity|].
  split; [rewrite Hobj; apply lookup_insert_eq|].
  intros d Hd Hne. destruct (Z.ltb_spec d 0) as [Hneg|Hpos].
  - rewrite !GetFile_negative by exact Hneg. reflexivity.
  - rewrite !GetFile_slot by lia. rewrite Hrest by lia. reflexivity.
Qed.

(** What a [DeleteHandle] that returns leaves in the slots. *)
Lemma DeleteHandle_slots (t t' : HandleTable) (d : Z) :
  DeleteHandle t d = Normal t' ->
  m_files t' = <[ Z.to_nat (u64 d) := None ]> (m_files t)
  /\ (Z.to_nat (u64 d) < length (m_files t))%nat.
Proof.
  unfold DeleteHandle, at_. intros H.
  destruct (m_files t !! Z.to_nat (u64 d)) as [file|] eqn:E; [|discriminate].
  apply lookup_lt_Some in E. split; [|exact E].
  destruct file as [p|].
  - destruct (bool_decide _); [|discriminate]. injection H as <-. reflexivity.
  - injection H as <-. reflexivity.
Qed.

Lemma u64_small (d : Z) : 0 <= d < 2 ^ 31 -> u64 d = d.
Proof. intros H. unfold u64. apply Z.mod_small. lia. Qed.

(** X23. [DeleteHandle] on a descriptor of a well-formed table returns and
    frees that descriptor only: [GetFile] gives [nullptr] for it, the other
    descriptors name what they named, the table keeps its size and stays
    well formed, and the [File] the descriptor named is gone. *)
Theorem DeleteHandle_frees_the_descriptor (t : HandleTable) (d : Z) :
  well_formed t ->
  Z.of_nat (length (m_files t)) < 2 ^ 31 ->
  0 <= d < Z.of_nat (length (m_files t)) ->
  exists t',
    DeleteHandle t d = Normal t'
    /\ GetFile t' d = None
    /\ (forall e, - 2 ^ 31 <= e < 2 ^ 31 -> e <> d -> GetFile t' e = GetFile t e)
    /\ length (m_files t') = length (m_files t)
    /\ (forall p, GetFile t d = Some p -> objects t' !! p = None)
    /\ well_formed t'.
Proof.
  intros [Hlive Huniq] Hlen Hd.
  assert (Hu : u64 d = d) by (apply u64_small; lia).
  assert (Hres : exists t', DeleteHandle t d = Normal t'
            /\ (forall p, m_files t !! Z.to_nat d = Some (Some p) -> objects t' = delete p (objects t))
            /\ (m_files t !! Z.to_nat d = Some None -> objects t' = objects t)).
  { unfold DeleteHandle, at_. rewrite Hu.
    destruct (m_files t !! Z.to_nat d) as [[p|]|] eqn:E.
    - rewrite bool_decide_eq_true_2 by (eapply Hlive; exact E).
      eexists. split; [reflexivity|]. cbn [objects]. split; [|discriminate].
      intros q Hq. injection Hq as <-. reflexivity.
    - eexists. split; [reflexivity|]. cbn [objects]. split; [discriminate|reflexivity].
    - apply lookup_ge_None_1 in E. lia. }
  destruct Hres as (t' & Ht' & Hdel & Hkeep). exists t'.
  destruct (DeleteHandle_slots t t' d Ht') as [Hfiles _]. rewrite Hu in Hfiles.
  assert (Hlen' : length (m_files t') = length (m_files t))
    by (rewrite Hfiles; apply length_insert).
  split; [exact Ht'|]. split.
  { rewrite GetFile_slot by lia. rewrite Hfiles.
    rewrite list_lookup_insert_eq by lia. reflexivity. }
  split.
  { intros e He Hne. destruct (Z.ltb_spec e 0) as [Hneg|Hpos].
    - rewrite !GetFile_negative by exact Hneg. reflexivity.
    - rewrite !GetFile_slot by lia. rewrite Hfiles.
      rewrite list_lookup_insert_ne by lia. reflexivity. }
  split; [exact Hlen'|]. split.
  { intros p Hp. rewrite GetFile_slot in Hp by lia.
    destruct (m_files t !! Z.to_nat d) as [[q|]|] eqn:E; cbn in Hp; try discriminate.
    injection Hp as ->. rewrite (Hdel p eq_refl). apply lookup_delete_eq. }
  assert (Hslot : forall (i : nat) q, m_files t' !! i = Some (Some q) ->
            i <> Z.to_nat d /\ m_files t !! i = Some (Some q)).
  { intros i q Hq. rewrite Hfiles in Hq.
    destruct (Nat.eq_dec i (Z.to_nat d)) as [->|Hne].
    - rewrite list_lookup_insert_eq in Hq by lia. discriminate.
    - rewrite list_lookup_insert_ne in Hq by congruence. split; assumption. }
  split.
  - intros i q Hq. destruct (Hslot i q Hq) as [Hne Hq'].
    destruct (m_files t !! Z.to_nat d) as [[p|]|] eqn:E.
    + rewrite (Hdel p eq_refl). rewrite dom_delete_L.
      apply elem_of_difference. split; [eapply Hlive; exact Hq'|].
      rewrite elem_of_singleton. intros ->. apply Hne. eapply Huniq; eassumption.
    + rewrite (Hkeep eq_refl). eapply Hlive; exact Hq'.
    + apply lookup_ge_None_1 in E. lia.
  - intros i j q Hi Hj. destruct (Hslot i q Hi) as [_ Hi'].
    destruct (Hslot j q Hj) as [_ Hj']. eapply Huniq; eassumption.
Qed.

(** X24. [DeleteHandle] checks the descriptor where [GetFile] does not
    complain: on a descriptor that is negative or not below the size of the
    table it throws [std::out_of_range], while [GetFile] gives [nullptr];
    on a descriptor that is free already it returns and changes nothing. *)
Theorem DeleteHandle_of_no_handle (t : HandleTable) (d : Z) :
  Z.of_nat (length (m_files t)) < 2 ^ 31 ->
  - 2 ^ 31 <= d < 2 ^ 31 ->
  GetFile t d = None ->
  DeleteHandle t d =
    (if (0 <=? d) && (d <? Z.of_nat (length (m_files t))) then Normal t
     else Throws "std::out_of_range").
Proof.
  intros Hlen Hd Hfree. unfold DeleteHandle, at_.
  destruct (Z.leb_spec 0 d) as [Hpos|Hneg]; cbn [andb].
  - rewrite u64_small by lia. rewrite GetFile_slot in Hfree by lia.
    destruct (Z.ltb_spec d (Z.of_nat (length (m_files t)))) as [Hin|Hout].
    + destruct (m_files t !! Z.to_nat d) as [[p|]|] eqn:E; cbn in Hfree.
      * discriminate.
      * rewrite list_insert_id by exact E. destruct t; reflexivity.
      * apply lookup_ge_None_1 in E. lia.
    + rewrite lookup_ge_None_2 by lia. reflexivity.
  - rewrite lookup_ge_None_2; [reflexivity|].
    unfold u64. rewrite <- (Z_mod_plus_full d 1 (2 ^ 64)).
    rewrite Z.mod_small by lia. lia.
Qed.

Lemma lowest_free_unique (t : HandleTable) (a b : Z) :
  0 <= a -> 0 <= b ->
  full_below t a -> GetFile t a = None ->
  full_below t b -> GetFile t b = None -> a = b.
Proof.
  intros Ha Hb Hfa Hna Hfb Hnb.
  destruct (Z.lt_trichotomy a b) as [Hlt|[Heq|Hgt]]; [|exact Heq|].
  - exfalso. apply (Hfb a); [lia|exact Hna].
  - exfalso. apply (Hfa b); [lia|exact Hnb].
Qed.

(** X25. A descriptor that is deleted is the next one [CreateHandle] gives
    out, when every descriptor below it is in use. *)
Theorem CreateHandle_reuses_the_deleted_descriptor (t t' : HandleTable) (d : Z) :
  Z.of_nat (length (m_files t)) < 2 ^ 31 ->
  0 <= d < Z.of_nat (length (m_files t)) ->
  full_below t d ->
  DeleteHandle t d = Normal t' ->
  fst (CreateHandle alloc t') = d.
Proof.
  intros Hlen Hd Hfull Hdel.
  destruct (DeleteHandle_slots t t' d Hdel) as [Hfiles _].
  rewrite u64_small in Hfiles by lia.
  assert (Hlen' : Z.of_nat (length (m_files t')) < 2 ^ 31)
    by (rewrite Hfiles, length_insert; exact Hlen).
  destruct (CreateHandle_slots t' Hlen') as (Hfd & Hbelow & Hfree & _).
  apply (lowest_free_unique t').
  - lia.
  - lia.
  - intros i Hi. rewrite GetFile_slot by lia.
    destruct (Hbelow i Hi) as [p ->]. discriminate.
  - rewrite GetFile_slot by lia. exact Hfree.
  - intros i Hi. rewrite GetFile_slot by lia. rewrite Hfiles.
    rewrite list_lookup_insert_ne by lia. rewrite <- GetFile_slot by lia.
    apply Hfull. exact Hi.
  - rewrite GetFile_slot by lia. rewrite Hfiles.
    rewrite list_lookup_insert_eq by lia. reflexivity.
Qed.


(** X26. [CreateHandle] keeps the table well formed when [new] gives an
    address that is not in use: every descriptor in use names a live [File]
    and no [File] has two descriptors. *)
Theorem CreateHandle_keeps_the_table_well_formed (t : HandleTable) :
  gives_fresh alloc ->
  Z.of_nat (length (m_files t)) < 2 ^ 31 ->
  well_formed t ->
  well_formed (snd (CreateHandle alloc t)).
Proof.
  intros Hfresh Hlen [Hlive Huniq].
  destruct (CreateHandle_slots t Hlen) as (Hfd & _ & _ & Hnew & Hrest & Hobj & _).
  set (file := alloc (dom (objects t))) in *.
  set (fd := fst (CreateHandle alloc t)) in *.
  set (t' := snd (CreateHandle alloc t)) in *.
  assert (Hnot : forall i : nat, m_files t !! i <> Some (Some file)).
  { intros i Hi. apply (Hfresh (dom (objects t))). eapply Hlive. exact Hi. }
  split.
  - intros i q Hq. rewrite Hobj, dom_insert_L.
    destruct (Nat.eq_dec i (Z.to_nat fd)) as [->|Hne].
    + rewrite Hnew in Hq. injection Hq as <-. apply elem_of_union_l, elem_of_singleton.
      reflexivity.
    + rewrite Hrest in Hq by exact Hne. apply elem_of_union_r. eapply Hlive. exact Hq.
  - intros i j q Hi Hj.
    destruct (Nat.eq_dec i (Z.to_nat fd)) as [->|Hi'];
      destruct (Nat.eq_dec j (Z.to_nat fd)) as [->|Hj']; [reflexivity| | |].
    + rewrite Hnew in Hi. injection Hi as <-.
      rewrite Hrest in Hj by exact Hj'. destruct (Hnot j Hj).
    + rewrite Hnew in Hj. injection Hj as <-.
      rewrite Hrest in Hi by exact Hi'. destruct (Hnot i Hi).
    + rewrite Hrest in Hi by exact Hi'. rewrite Hrest in Hj by exact Hj'.
      eapply Huniq; eassumption.
Qed.

Lemma find_file_spec (files : list (option ptr)) (file : option ptr) :
  match find_file files file with
  | Some k => 0 <= k < Z.of_nat (length files) /\ files !! Z.to_nat k = Some file
  | None => forall i : nat, files !! i <> Some file
  end.
Proof.
  induction files as [|f files IH]; cbn [find_file].
  - intros i. rewrite lookup_nil. discriminate.
  - destruct (bool_decide (f = file)) eqn:E.
    + apply bool_decide_eq_true_1 in E. subst f. cbn [length]. split; [lia|reflexivity].
    + apply bool_decide_eq_false_1 in E.
      destruct (find_file files file) as [k|]; cbn [option_map].
      * destruct IH as [Hk Hs]. cbn [length]. split; [lia|].
        rewrite Z2Nat.inj_succ by lia. exact Hs.
      * intros [|i]; cbn; [congruence|apply IH].
Qed.

(** X27. On a well-formed table [GetFileDescriptor] undoes [GetFile]: the
    descriptor it gives for the [File] that [d] names is [d]. For a [File]
    that no descriptor names it answers 0, which is the descriptor of the
    first handle. *)
Theorem GetFileDescriptor_of_GetFile (t : HandleTable) (p : ptr) :
  well_formed t ->
  Z.of_nat (length (m_files t)) < 2 ^ 31 ->
  (forall d, - 2 ^ 31 <= d < 2 ^ 31 -> GetFile t d = Some p ->
             GetFileDescriptor t (Some p) = d)
  /\ ((forall d, GetFile t d <> Some p) -> GetFileDescriptor t (Some p) = 0).
Proof.
  intros [_ Huniq] Hlen.
  pose proof (find_file_spec (m_files t) (Some p)) as Hf.
  unfold GetFileDescriptor. split.
  - intros d Hd Hget.
    destruct (Z.ltb_spec d 0) as [Hneg|Hpos];
      [rewrite GetFile_negative in Hget by exact Hneg; discriminate|].
    rewrite GetFile_slot in Hget by lia.
    destruct (m_files t !! Z.to_nat d) as [[q|]|] eqn:E; cbn in Hget; try discriminate.
    injection Hget as ->.
    destruct (find_file (m_files t) (Some p)) as [k|]; [|destruct (Hf _ E)].
    destruct Hf as [Hk Hs].
    pose proof (Huniq _ _ _ Hs E) as Heq.
    unfold s32. rewrite Z.mod_small by lia. lia.
  - intros Hno.
    destruct (find_file (m_files t) (Some p)) as [k|]; [|reflexivity].
    destruct Hf as [Hk Hs]. exfalso. apply (Hno k).
    rewrite GetFile_slot by lia. rewrite Hs. reflexivity.
Qed.

(** On a table without a free slot [CreateHandle] appends. *)
Lemma CreateHandle_full (t : HandleTable) :
  Z.of_nat (length (m_files t)) < 2 ^ 31 ->
  full_below t (Z.of_nat (length (m_files t))) ->
  CreateHandle alloc t =
    (Z.of_nat (length (m_files t)),
     mkHandleTable (m_files t ++ [Some (alloc (dom (objects t)))])
       (<[ alloc (dom (objects t)) := File_new ]> (objects t))).
Proof.
  intros Hlen Hfull. unfold CreateHandle. rewrite length_small by exact Hlen.
  pose proof (first_null_spec (m_files t) (length (m_files t)) 0 (Z.le_refl 0)) as Hf.
  rewrite Nat2Z.id.
  destruct (first_null (m_files t) 0 (length (m_files t))) as [index|].
  - destruct Hf as (Hi & Hn & _). exfalso. apply (Hfull index); [lia|].
    rewrite GetFile_slot by lia. rewrite Hn. reflexivity.
  - rewrite length_app. cbn [length].
    replace (Z.of_nat (length (m_files t) + 1) - 1)
      with (Z.of_nat (length (m_files t))) by lia.
    rewrite length_small by exact Hlen. reflexivity.
Qed.

Lemma GetFile_snoc (files : list (option ptr)) (objs objs' : gmap ptr File)
    (f : option ptr) (d : Z) :
  Z.of_nat (length files) < 2 ^ 31 ->
  - 2 ^ 31 <= d < 2 ^ 31 ->
  GetFile (mkHandleTable (files ++ [f]) objs') d =
    (if d =? Z.of_nat (length files) then f else GetFile (mkHandleTable files objs) d).
Proof.
  intros Hlen Hd. destruct (Z.ltb_spec d 0) as [Hneg|Hpos].
  - rewrite !GetFile_negative by exact Hneg.
    destruct (Z.eqb_spec d (Z.of_nat (length files))); [lia|reflexivity].
  - rewrite !GetFile_slot by lia. cbn [m_files].
    destruct (Z.eqb_spec d (Z.of_nat (length files))) as [->|Hne].
    + rewrite Nat2Z.id. rewrite list_lookup_middle by reflexivity. reflexivity.
    + destruct (Z.ltb_spec d (Z.of_nat (length files))) as [Hin|Hout].
      * rewrite lookup_app_l by lia. reflexivity.
      * rewrite !lookup_ge_None_2; [reflexivity|lia|]. rewrite length_app. cbn [length]. lia.
Qed.

(** The lambda [setup] on a table without a free slot. *)
Lemma setup_full (t : HandleTable) (path : string) (dev : Logger) :
  Z.of_nat (length (m_files t)) < 2 ^ 31 ->
  full_below t (Z.of_nat (length (m_files t))) ->
  setup alloc t path dev =
    Normal (mkHandleTable (m_files t ++ [Some (alloc (dom (objects t)))])
              (<[ alloc (dom (objects t)) := mkFile true Device "" path [] 0 (Some dev) ]>
                 (objects t))).
Proof.
  intros Hlen Hfull. unfold setup. rewrite CreateHandle_full by assumption.
  rewrite (GetFile_snoc _ (objects t)) by lia.
  rewrite Z.eqb_refl. cbn [objects m_files]. rewrite lookup_insert_eq.
  rewrite insert_insert_eq. reflexivity.
Qed.

Lemma full_below_snoc (t : HandleTable) (objs' : gmap ptr File) (p : ptr) :
  Z.of_nat (length (m_files t)) < 2 ^ 31 ->
  full_below t (Z.of_nat (length (m_files t))) ->
  full_below (mkHandleTable (m_files t ++ [Some p]) objs')
    (Z.of_nat (length (m_files t ++ [Some p]))).
Proof.
  intros Hlen Hfull i Hi. rewrite length_app in Hi. cbn [length] in Hi.
  rewrite (GetFile_snoc _ (objects t)) by lia.
  destruct (Z.eqb_spec i (Z.of_nat (length (m_files t)))) as [_|Hne]; [discriminate|].
  replace (mkHandleTable (m_files t) (objects t)) with t by (destruct t; reflexivity).
  apply Hfull. lia.
Qed.

(** X28. On a table without a free slot, such as a new one,
    [CreateStdHandles] returns with the next three descriptors opened as the
    devices /dev/stdin, /dev/stdout and /dev/stderr, in this order, and
    leaves the descriptors and the [File]s there were as they are, when
    [new] gives an address that is not in use. On a new table these are the
    descriptors 0, 1 and 2. *)
Theorem CreateStdHandles_opens_the_next_three (t : HandleTable) :
  gives_fresh alloc ->
  Z.of_nat (length (m_files t)) + 3 <= 2 ^ 31 ->
  full_below t (Z.of_nat (length (m_files t))) ->
  exists t',
    CreateStdHandles alloc t = Normal t'
    /\ device_at t' (Z.of_nat (length (m_files t))) "/dev/stdin" (mkLogger "stdin" false)
    /\ device_at t' (Z.of_nat (length (m_files t)) + 1) "/dev/stdout"
         (mkLogger "stdout" false)
    /\ device_at t' (Z.of_nat (length (m_files t)) + 2) "/dev/stderr"
         (mkLogger "stderr" true)
    /\ (forall d, - 2 ^ 31 <= d < Z.of_nat (length (m_files t)) ->
                  GetFile t' d = GetFile t d)
    /\ (forall p, p ∈ dom (objects t) -> objects t' !! p = objects t !! p).
Proof.
  intros Hfresh Hlen Hfull. unfold CreateStdHandles.
  set (n := Z.of_nat (length (m_files t))) in *.
  rewrite setup_full by (fold n; first [lia|exact Hfull]).
  set (p0 := alloc (dom (objects t))).
  set (f0 := mkFile true Device "" "/dev/stdin" [] 0 (Some (mkLogger "stdin" false))).
  set (t1 := mkHandleTable (m_files t ++ [Some p0]) (<[ p0 := f0 ]> (objects t))).
  assert (Hl1 : Z.of_nat (length (m_files t1)) = n + 1)
    by (subst t1 n; cbn [m_files]; rewrite length_app; cbn [length]; lia).
  assert (Hfull1 : full_below t1 (Z.of_nat (length (m_files t1))))
    by (apply full_below_snoc; fold n; first [lia|exact Hfull]).
  cbn [bind]. rewrite setup_full by first [lia|exact Hfull1].
  set (p1 := alloc (dom (objects t1))).
  set (f1 := mkFile true Device "" "/dev/stdout" [] 0 (Some (mkLogger "stdout" false))).
  set (t2 := mkHandleTable (m_files t1 ++ [Some p1]) (<[ p1 := f1 ]> (objects t1))).
  assert (Hl2 : Z.of_nat (length (m_files t2)) = n + 2)
    by (subst t2; cbn [m_files]; rewrite length_app; cbn [length]; lia).
  assert (Hfull2 : full_below t2 (Z.of_nat (length (m_files t2))))
    by (apply full_below_snoc; first [lia|exact Hfull1]).
  cbn [bind]. rewrite setup_full by first [lia|exact Hfull2].
  set (p2 := alloc (dom (objects t2))).
  set (f2 := mkFile true Device "" "/dev/stderr" [] 0 (Some (mkLogger "stderr" true))).
  eexists. split; [reflexivity|].
  assert (H0 : p0 ∉ dom (objects t)) by apply Hfresh.
  assert (H1 : p1 ∉ dom (objects t1)) by apply Hfresh.
  assert (H2 : p2 ∉ dom (objects t2)) by apply Hfresh.
  assert (H10 : p1 <> p0).
  { intros E. apply H1. subst t1. cbn [objects]. rewrite dom_insert_L, E.
    apply elem_of_union_l, elem_of_singleton. reflexivity. }
  assert (H21 : p2 <> p1).
  { intros E. apply H2. subst t2. cbn [objects]. rewrite dom_insert_L, E.
    apply elem_of_union_l, elem_of_singleton. reflexivity. }
  assert (H20 : p2 <> p0).
  { intros E. apply H2. subst t2 t1. cbn [objects]. rewrite !dom_insert_L, E.
    apply elem_of_union_r, elem_of_union_l, elem_of_singleton. reflexivity. }
  assert (Hget : forall d, - 2 ^ 31 <= d < 2 ^ 31 ->
            GetFile (mkHandleTable (m_files t2 ++ [Some p2]) (<[ p2 := f2 ]> (objects t2))) d =
              if d =? n + 2 then Some p2
              else if d =? n + 1 then Some p1
              else if d =? n then Some p0 else GetFile t d).
  { intros d Hd. rewrite (GetFile_snoc _ (objects t2)) by lia. rewrite Hl2.
    destruct (d =? n + 2); [reflexivity|].
    subst t2. cbn [m_files objects].
    rewrite (GetFile_snoc _ (objects t1)) by lia. rewrite Hl1.
    destruct (d =? n + 1); [reflexivity|].
    subst t1. cbn [m_files objects].
    rewrite (GetFile_snoc _ (objects t)) by (fold n; lia). fold n.
    destruct (d =? n); [reflexivity|]. destruct t; reflexivity. }
  split.
  { exists p0. split.
    - rewrite Hget by lia.
      destruct (Z.eqb_spec n (n + 2)); [lia|]. destruct (Z.eqb_spec n (n + 1)); [lia|].
      rewrite Z.eqb_refl. reflexivity.
    - cbn [objects]. rewrite lookup_insert_ne by exact H20.
      subst t2. cbn [objects]. rewrite lookup_insert_ne by exact H10.
      subst t1. cbn [objects]. apply lookup_insert_eq. }
  split.
  { exists p1. split.
    - rewrite Hget by lia.
      destruct (Z.eqb_spec (n + 1) (n + 2)); [lia|]. rewrite Z.eqb_refl. reflexivity.
    - cbn [objects]. rewrite lookup_insert_ne by exact H21.
      subst t2. cbn [objects]. apply lookup_insert_eq. }
  split.
  { exists p2. split.
    - rewrite Hget by lia. rewrite Z.eqb_refl. reflexivity.
    - cbn [objects]. apply lookup_insert_eq. }
  split.
  { intros d Hd. rewrite Hget by lia.
    destruct (Z.eqb_spec d (n + 2)); [lia|]. destruct (Z.eqb_spec d (n + 1)); [lia|].
    destruct (Z.eqb_spec d n); [lia|]. reflexivity. }
  intros p Hp. cbn [objects].
  assert (Hp0 : p <> p0) by (intros ->; exact (H0 Hp)).
  assert (Hp1 : p <> p1).
  { intros ->. apply H1. subst t1. cbn [objects]. rewrite dom_insert_L.
    apply elem_of_union_r. exact Hp. }
  assert (Hp2 : p <> p2).
  { intros ->. apply H2. subst t2 t1. cbn [objects]. rewrite !dom_insert_L.
    apply elem_of_union_r, elem_of_union_r. exact Hp. }
  rewrite lookup_insert_ne by congruence.
  subst t2. cbn [objects]. rewrite lookup_insert_ne by congruence.
  subst t1. cbn [objects]. rewrite lookup_insert_ne by congruence. reflexivity.
Qed.

Variable path_equal : string -> string -> bool.

Lemma find_host_name_spec (objs : gmap ptr File) (files : list (option ptr))
    (host_name : string) :
  (forall (i : nat) p, files !! i = Some (Some p) -> is_Some (objs !! p)) ->
  exists r, find_host_name path_equal objs files host_name = Normal r
    /\ match r with
       | Some p =>
           exists (i : nat) f,
             files !! i = Some (Some p) /\ objs !! p = Some f
             /\ path_equal (m_host_name f) host_name = true
             /\ (forall (j : nat) q g, (j < i)%nat -> files !! j = Some (Some q) ->
                   objs !! q = Some g -> path_equal (m_host_name g) host_name = false)
       | None =>
           forall (j : nat) q g, files !! j = Some (Some q) ->
             objs !! q = Some g -> path_equal (m_host_name g) host_name = false
       end.
Proof.
  induction files as [|f files IH]; intros Hlive; cbn [find_host_name].
  - exists None. split; [reflexivity|]. intros j q g Hj. rewrite lookup_nil in Hj.
    discriminate.
  - assert (Hlive' : forall (i : nat) p, files !! i = Some (Some p) -> is_Some (objs !! p))
      by (intros i p Hi; apply (Hlive (S i) p); exact Hi).
    destruct (IH Hlive') as (r & Hr & Hspec).
    assert (Hshift : forall f0 : option ptr,
              (forall q g, f0 = Some q -> objs !! q = Some g ->
                 path_equal (m_host_name g) host_name = false) ->
              match r with
              | Some p =>
                  exists (i : nat) f1,
                    (f0 :: files) !! i = Some (Some p) /\ objs !! p = Some f1
                    /\ path_equal (m_host_name f1) host_name = true
                    /\ (forall (j : nat) q g, (j < i)%nat ->
                          (f0 :: files) !! j = Some (Some q) ->
                          objs !! q = Some g ->
                          path_equal (m_host_name g) host_name = false)
              | None =>
                  forall (j : nat) q g, (f0 :: files) !! j = Some (Some q) ->
                    objs !! q = Some g -> path_equal (m_host_name g) host_name = false
              end).
    { intros f0 Hf0. destruct r as [p|].
      - destruct Hspec as (i & f1 & Hi & Hp & He & Hfirst).
        exists (S i), f1. split; [exact Hi|]. split; [exact Hp|]. split; [exact He|].
        intros [|j] q g Hj Hq Hg.
        + cbn in Hq. injection Hq as ->. eapply Hf0; [reflexivity|exact Hg].
        + eapply (Hfirst j); [lia|exact Hq|exact Hg].
      - intros [|j] q g Hq Hg.
        + cbn in Hq. injection Hq as ->. eapply Hf0; [reflexivity|exact Hg].
        + eapply Hspec; eassumption. }
    destruct f as [p|].
    + destruct (Hlive 0%nat p eq_refl) as [file Hfile]. rewrite Hfile.
      destruct (path_equal (m_host_name file) host_name) eqn:E.
      * exists (Some p). split; [reflexivity|]. exists 0%nat, file.
        split; [reflexivity|]. split; [exact Hfile|]. split; [exact E|].
        intros j q g Hj. lia.
      * exists r. split; [exact Hr|]. apply Hshift.
        intros q g Hq Hg. injection Hq as <-. rewrite Hfile in Hg.
        injection Hg as <-. exact E.
    + exists r. split; [exact Hr|]. apply Hshift. intros q g Hq. discriminate.
Qed.

Lemma host_name_at_slot (t : HandleTable) (d : Z) (p : ptr) (f : File) :
  0 <= d < 2 ^ 31 ->
  m_files t !! Z.to_nat d = Some (Some p) -> objects t !! p = Some f ->
  host_name_at t d = Some (m_host_name f).
Proof.
  intros Hd Hs Hf. unfold host_name_at. rewrite GetFile_slot by exact Hd.
  rewrite Hs. cbn. rewrite Hf. reflexivity.
Qed.

(** X29. [GetFile] by host name on a well-formed table returns the [File]
    of the lowest descriptor whose host name equals the one asked for, and
    [nullptr] when no descriptor names such a [File]. *)
Theorem GetFile_by_host_name_finds_the_first (t : HandleTable) (host_name : string) :
  well_formed t ->
  Z.of_nat (length (m_files t)) < 2 ^ 31 ->
  exists r,
    GetFile_by_host_name path_equal t host_name = Normal r
    /\ match r with
       | Some p =>
           exists d h,
             0 <= d /\ GetFile t d = Some p /\ host_name_at t d = Some h
             /\ path_equal h host_name = true
             /\ (forall e g, 0 <= e < d -> host_name_at t e = Some g ->
                   path_equal g host_name = false)
       | None =>
           forall e g, - 2 ^ 31 <= e < 2 ^ 31 -> host_name_at t e = Some g ->
             path_equal g host_name = false
       end.
Proof.
  intros [Hlive _] Hlen. unfold GetFile_by_host_name.
  destruct (find_host_name_spec (objects t) (m_files t) host_name) as (r & Hr & Hspec).
  { intros i p Hi. apply elem_of_dom. eapply Hlive. exact Hi. }
  exists r. split; [exact Hr|].
  assert (Hat : forall e g, 0 <= e < 2 ^ 31 -> host_name_at t e = Some g ->
            exists q f, m_files t !! Z.to_nat e = Some (Some q)
                        /\ objects t !! q = Some f /\ g = m_host_name f).
  { intros e g He Hg. unfold host_name_at in Hg. rewrite GetFile_slot in Hg by exact He.
    destruct (m_files t !! Z.to_nat e) as [[q|]|] eqn:E; cbn in Hg; try discriminate.
    destruct (objects t !! q) as [f|] eqn:Ef; cbn in Hg; [|discriminate].
    injection Hg as <-. exists q, f. split; [reflexivity|]. split; [exact Ef|reflexivity]. }
  destruct r as [p|].
  - destruct Hspec as (i & f & Hi & Hp & He & Hfirst).
    pose proof (lookup_lt_Some _ _ _ Hi) as Hlt.
    exists (Z.of_nat i), (m_host_name f).
    split; [lia|]. split.
    { rewrite GetFile_slot by lia. rewrite Nat2Z.id, Hi. reflexivity. }
    split.
    { apply (host_name_at_slot t _ p f); [lia| |exact Hp]. rewrite Nat2Z.id. exact Hi. }
    split; [exact He|].
    intros e g Hrange Hg.
    destruct (Hat e g ltac:(lia) Hg) as (q & f' & Hq & Hf' & ->).
    eapply (Hfirst (Z.to_nat e)); [lia|exact Hq|exact Hf'].
  - intros e g Hrange Hg.
    destruct (Z.ltb_spec e 0) as [Hneg|Hpos].
    + unfold host_name_at in Hg. rewrite GetFile_negative in Hg by exact Hneg. discriminate.
    + destruct (Hat e g ltac:(lia) Hg) as (q & f' & Hq & Hf' & ->).
      eapply Hspec; eassumption.
Qed.

End Handles.

Lemma table_with_hole_well_formed : FileSys.well_formed FileSys.table_with_hole.
Proof.
  split.
  - intros i p H. apply elem_of_dom.
    destruct i as [|[|[|i]]]; cbn in H; try discriminate;
      injection H as <-; eexists; vm_compute; reflexivity.
  - intros i j p Hi Hj.
    destruct i as [|[|[|i]]]; cbn in Hi; try discriminate; injection Hi as <-;
      destruct j as [|[|[|j]]]; cbn in Hj; try discriminate; reflexivity.
Qed.

Lemma least_free_gives_fresh : FileSys.gives_fresh FileSys.least_free.
Proof. intros used. apply is_fresh. Qed.

Lemma CreateHandle_gives_the_lowest_free_descriptor_witness :
  0 <= fst (FileSys.CreateHandle FileSys.least_free FileSys.table_with_hole)
    <= Z.of_nat (length (FileSys.m_files FileSys.table_with_hole))
  /\ FileSys.full_below FileSys.table_with_hole
       (fst (FileSys.CreateHandle FileSys.least_free FileSys.table_with_hole))
  /\ FileSys.GetFile FileSys.table_with_hole
       (fst (FileSys.CreateHandle FileSys.least_free FileSys.table_with_hole)) = None
  /\ FileSys.GetFile
       (snd (FileSys.CreateHandle FileSys.least_free FileSys.table_with_hole))
       (fst (FileSys.CreateHandle FileSys.least_free FileSys.table_with_hole))
     = Some (FileSys.least_free (dom (FileSys.objects FileSys.table_with_hole)))
  /\ FileSys.objects
       (snd (FileSys.CreateHandle FileSys.least_free FileSys.table_with_hole))
       !! FileSys.least_free (dom (FileSys.objects FileSys.table_with_hole))
     = Some FileSys.File_new
  /\ (forall d, - 2 ^ 31 <= d < 2 ^ 31 ->
        d <> fst (FileSys.CreateHandle FileSys.least_free FileSys.table_with_hole) ->
        FileSys.GetFile
          (snd (FileSys.CreateHandle FileSys.least_free FileSys.table_with_hole)) d
        = FileSys.GetFile FileSys.table_with_hole d).
Proof.
  apply (CreateHandle_gives_the_lowest_free_descriptor FileSys.least_free
           FileSys.table_with_hole).
  cbn. lia.
Defined.

Lemma DeleteHandle_frees_the_descriptor_witness :
  exists t',
    FileSys.DeleteHandle FileSys.table_with_hole 2 = Normal t'
    /\ FileSys.GetFile t' 2 = None
    /\ (forall e, - 2 ^ 31 <= e < 2 ^ 31 -> e <> 2 ->
          FileSys.GetFile t' e = FileSys.GetFile FileSys.table_with_hole e)
    /\ length (FileSys.m_files t') = length (FileSys.m_files FileSys.table_with_hole)
    /\ (forall p, FileSys.GetFile FileSys.table_with_hole 2 = Some p ->
          FileSys.objects t' !! p = None)
    /\ FileSys.well_formed t'.
Proof.
  apply (DeleteHandle_frees_the_descriptor FileSys.table_with_hole 2).
  - exact table_with_hole_well_formed.
  - cbn. lia.
  - cbn. lia.
Defined.

Lemma DeleteHandle_of_no_handle_witness :
  FileSys.DeleteHandle FileSys.table_with_hole 3 = Throws "std::out_of_range".
Proof.
  apply (DeleteHandle_of_no_handle FileSys.table_with_hole 3).
  - cbn. lia.
  - lia.
  - reflexivity.
Defined.

Lemma CreateHandle_reuses_the_deleted_descriptor_witness :
  fst (FileSys.CreateHandle FileSys.least_free
         (FileSys.mkHandleTable [None; None; Some 7%nat]
            (delete 5%nat (FileSys.objects FileSys.table_with_hole)))) = 0.
Proof.
  apply (CreateHandle_reuses_the_deleted_descriptor FileSys.least_free
           FileSys.table_with_hole _ 0).
  - cbn. lia.
  - cbn. lia.
  - intros i Hi. lia.
  - reflexivity.
Defined.

Lemma CreateHandle_keeps_the_table_well_formed_witness :
  FileSys.well_formed (snd (FileSys.CreateHandle FileSys.least_free FileSys.table_with_hole)).
Proof.
  apply (CreateHandle_keeps_the_table_well_formed FileSys.least_free
           FileSys.table_with_hole).
  - exact least_free_gives_fresh.
  - cbn. lia.
  - exact table_with_hole_well_formed.
Defined.

Lemma GetFileDescriptor_of_GetFile_witness :
  (forall d, - 2 ^ 31 <= d < 2 ^ 31 ->
     FileSys.GetFile FileSys.table_with_hole d = Some 7%nat ->
     FileSys.GetFileDescriptor FileSys.table_with_hole (Some 7%nat) = d)
  /\ ((forall d, FileSys.GetFile FileSys.table_with_hole d <> Some 7%nat) ->
      FileSys.GetFileDescriptor FileSys.table_with_hole (Some 7%nat) = 0).
Proof.
  apply (GetFileDescriptor_of_GetFile FileSys.table_with_hole 7%nat).
  - exact table_with_hole_well_formed.
  - cbn. lia.
Defined.

Lemma CreateStdHandles_opens_the_next_three_witness :
  exists t',
    FileSys.CreateStdHandles FileSys.least_free FileSys.HandleTable_new = Normal t'
    /\ FileSys.device_at t' 0 "/dev/stdin" (FileSys.mkLogger "stdin" false)
    /\ FileSys.device_at t' 1 "/dev/stdout" (FileSys.mkLogger "stdout" false)
    /\ FileSys.device_at t' 2 "/dev/stderr" (FileSys.mkLogger "stderr" true)
    /\ (forall d, - 2 ^ 31 <= d < 0 ->
          FileSys.GetFile t' d = FileSys.GetFile FileSys.HandleTable_new d)
    /\ (forall p, p ∈ dom (FileSys.objects FileSys.HandleTable_new) ->
          FileSys.objects t' !! p = FileSys.objects FileSys.HandleTable_new !! p).
Proof.
  apply (CreateStdHandles_opens_the_next_three FileSys.least_free FileSys.HandleTable_new).
  - exact least_free_gives_fresh.
  - cbn. lia.
  - intros i Hi. cbn in Hi. lia.
Defined.

Lemma GetFile_by_host_name_finds_the_first_witness :
  exists r,
    FileSys.GetFile_by_host_name String.eqb FileSys.table_with_hole "" = Normal r
    /\ match r with
       | Some p =>
           exists d h,
             0 <= d /\ FileSys.GetFile FileSys.table_with_hole d = Some p
             /\ FileSys.host_name_at FileSys.table_with_hole d = Some h
             /\ String.eqb h "" = true
             /\ (forall e g, 0 <= e < d ->
                   FileSys.host_name_at FileSys.table_with_hole e = Some g ->
                   String.eqb g "" = false)
       | None =>
           forall e g, - 2 ^ 31 <= e < 2 ^ 31 ->
             FileSys.host_name_at FileSys.table_with_hole e = Some g ->
             String.eqb g "" = false
       end.
Proof.
  apply (GetFile_by_host_name_finds_the_first String.eqb FileSys.table_with_hole "").
  - exact table_with_hole_well_formed.
  - cbn. lia.
Defined.

(** ** [Config]: the game install directories *)

Section InstallDirs.
Import Config.
Variable path_equal : string -> string -> bool.
Hypothesis path_equal_equivalence : equivalence path_equal.

Lemma existsb_snoc (f : string -> bool) (l : list string) (x : string) :
  existsb f (l ++ [x]) = existsb f l || f x.
Proof. rewrite existsb_app. cbn. rewrite orb_false_r. reflexivity. Qed.

Lemma no_duplicates_snoc (dirs : list string) (dir : string) :
  no_duplicates path_equal dirs = true ->
  found path_equal dirs dir = false ->
  no_duplicates path_equal (dirs ++ [dir]) = true.
Proof.
  induction dirs as [|d dirs IH]; intros Hd Hf; [reflexivity|].
  cbn in Hd, Hf |- *. apply andb_true_iff in Hd. destruct Hd as [Hd1 Hd2].
  apply orb_false_iff in Hf. destruct Hf as [Hf1 Hf2].
  rewrite existsb_snoc, Hf1, orb_false_r, Hd1. cbn. apply IH; assumption.
Qed.

Lemma existsb_remove (f : string -> bool) (dirs : list string) (dir : string) :
  existsb f dirs = false ->
  existsb f (removeGameInstallDir path_equal dirs dir) = false.
Proof.
  induction dirs as [|d dirs IH]; intros H; [reflexivity|].
  cbn in H |- *. apply orb_false_iff in H. destruct H as [H1 H2].
  destruct (path_equal d dir); [exact H2|]. cbn. rewrite H1. apply IH. exact H2.
Qed.

Lemma no_duplicates_remove (dirs : list string) (dir : string) :
  no_duplicates path_equal dirs = true ->
  no_duplicates path_equal (removeGameInstallDir path_equal dirs dir) = true.
Proof.
  induction dirs as [|d dirs IH]; intros H; [reflexivity|].
  cbn in H |- *. apply andb_true_iff in H. destruct H as [H1 H2].
  destruct (path_equal d dir); [exact H2|]. cbn.
  apply negb_true_iff in H1. rewrite (existsb_remove _ _ _ H1). cbn. apply IH. exact H2.
Qed.

Lemma found_after_remove (dirs : list string) (dir : string) :
  no_duplicates path_equal dirs = true ->
  found path_equal (removeGameInstallDir path_equal dirs dir) dir = false.
Proof.
  destruct path_equal_equivalence as (_ & Hsym & Htrans).
  induction dirs as [|d dirs IH]; intros H; [reflexivity|].
  cbn in H |- *. apply andb_true_iff in H. destruct H as [H1 H2].
  apply negb_true_iff in H1.
  destruct (path_equal d dir) eqn:E.
  - unfold found. apply not_true_is_false. intros Hex.
    apply existsb_exists in Hex. destruct Hex as (x & Hin & Hx).
    assert (Hdx : path_equal d x = true).
    { apply (Htrans d dir x); [exact E|]. rewrite Hsym. exact Hx. }
    assert (Hex : existsb (path_equal d) dirs = true)
      by (apply existsb_exists; exists x; split; assumption).
    congruence.
  - unfold found in *. cbn. rewrite E. cbn. apply IH. exact H2.
Qed.

Lemma remove_snoc (dirs : list string) (dir : string) :
  found path_equal dirs dir = false ->
  removeGameInstallDir path_equal (dirs ++ [dir]) dir = dirs.
Proof.
  destruct path_equal_equivalence as (Hrefl & _ & _).
  induction dirs as [|d dirs IH]; intros H.
  - cbn. rewrite Hrefl. reflexivity.
  - cbn in H |- *. apply orb_false_iff in H. destruct H as [H1 H2].
    rewrite H1. f_equal. apply IH. exact H2.
Qed.

(** X30. On a list of install directories without duplicates,
    [addGameInstallDir] answers whether the directory was missing, leaves the
    directory in the list and the list without duplicates;
    [removeGameInstallDir] leaves no entry equal to the directory; and
    removing a directory that was just added gives the list back. *)
Theorem install_dirs_stay_without_duplicates (dirs : list string) (dir : string) :
  no_duplicates path_equal dirs = true ->
  fst (addGameInstallDir path_equal dirs dir) = negb (found path_equal dirs dir)
  /\ found path_equal (snd (addGameInstallDir path_equal dirs dir)) dir = true
  /\ no_duplicates path_equal (snd (addGameInstallDir path_equal dirs dir)) = true
  /\ no_duplicates path_equal (removeGameInstallDir path_equal dirs dir) = true
  /\ found path_equal (removeGameInstallDir path_equal dirs dir) dir = false
  /\ (found path_equal dirs dir = false ->
      removeGameInstallDir path_equal (snd (addGameInstallDir path_equal dirs dir)) dir
      = dirs).
Proof.
  intros Hd. pose proof path_equal_equivalence as (Hrefl & _ & _).
  unfold addGameInstallDir.
  destruct (found path_equal dirs dir) eqn:E; cbn [fst snd negb].
  - split; [reflexivity|]. split; [exact E|]. split; [exact Hd|].
    split; [apply no_duplicates_remove; exact Hd|].
    split; [apply found_after_remove; exact Hd|]. discriminate.
  - split; [reflexivity|]. split.
    { unfold found. rewrite existsb_snoc, Hrefl. apply orb_true_r. }
    split; [apply no_duplicates_snoc; assumption|].
    split; [apply no_duplicates_remove; exact Hd|].
    split; [apply found_after_remove; exact Hd|].
    intros _. apply remove_snoc. exact E.
Qed.

End InstallDirs.

Lemma eqb_equivalence : Config.equivalence String.eqb.
Proof.
  split; [exact String.eqb_refl|]. split; [exact String.eqb_sym|].
  intros a b c Hab Hbc. apply String.eqb_eq in Hab, Hbc. subst. apply String.eqb_refl.
Qed.

Lemma install_dirs_stay_without_duplicates_witness :
  fst (Config.addGameInstallDir String.eqb ["/games"; "/more"]%string "/new")
    = negb (Config.found String.eqb ["/games"; "/more"]%string "/new")
  /\ Config.found String.eqb
       (snd (Config.addGameInstallDir String.eqb ["/games"; "/more"]%string "/new"))
       "/new" = true
  /\ Config.no_duplicates String.eqb
       (snd (Config.addGameInstallDir String.eqb ["/games"; "/more"]%string "/new"))
     = true
  /\ Config.no_duplicates String.eqb
       (Config.removeGameInstallDir String.eqb ["/games"; "/more"]%string "/new") = true
  /\ Config.found String.eqb
       (Config.removeGameInstallDir String.eqb ["/games"; "/more"]%string "/new")
       "/new" = false
  /\ (Config.found String.eqb ["/games"; "/more"]%string "/new" = false ->
      Config.removeGameInstallDir String.eqb
        (snd (Config.addGameInstallDir String.eqb ["/games"; "/more"]%string "/new"))
        "/new"
      = ["/games"; "/more"]%string).
Proof.
  apply (install_dirs_stay_without_duplicates String.eqb eqb_equivalence
           ["/games"; "/more"]%string "/new").
  reflexivity.
Defined.
